(** * Verification of [update_rhp_unit_paths.py]

    A shallow embedding of the Rhapsody link updater: the project file
    object [RhpRpyx], the index [RhpIndex], the replacement strategy
    [RelativePathReplacementStrategy] and the orchestrator
    [RhpLinksUpdater], followed by the properties of the specification.

    Python objects live in a heap addressed by object identifiers, so that
    the sharing between the index and the link dictionaries is explicit.
    Python dictionaries are association lists in insertion order.  The
    library calls of the script ([str] methods, [re.findall], [os.path] in
    its POSIX flavour, [open]) are modelled next to the code that uses
    them. *)

From Stdlib Require Import String Ascii List ZArith Lia Bool Arith.
Import ListNotations.
Local Open Scope string_scope.

(** ** Python [str] operations *)

Module Str.

Definition eqb_char (a b : ascii) : bool := Ascii.eqb a b.
#[global] Arguments eqb_char : simpl never.

(** [s.startswith(p)] *)
Fixpoint startswith (p s : string) : bool :=
  match p with
  | EmptyString => true
  | String a p' =>
      match s with
      | EmptyString => false
      | String b s' => eqb_char a b && startswith p' s'
      end
  end.

(** [s[n:]] *)
Fixpoint drop (n : nat) (s : string) : string :=
  match n with
  | O => s
  | S n' => match s with EmptyString => EmptyString | String _ s' => drop n' s' end
  end.

(** [s.replace(old, new, 1)] for a non-empty [old]; with an empty [old]
    Python puts [new] in front, which the first test also does. *)
Fixpoint replace1 (old new s : string) : string :=
  if startswith old s then new ++ drop (String.length old) s
  else match s with
       | EmptyString => EmptyString
       | String c s' => String c (replace1 old new s')
       end.

(** [s.replace(old, new)]: every non-overlapping occurrence, leftmost
    first.  [skip] counts the characters of an occurrence that was just
    replaced and that are still to be stepped over. *)
Fixpoint replace_from (old new : string) (skip : nat) (s : string) : string :=
  match s with
  | EmptyString => EmptyString
  | String c s' =>
      match skip with
      | S k => replace_from old new k s'
      | O =>
          if startswith old s
          then new ++ replace_from old new (Nat.pred (String.length old)) s'
          else String c (replace_from old new 0 s')
      end
  end.

(** With an empty [old] Python inserts [new] before every character and at
    the end. *)
Fixpoint intersperse (new s : string) : string :=
  match s with
  | EmptyString => new
  | String c s' => new ++ String c (intersperse new s')
  end.

Definition replace (old new s : string) : string :=
  match old with
  | EmptyString => intersperse new s
  | _ => replace_from old new 0 s
  end.

(** [s.lstrip(c)] for a one-character set *)
Fixpoint lstrip (c : ascii) (s : string) : string :=
  match s with
  | EmptyString => EmptyString
  | String a s' => if eqb_char a c then lstrip c s' else s
  end.

(** [s.rstrip(c)] for a one-character set *)
Fixpoint rstrip (c : ascii) (s : string) : string :=
  match s with
  | EmptyString => EmptyString
  | String a s' =>
      match rstrip c s' with
      | EmptyString => if eqb_char a c then EmptyString else String a EmptyString
      | r => String a r
      end
  end.

Definition lower_char (a : ascii) : ascii :=
  let n := nat_of_ascii a in
  if (65 <=? n)%nat && (n <=? 90)%nat then ascii_of_nat (n + 32) else a.

(** [s.lower()] on ASCII text *)
Fixpoint lower (s : string) : string :=
  match s with
  | EmptyString => EmptyString
  | String a s' => String (lower_char a) (lower s')
  end.

(** [s.split(c)] *)
Fixpoint split (c : ascii) (s : string) : list string :=
  match s with
  | EmptyString => [EmptyString]
  | String a s' =>
      if eqb_char a c then EmptyString :: split c s'
      else match split c s' with
           | [] => [String a EmptyString]
           | w :: ws => String a w :: ws
           end
  end.

(** [sep.join(l)] *)
Fixpoint join (sep : string) (l : list string) : string :=
  match l with
  | [] => EmptyString
  | [w] => w
  | w :: ws => w ++ sep ++ join sep ws
  end.

(** [s.endswith(p)] *)
Definition endswith (p s : string) : bool :=
  startswith p (drop (String.length s - String.length p) s)
  && (String.length p <=? String.length s)%nat.

(** [sub in s] *)
Fixpoint contains (sub s : string) : bool :=
  startswith sub s ||
  match s with
  | EmptyString => false
  | String _ s' => contains sub s'
  end.

(** [str(n)] for a natural number *)
Fixpoint digits (fuel n : nat) (acc : string) : string :=
  match fuel with
  | O => acc
  | S f =>
      let d := String (ascii_of_nat (48 + n mod 10)) acc in
      if (n <? 10)%nat then d else digits f (n / 10) d
  end.

Definition of_nat (n : nat) : string := digits (S n) n EmptyString.

End Str.

(** ** [re.findall(">.*_rpy<", content)] *)

Module Re.

Definition newline : ascii := ascii_of_nat 10.

(** The longest prefix of [s] that stays on the first line of [s] and ends
    with [pat]: what the greedy [.*] followed by the literal [pat] matches
    at the start of [s] ([.] does not match a newline). *)
Fixpoint greedy_upto (pat s : string) : option string :=
  match s with
  | EmptyString => None
  | String c s' =>
      let here := if Str.startswith pat s then Some pat else None in
      if Str.eqb_char c newline then here
      else match greedy_upto pat s' with
           | Some m => Some (String c m)
           | None => here
           end
  end.

(** A match of [>.*_rpy<] anchored at the start of [s]. *)
Definition match_here (s : string) : option string :=
  match s with
  | String c s' =>
      if Str.eqb_char c ">"%char
      then option_map (String c) (greedy_upto "_rpy<" s')
      else None
  | EmptyString => None
  end.

(** The scan of [findall]: matches do not overlap, the search resumes where
    the previous match ended. *)
Fixpoint findall_from (skip : nat) (s : string) : list string :=
  match s with
  | EmptyString => []
  | String _ s' =>
      match skip with
      | S k => findall_from k s'
      | O =>
          match match_here s with
          | Some m => m :: findall_from (Nat.pred (String.length m)) s'
          | None => findall_from 0 s'
          end
      end
  end.

Definition findall (content : string) : list string := findall_from 0 content.

End Re.

(** ** [os.path] (the POSIX flavour, [posixpath]) *)

Module OsPath.

Definition sep : string := "/".

(** [os.path.isabs(p)] *)
Definition isabs (p : string) : bool := Str.startswith sep p.

(** [os.path.join(a, b)] *)
Definition join (a b : string) : string :=
  if Str.startswith sep b then b
  else if (String.length a =? 0)%nat || Str.endswith sep a then a ++ b
  else a ++ sep ++ b.

(** The loop of [normpath] over the components; [new_comps] is kept with
    its last element first. *)
Fixpoint norm_comps (initial_slashes : nat) (comps new_comps : list string)
  : list string :=
  match comps with
  | [] => new_comps
  | comp :: rest =>
      if String.eqb comp "" || String.eqb comp "." then
        norm_comps initial_slashes rest new_comps
      else if negb (String.eqb comp "..")
              || ((initial_slashes =? 0)%nat && (length new_comps =? 0)%nat)
              || match new_comps with
                 | last :: _ => String.eqb last ".."
                 | [] => false
                 end
      then norm_comps initial_slashes rest (comp :: new_comps)
      else norm_comps initial_slashes rest (tl new_comps)
  end.

Fixpoint repeat_sep (n : nat) : string :=
  match n with O => "" | S k => sep ++ repeat_sep k end.

(** [os.path.normpath(path)] *)
Definition normpath (path : string) : string :=
  if (String.length path =? 0)%nat then "."
  else
    let initial_slashes :=
      if Str.startswith sep path then
        if Str.startswith "//" path && negb (Str.startswith "///" path)
        then 2%nat else 1%nat
      else 0%nat in
    let comps := rev (norm_comps initial_slashes (Str.split "/" path) []) in
    let joined := repeat_sep initial_slashes ++ Str.join sep comps in
    if (String.length joined =? 0)%nat then "." else joined.

(** [os.path.abspath(path)]; [cwd] is [os.getcwd()]. *)
Definition abspath (cwd path : string) : string :=
  normpath (if isabs path then path else join cwd path).

(** [[x for x in abspath(p).split(sep) if x]] *)
Definition parts (cwd p : string) : list string :=
  filter (fun x => negb (String.eqb x ""))
         (Str.split "/" (abspath cwd p)).

(** [len(os.path.commonprefix([a, b]))] on two lists of components *)
Fixpoint common (a b : list string) : nat :=
  match a, b with
  | x :: a', y :: b' => if String.eqb x y then S (common a' b') else O
  | _, _ => O
  end.

(** [os.path.relpath(path, start)].  Python raises [ValueError] on an empty
    [path]; the script only calls it behind [os.path.isabs(path)], which an
    empty string fails, so the case is left out. *)
Definition relpath (cwd path start : string) : string :=
  let start_list := parts cwd start in
  let path_list := parts cwd path in
  let i := common start_list path_list in
  let rel_list :=
    (repeat ".." (length start_list - i) ++ skipn i path_list)%list in
  match rel_list with
  | [] => "."
  | c :: cs => fold_left join cs c
  end.

End OsPath.

(** ** Python dictionaries, in insertion order *)

Definition dict (V : Type) : Type := list (string * V).

(** [d.get(k)] *)
Fixpoint dict_get {V} (k : string) (d : dict V) : option V :=
  match d with
  | [] => None
  | (k', v) :: d' => if String.eqb k k' then Some v else dict_get k d'
  end.

(** [d[k] = v]: an existing key keeps its place, a new key goes last. *)
Fixpoint dict_set {V} (k : string) (v : V) (d : dict V) : dict V :=
  match d with
  | [] => [(k, v)]
  | (k', v') :: d' =>
      if String.eqb k k' then (k', v) :: d' else (k', v') :: dict_set k v d'
  end.

Definition dict_keys {V} (d : dict V) : list string := map fst d.
Definition dict_values {V} (d : dict V) : list V := map snd d.

(** ** The world of a run: disk, heap of objects, log *)

(** An entry of the disk: a file with its content, or anything else that
    [os.path.exists] sees (a directory, a file without permission).  [open]
    for reading or writing raises [IOError] when the corresponding flag is
    off. *)
Record node : Type := mkNode {
  data : string;
  readable : bool;
  writable : bool }.

(** Object identifiers: positions in the heap. *)
Definition oid : Type := nat.

(** [class RhpRpyx]: the attributes of one instance.  [fileContent] is only
    set by [getLinkedRpyx]. *)
Record RhpRpyx : Type := mkRhpRpyx {
  absPath : string;
  exists_ : bool;
  linksDico : dict oid;
  replacementsDico : dict string;
  fileContent : option string }.

(** [class RelativePathReplacementStrategy]: its five attributes. *)
Record RelativePathReplacementStrategy : Type := mkStrategy {
  linkCount : Z;
  replacementCount : Z;
  fileUpdatedCount : Z;
  updatedFileCount : Z;
  maxFileToUpdate : Z }.

(** What a run does that can be observed: reads and writes of file
    contents and log records.  [EvCount] is a ghost event that marks a call
    of [prepareAndCountReplacements]. *)
Inductive event : Type :=
| EvRead (path : string)
| EvWrite (path : string) (newContent : string)
| EvCount (path : string)
| EvLog (level : Z) (msg : string).

(** The levels of [logging]. *)
Definition DEBUG : Z := 10.
Definition INFO : Z := 20.
Definition WARNING : Z := 30.
Definition ERROR : Z := 40.

Record state : Type := mkState {
  fs : dict node;                 (* the disk: path -> file *)
  cwd : string;                   (* os.getcwd() *)
  heap : list RhpRpyx;            (* every RhpRpyx instance built so far *)
  indexByAbsPath : dict oid;      (* RhpIndex.indexByAbsPath *)
  strategy : RelativePathReplacementStrategy;
  events : list event }.          (* oldest first *)

Definition set_fs (f : dict node) (s : state) : state :=
  mkState f (cwd s) (heap s) (indexByAbsPath s) (strategy s) (events s).
Definition set_heap (h : list RhpRpyx) (s : state) : state :=
  mkState (fs s) (cwd s) h (indexByAbsPath s) (strategy s) (events s).
Definition set_index (i : dict oid) (s : state) : state :=
  mkState (fs s) (cwd s) (heap s) i (strategy s) (events s).
Definition set_strategy (st : RelativePathReplacementStrategy) (s : state)
  : state :=
  mkState (fs s) (cwd s) (heap s) (indexByAbsPath s) st (events s).
Definition emit (e : event) (s : state) : state :=
  mkState (fs s) (cwd s) (heap s) (indexByAbsPath s) (strategy s)
          (events s ++ [e]).

(** [logging.log(level, msg)] *)
Definition logging_log (level : Z) (msg : string) : state -> state :=
  emit (EvLog level msg).

Definition dummy_rpyx : RhpRpyx := mkRhpRpyx "" false [] [] None.

(** Dereference an object. *)
Definition obj (s : state) (o : oid) : RhpRpyx := nth o (heap s) dummy_rpyx.

Fixpoint list_set {A} (n : nat) (x : A) (l : list A) : list A :=
  match l, n with
  | [], _ => []
  | _ :: l', O => x :: l'
  | y :: l', S n' => y :: list_set n' x l'
  end.

(** Assign to the attributes of an object. *)
Definition set_obj (o : oid) (r : RhpRpyx) (s : state) : state :=
  set_heap (list_set o r (heap s)) s.

(** ** Exceptions *)

(** [IOError] from [open]; [AttributeError] from reading [fileContent]
    before it was set.  [OutOfFuel] is not a Python exception: it is the
    answer of the recursion below when its fuel is used up. *)
Inductive exn : Type :=
| IOError (path : string)
| AttributeError
| OutOfFuel.

Inductive result (A : Type) : Type :=
| Ok (a : A)
| Raise (e : exn).
Arguments Ok {A} a.
Arguments Raise {A} e.

(** Computations that change the state and may raise; the state reached
    when an exception is raised is kept (nothing is rolled back). *)
Definition M (A : Type) : Type := state -> result A * state.

Definition ret {A} (a : A) : M A := fun s => (Ok a, s).
Definition raise {A} (e : exn) : M A := fun s => (Raise e, s).
Definition bind {A B} (m : M A) (k : A -> M B) : M B :=
  fun s => match m s with
           | (Ok a, s') => k a s'
           | (Raise e, s') => (Raise e, s')
           end.
Definition lift (f : state -> state) : M unit := fun s => (Ok tt, f s).

Declare Scope py_scope.
Delimit Scope py_scope with py.
Notation "x <- m ;; k" := (bind m (fun x => k))
  (at level 61, m at next level, right associativity) : py_scope.
Notation "m ;; k" := (bind m (fun _ => k))
  (at level 61, right associativity) : py_scope.

(** [for x in l: body(x)] *)
Fixpoint for_each {A} (l : list A) (body : A -> M unit) : M unit :=
  match l with
  | [] => ret tt
  | x :: l' => bind (body x) (fun _ => for_each l' body)
  end.

Local Open Scope py_scope.

(** ** [class RhpRpyx] *)

Module Rpyx.

(** [RhpRpyx(path)]: builds the instance and returns its identifier. *)
Definition init (path : string) (s : state) : oid * state :=
  let absPath := OsPath.abspath (cwd s) path in
  let exists_ := match dict_get absPath (fs s) with Some _ => true | None => false end in
  (length (heap s),
   set_heap (heap s ++ [mkRhpRpyx absPath exists_ [] [] None]) s).

Definition matchToRpyx (match_ : string) : string :=
  Str.replace1 "_rpy" "" (Str.rstrip "<" (Str.lstrip ">" match_)) ++ ".rpyx".

Definition rpyxToMatch (rpyx : string) : string :=
  ">" ++ Str.replace1 ".rpyx" "" rpyx ++ "_rpy<".

(** [Path(self.absPath).absolute()] is [self.absPath] itself: the path is
    absolute and normalised since the constructor. *)
Definition joinRelativePath (self : RhpRpyx) (relativePath : string) : string :=
  OsPath.normpath (OsPath.join (absPath self) relativePath).

(** One line of the log of [trace], for the link [link] to the object
    [rpyx]. *)
Definition trace_line (s : state) (self : RhpRpyx) (link : string) (rpyx : oid)
  : Z * string :=
  let replacedStr := rpyxToMatch link in
  let newStr := dict_get replacedStr (replacementsDico self) in
  let target_exists := exists_ (obj s rpyx) in
  (if negb target_exists then WARNING
   else match newStr with Some _ => INFO | None => DEBUG end,
   "    " ++ replacedStr
   ++ (if target_exists then " folder exists" else " does not exists")
   ++ match newStr with Some n => " => " ++ n | None => "" end).

Definition trace_lines (s : state) (o : oid) : list (Z * string) :=
  map (fun lr => trace_line s (obj s o) (fst lr) (snd lr))
      (linksDico (obj s o)).

Definition trace (o : oid) (s : state) : state :=
  fold_left (fun s' l => logging_log (fst l) (snd l) s')
            (trace_lines s o)
            (logging_log INFO ("Links of " ++ absPath (obj s o)) s).

(** The dictionary comprehension of [getLinkedRpyx]: one instance is built
    per link string met, a repeated link string keeps the last one. *)
Fixpoint build_links (self : RhpRpyx) (rhpLinksStr : list string)
  (acc : dict oid) (s : state) : dict oid * state :=
  match rhpLinksStr with
  | [] => (acc, s)
  | rhpLink :: rest =>
      let (r, s') :=
        if OsPath.isabs rhpLink then init rhpLink s
        else init (joinRelativePath self rhpLink) s in
      build_links self rest (dict_set rhpLink r acc) s'
  end.

(** The record logged before [IOError] is raised again ends, in the
    script, with the text of the system error, which is left out here.
    A file of these disks is a text ([data]): [read] gives it whenever
    [open] succeeds.  Bytes that do not decode, on which [read] raises
    [UnicodeDecodeError], which [except IOError] does not catch and for
    which nothing is logged, are not represented; nor is the recursion
    limit of the interpreter. *)
Definition getLinkedRpyx (o : oid) : M (dict oid) := fun s =>
  let self := obj s o in
  match dict_get (absPath self) (fs s) with
  | Some f =>
      if readable f then
        let s1 := emit (EvRead (absPath self))
                    (set_obj o (mkRhpRpyx (absPath self) (exists_ self)
                                  (linksDico self) (replacementsDico self)
                                  (Some (data f))) s) in
        let matchs := Re.findall (data f) in
        let rhpLinksStr := map matchToRpyx matchs in
        let (d, s2) := build_links (obj s1 o) rhpLinksStr [] s1 in
        (Ok d, s2)
      else
        (Raise (IOError (absPath self)),
         logging_log ERROR ("Error reading file " ++ absPath self) s)
  | None =>
      (Raise (IOError (absPath self)),
       logging_log ERROR ("Error reading file " ++ absPath self) s)
  end.

Definition linkRpyx (o : oid) (inFilePath : string) (newRpyx : oid)
  (s : state) : state :=
  let self := obj s o in
  set_obj o (mkRhpRpyx (absPath self) (exists_ self)
               (dict_set inFilePath newRpyx (linksDico self))
               (replacementsDico self) (fileContent self)) s.

(** The dictionary comprehension of [prepareReplacements]. *)
Fixpoint build_replacements (cwd_ : string) (self : RhpRpyx)
  (keys : list string) (acc : dict string) : dict string :=
  match keys with
  | [] => acc
  | rhpLink :: rest =>
      if OsPath.isabs rhpLink then
        build_replacements cwd_ self rest
          (dict_set (rpyxToMatch rhpLink)
                    (rpyxToMatch (OsPath.relpath cwd_ rhpLink (absPath self)))
                    acc)
      else build_replacements cwd_ self rest acc
  end.

Definition prepareReplacements (o : oid) (s : state) : state :=
  let self := obj s o in
  set_obj o (mkRhpRpyx (absPath self) (exists_ self) (linksDico self)
               (build_replacements (cwd s) self (dict_keys (linksDico self)) [])
               (fileContent self)) s.

(** The substitutions of [doReplacements], applied one after the other. *)
Definition substitute (content : string) (replacements : dict string) : string :=
  fold_left (fun newContent on => Str.replace (fst on) (snd on) newContent)
            replacements content.

(** [open(path, 'w')] followed by [write]; a path that is not on disk is
    created. *)
Definition write_file (path newContent : string) : M unit := fun s =>
  match dict_get path (fs s) with
  | Some f =>
      if writable f then
        (Ok tt, emit (EvWrite path newContent)
                  (set_fs (dict_set path (mkNode newContent (readable f) (writable f))
                                    (fs s)) s))
      else (Raise (IOError path), s)
  | None =>
      (Ok tt, emit (EvWrite path newContent)
                (set_fs (dict_set path (mkNode newContent true true) (fs s)) s))
  end.

Definition doReplacements (o : oid) : M unit := fun s =>
  let self := obj s o in
  match fileContent self with
  | None => (Raise AttributeError, s)
  | Some content =>
      let newContent := substitute content (replacementsDico self) in
      match write_file (absPath self) newContent s with
      | (Ok tt, s') => (Ok tt, s')
      | (Raise e, s') =>
          (Raise e, logging_log ERROR ("Error writing file " ++ absPath self) s')
      end
  end.

End Rpyx.

(** ** [class RelativePathReplacementStrategy] *)

Module Strategy.

Local Open Scope Z_scope.

(** [RelativePathReplacementStrategy(maxFileToUpdate)] *)
Definition init (maxFileToUpdate : Z) : RelativePathReplacementStrategy :=
  mkStrategy 0 0 0 0 maxFileToUpdate.

Definition prepareAndCountReplacements (o : oid) (s : state) : state :=
  let s1 := Rpyx.prepareReplacements o s in
  let rhpRpyx := obj s1 o in
  let self := strategy s1 in
  let nbReplacement := Z.of_nat (length (replacementsDico rhpRpyx)) in
  emit (EvCount (absPath rhpRpyx))
    (set_strategy
       (mkStrategy
          (linkCount self + Z.of_nat (length (linksDico rhpRpyx)))
          (replacementCount self + nbReplacement)
          (if 1 <=? nbReplacement then fileUpdatedCount self + 1
           else fileUpdatedCount self)
          (updatedFileCount self)
          (maxFileToUpdate self))
       s1).

Definition bump_updatedFileCount (s : state) : state :=
  let self := strategy s in
  set_strategy (mkStrategy (linkCount self) (replacementCount self)
                  (fileUpdatedCount self) (updatedFileCount self + 1)
                  (maxFileToUpdate self)) s.

Definition doReplacements (o : oid) : M unit := fun s =>
  let rhpRpyx := obj s o in
  if negb (exists_ rhpRpyx) then
    (Ok tt, logging_log DEBUG
              ("Ignoring file " ++ absPath rhpRpyx ++ ", as it does not exist") s)
  else
    let replacementCount_ := length (replacementsDico rhpRpyx) in
    if (replacementCount_ =? 0)%nat then
      (Ok tt, logging_log DEBUG
                ("Skipping file " ++ absPath rhpRpyx
                 ++ ", as there is no replacement to do") s)
    else
      ((if updatedFileCount (strategy s) <? maxFileToUpdate (strategy s)
        then Rpyx.doReplacements o else ret tt) ;;
       lift (logging_log DEBUG
               (Str.of_nat replacementCount_ ++ " replacements written in file "
                ++ absPath rhpRpyx)) ;;
       lift bump_updatedFileCount) s.

End Strategy.

(** ** [class RhpIndex] *)

Module Index.

Definition getIndexedRhpyx (absolutePath : string) (s : state) : option oid :=
  let lowerAbsPath := Str.lower absolutePath in
  dict_get lowerAbsPath (indexByAbsPath s).

Definition addIndexedRhpyx (rpyx : oid) (s : state) : state :=
  let lowerAbsPath := Str.lower (absPath (obj s rpyx)) in
  match dict_get lowerAbsPath (indexByAbsPath s) with
  | None =>
      set_index (dict_set lowerAbsPath rpyx (indexByAbsPath s))
        (logging_log DEBUG ("Adding " ++ lowerAbsPath ++ " to index") s)
  | Some _ => s
  end.

End Index.

(** ** [class RhpLinksUpdater] *)

Module Updater.

(** The first loop of [searchLinks]: every link of the file is recorded in
    its [linksDico], new targets are added to the index, and those that
    exist are appended to [listNewRpyxToSearchLinks]. *)
Fixpoint index_links (existingRhpRpyx : oid) (items : dict oid)
  (listNewRpyxToSearchLinks : list oid) (s : state) : list oid * state :=
  match items with
  | [] => (listNewRpyxToSearchLinks, s)
  | (inFileRhpxLink, linkedRpyx) :: rest =>
      let alreadyIndexedRpyx :=
        Index.getIndexedRhpyx (absPath (obj s linkedRpyx)) s in
      match alreadyIndexedRpyx with
      | Some indexed =>
          index_links existingRhpRpyx rest listNewRpyxToSearchLinks
            (Rpyx.linkRpyx existingRhpRpyx inFileRhpxLink indexed s)
      | None =>
          let s1 := Rpyx.linkRpyx existingRhpRpyx inFileRhpxLink linkedRpyx s in
          let s2 := Index.addIndexedRhpyx linkedRpyx s1 in
          index_links existingRhpRpyx rest
            (if exists_ (obj s2 linkedRpyx)
             then listNewRpyxToSearchLinks ++ [linkedRpyx]
             else listNewRpyxToSearchLinks)
            s2
      end
  end.

(** [searchLinks(existingRhpRpyx, maxDepth)].  The recursion of the script
    is bounded here by [fuel], the number of nested calls allowed. *)
Fixpoint searchLinks (fuel : nat) (existingRhpRpyx : oid) (maxDepth : Z)
  : M unit :=
  match fuel with
  | O => raise OutOfFuel
  | S fuel' =>
      linkedRpyxDico <- Rpyx.getLinkedRpyx existingRhpRpyx ;;
      listNewRpyxToSearchLinks <-
        (fun s => let (l, s') := index_links existingRhpRpyx linkedRpyxDico [] s
                  in (Ok l, s')) ;;
      lift (Strategy.prepareAndCountReplacements existingRhpRpyx) ;;
      lift (Rpyx.trace existingRhpRpyx) ;;
      if (maxDepth =? 0)%Z then ret tt
      else for_each listNewRpyxToSearchLinks
             (fun notSearchedRpyx =>
                searchLinks fuel' notSearchedRpyx (maxDepth - 1)%Z)
  end.

(** The body of the first loop of [update], for one path of
    [rpyxPathToProcessList].  The result of [getIndexedRhpyx] is not used
    by the script. *)
Definition process_seed (fuel : nat) (rpyxPathToProcess : string) : M unit :=
  lift (logging_log INFO
          ("Apply 'RelativePathReplacementStrategy' to file "
           ++ rpyxPathToProcess)) ;;
  rhpRpyx <- (fun s => let (o, s') := Rpyx.init rpyxPathToProcess s
                       in (Ok o, s')) ;;
  (fun s =>
     let _ := Index.getIndexedRhpyx (absPath (obj s rhpRpyx)) s in
     if negb (exists_ (obj s rhpRpyx)) then
       (Ok tt, logging_log WARNING
                 (absPath (obj s rhpRpyx) ++ " does not exist") s)
     else searchLinks fuel rhpRpyx (-1)%Z s).

(** The second loop of [update]. *)
Definition apply_all : M unit := fun s =>
  for_each (dict_values (indexByAbsPath s)) Strategy.doReplacements s.

(** [update()], with the configuration list [rpyxPathToProcessList] as a
    parameter. *)
Definition update (fuel : nat) (rpyxPathToProcessList : list string) : M unit :=
  for_each rpyxPathToProcessList (process_seed fuel) ;;
  apply_all.

(** The script's [__main__]: a fresh updater with its strategy, run on the
    disk [disk] from the directory [cwd_]. *)
Definition initial (disk : dict node) (cwd_ : string) (maxFileToUpdate : Z)
  : state :=
  mkState disk cwd_ [] [] (Strategy.init maxFileToUpdate) [].

(** Enough fuel for any run on [disk]: see [searchLinks_fuel]. *)
Definition enough (disk : dict node) : nat := S (length disk).

Definition main (disk : dict node) (cwd_ : string) (maxFileToUpdate : Z)
  (rpyxPathToProcessList : list string) : result unit * state :=
  update (enough disk) rpyxPathToProcessList
         (initial disk cwd_ maxFileToUpdate).

End Updater.

(** ** Observations on a run *)

Definition is_write (e : event) : bool :=
  match e with EvWrite _ _ => true | _ => false end.

(** The paths read, in order. *)
Definition reads (l : list event) : list string :=
  flat_map (fun e => match e with EvRead p => [p] | _ => [] end) l.

(** The paths written, in order. *)
Definition writes (l : list event) : list string :=
  flat_map (fun e => match e with EvWrite p _ => [p] | _ => [] end) l.

(** The content of a file on disk. *)
Definition content_of (p : string) (s : state) : option string :=
  option_map data (dict_get p (fs s)).

Definition plain (content : string) : node := mkNode content true true.

(** ** Vocabulary of the specification *)

(** A reference token built on the identifier [id]. *)
Definition token (id : string) : string := ">" ++ id ++ "_rpy<".

(** The identifiers for which the token codec is claimed to round-trip. *)
Definition plain_id (id : string) : Prop :=
  Str.contains ">" id = false /\ Str.contains "<" id = false /\
  Str.contains "_rpy" id = false /\ Str.contains ".rpyx" id = false.

(** The identity under which the index files an absolute path. *)
Definition identity (p : string) : string := Str.lower p.

(** The path a link string found in the file [self] stands for: what
    [getLinkedRpyx] hands to the constructor, made absolute by it. *)
Definition target_path (cwd_ : string) (self : RhpRpyx) (rhpLink : string)
  : string :=
  OsPath.abspath cwd_
    (if OsPath.isabs rhpLink then rhpLink
     else Rpyx.joinRelativePath self rhpLink).

(** How many times a file of identity [k] was read. *)
Definition nreads (k : string) (l : list event) : nat :=
  length (filter (fun p => String.eqb (identity p) k) (reads l)).

(** ** Scenarios *)

Module Scenario.

Definition nl : string := String Re.newline "".

(** A seed [A] with one absolute reference to [sub/X], which has none. *)
Definition A_content : string :=
  "<unit>" ++ nl ++ "<ref>/proj/sub/X_rpy</ref>" ++ nl ++ "</unit>".
Definition X_content : string := "<unit>" ++ nl ++ "</unit>".
Definition one_link : dict node :=
  [("/proj/A.rpyx", plain A_content); ("/proj/sub/X.rpyx", plain X_content)].

(** [A] refers to [B] and [B] refers to [A]. *)
Definition cycle : dict node :=
  [("/proj/A.rpyx", plain "<ref>/proj/B_rpy</ref>");
   ("/proj/B.rpyx", plain "<ref>/proj/A_rpy</ref>")].

(** Two references, differing in letter case, to a file that is not there. *)
Definition missing_twice : dict node :=
  [("/proj/A.rpyx",
    plain ("<ref>/proj/M_rpy</ref>" ++ nl ++ "<ref>/PROJ/m_rpy</ref>"))].

(** Two reference tokens on one line. *)
Definition two_on_a_line : dict node :=
  [("/proj/A.rpyx", plain "<r>/proj/B_rpy</r><r>/proj/C_rpy</r>");
   ("/proj/B.rpyx", plain ""); ("/proj/C.rpyx", plain "")].

(** A seed with a relative reference to [B], which has an absolute
    reference to [X]. *)
Definition relative_seed : dict node :=
  [("/proj/A.rpyx", plain "<ref>../B_rpy</ref>");
   ("/proj/B.rpyx", plain "<ref>/proj/sub/X_rpy</ref>");
   ("/proj/sub/X.rpyx", plain "")].

(** [A] refers to [B] and to [X]; [B] refers to [X] by a relative path. *)
Definition shared : dict node :=
  [("/proj/A.rpyx",
    plain ("<ref>/proj/B_rpy</ref>" ++ nl ++ "<ref>/proj/X_rpy</ref>"));
   ("/proj/B.rpyx", plain "<ref>../X_rpy</ref>");
   ("/proj/X.rpyx", plain "")].

(** [A] refers to [X], which exists, and to [x], which does not. *)
Definition case_clash : dict node :=
  [("/proj/A.rpyx",
    plain ("<ref>/proj/X_rpy</ref>" ++ nl ++ "<ref>/proj/x_rpy</ref>"));
   ("/proj/X.rpyx", plain "")].

(** The seed [A] refers to [B] and to [C], which both refer back to [A],
    [B] by an absolute path and [C] by a relative one. *)
Definition seed_shared : dict node :=
  [("/proj/A.rpyx",
    plain ("<ref>/proj/B_rpy</ref>" ++ nl ++ "<ref>/proj/C_rpy</ref>"));
   ("/proj/B.rpyx", plain "<ref>/proj/A_rpy</ref>");
   ("/proj/C.rpyx", plain "<ref>../A_rpy</ref>")].

Definition seeds : list string := ["/proj/A.rpyx"].

(** The state in which the traversal of the seeds ends. *)
Definition discovered (disk : dict node) (cap : Z) : state :=
  snd (for_each seeds (Updater.process_seed (Updater.enough disk))
         (Updater.initial disk "/proj" cap)).

End Scenario.

(** ** The traversal, step by step *)

(** What [searchLinks] does for one file before it recurses: the read, the
    indexing loop, the tally and the trace.  The result is
    [listNewRpyxToSearchLinks]. *)
Definition discover (q : oid) : M (list oid) :=
  (linkedRpyxDico <- Rpyx.getLinkedRpyx q ;;
   listNew <- (fun s => let (l, s') :=
                 Updater.index_links q linkedRpyxDico [] s in (Ok l, s')) ;;
   lift (Strategy.prepareAndCountReplacements q) ;;
   lift (Rpyx.trace q) ;;
   ret listNew)%py.

(** [os.path.exists(p)] on the disk of [s]. *)
Definition on_disk (p : string) (s : state) : bool :=
  match dict_get p (fs s) with Some _ => true | None => false end.

(** The link strings of a file content, as [getLinkedRpyx] derives them. *)
Definition links_of (content : string) : list string :=
  map Rpyx.matchToRpyx (Re.findall content).

(** The instance that the constructor builds for the link [rhpLink] of
    [self]. *)
Definition candidate (s : state) (self : RhpRpyx) (rhpLink : string) : RhpRpyx :=
  let p := target_path (cwd s) self rhpLink in
  mkRhpRpyx p (on_disk p s) [] [] None.

(** The files on disk whose identity is not in the index yet: a bound on
    the depth of the recursion still to come. *)
Definition free (s : state) : nat :=
  length (filter (fun p => match dict_get (identity p) (indexByAbsPath s) with
                           | Some _ => false | None => true end)
                 (dict_keys (fs s))).

Definition only_logs (l : list event) : Prop :=
  forall e, In e l -> exists level msg, e = EvLog level msg.

(** An object after its content was loaded. *)
Definition with_content (r : RhpRpyx) (c : string) : RhpRpyx :=
  mkRhpRpyx (absPath r) (exists_ r) (linksDico r) (replacementsDico r) (Some c).

(** Log records left aside, what a run did. *)
Definition is_log (e : event) : bool :=
  match e with EvLog _ _ => true | _ => false end.

Definition strip_logs (l : list event) : list event :=
  filter (fun e => negb (is_log e)) l.

(** Every file read is tallied right after its read. *)
Definition read_then_count (ps : list string) : list event :=
  flat_map (fun p => [EvRead p; EvCount p]) ps.

(** The order of a run: reads, each followed by the tally of the file
    read, then writes only. *)
Definition phases (l : list event) : Prop :=
  exists ps ws,
    strip_logs l = (read_then_count ps ++ ws)%list /\
    forallb is_write ws = true.

(** An object with another link dictionary. *)
Definition with_links (r : RhpRpyx) (l : dict oid) : RhpRpyx :=
  mkRhpRpyx (absPath r) (exists_ r) l (replacementsDico r) (fileContent r).

(** The log record of [addIndexedRhpyx] for a new entry of the index. *)
Definition adding (kv : string * oid) : event :=
  EvLog DEBUG ("Adding " ++ fst kv ++ " to index").

(** Every entry of the index names an object of the heap and is filed
    under the identity of that object. *)
Definition index_keyed (s : state) : Prop :=
  forall k o, dict_get k (indexByAbsPath s) = Some o ->
              (o < length (heap s))%nat /\ k = identity (absPath (obj s o)).

(** An object with another replacement dictionary. *)
Definition with_replacements (r : RhpRpyx) (d : dict string) : RhpRpyx :=
  mkRhpRpyx (absPath r) (exists_ r) (linksDico r) d (fileContent r).

(** An object after [prepareReplacements]. *)
Definition prepared (cwd_ : string) (r : RhpRpyx) : RhpRpyx :=
  with_replacements r
    (Rpyx.build_replacements cwd_ r (dict_keys (linksDico r)) []).

(** The strategy after it tallied the prepared object [r]. *)
Definition tallied (st : RelativePathReplacementStrategy) (r : RhpRpyx)
  : RelativePathReplacementStrategy :=
  mkStrategy
    (linkCount st + Z.of_nat (length (linksDico r)))
    (replacementCount st + Z.of_nat (length (replacementsDico r)))
    (if (1 <=? Z.of_nat (length (replacementsDico r)))%Z
     then (fileUpdatedCount st + 1)%Z else fileUpdatedCount st)
    (updatedFileCount st) (maxFileToUpdate st).

Definition log_line (l : Z * string) : event := EvLog (fst l) (snd l).

(** The state once the file [q], found as [nd] on disk, was read. *)
Definition after_read (q : oid) (nd : node) (s : state) : state :=
  let self1 := with_content (obj s q) (data nd) in
  mkState (fs s) (cwd s)
    (list_set q self1 (heap s)
     ++ map (candidate s self1) (links_of (data nd)))%list
    (indexByAbsPath s) (strategy s)
    (events s ++ [EvRead (absPath (obj s q))])%list.

(** ** Invariants of the traversal *)

Definition sum_over (f : RhpRpyx -> nat) (h : list RhpRpyx) : nat :=
  fold_right (fun r acc => (f r + acc)%nat) 0%nat h.

(** The links and the replacements held by all the objects of the heap. *)
Definition links_held (s : state) : nat :=
  sum_over (fun r => length (linksDico r)) (heap s).
Definition replacements_held (s : state) : nat :=
  sum_over (fun r => length (replacementsDico r)) (heap s).

(** What holds between two steps of the traversal, whatever is still
    queued. *)
Record winv (s : state) : Prop := mkWinv {
  (* the index names objects under their identity *)
  w_index : index_keyed s;
  w_index_nodup : NoDup (dict_keys (indexByAbsPath s));
  (* [exists] tells whether the path is on disk *)
  w_exists : forall o, (o < length (heap s))%nat ->
    exists_ (obj s o) = on_disk (absPath (obj s o)) s;
  (* a link points to the object indexed under the identity of its target *)
  w_links : forall f tok t, (f < length (heap s))%nat ->
    dict_get tok (linksDico (obj s f)) = Some t ->
    dict_get (identity (target_path (cwd s) (obj s f) tok))
             (indexByAbsPath s) = Some t;
  (* an object that was not read has no link and no replacement *)
  w_blank : forall o, (o < length (heap s))%nat ->
    fileContent (obj s o) = None ->
    linksDico (obj s o) = [] /\ replacementsDico (obj s o) = [];
  (* an object that was read holds the content found on disk, the links
     found in it and the replacements prepared from them *)
  w_read : forall o c, (o < length (heap s))%nat ->
    fileContent (obj s o) = Some c ->
    content_of (absPath (obj s o)) s = Some c /\
    (forall tok, In tok (dict_keys (linksDico (obj s o))) -> In tok (links_of c)) /\
    replacementsDico (obj s o)
    = Rpyx.build_replacements (cwd s) (obj s o)
        (dict_keys (linksDico (obj s o))) [];
  (* the totals of the strategy *)
  w_linkCount : linkCount (strategy s) = Z.of_nat (links_held s);
  w_replacementCount :
    replacementCount (strategy s) = Z.of_nat (replacements_held s);
  (* every link was traced *)
  w_traced : forall f tok t, (f < length (heap s))%nat ->
    dict_get tok (linksDico (obj s f)) = Some t ->
    In (log_line (Rpyx.trace_line s (obj s f) tok t)) (events s);
  (* reads and tallies alternate, nothing was written *)
  w_events : strip_logs (events s) = read_then_count (reads (events s));
  (* only files on disk were read *)
  w_reads : forall p, In p (reads (events s)) -> on_disk p s = true
}.

(** What holds of the files still queued, [pending], where [seeds] are the
    identities of the paths of [rpyxPathToProcessList]. *)
Record pinv (seeds : list string) (pending : list oid) (s : state) : Prop :=
  mkPinv {
  (* a queued object is there to be read, and was not read yet *)
  p_fresh : forall q, In q pending ->
    (q < length (heap s))%nat /\ fileContent (obj s q) = None /\
    exists_ (obj s q) = true;
  p_nodup : NoDup pending;
  (* it is a seed or the object that the index holds for its identity *)
  p_indexed : forall q, In q pending ->
    In (identity (absPath (obj s q))) seeds \/
    dict_get (identity (absPath (obj s q))) (indexByAbsPath s) = Some q;
  (* apart from the seeds, a file is read once it is indexed and exists,
     and it is either read or queued *)
  p_reads : forall k, ~ In k seeds ->
    match dict_get k (indexByAbsPath s) with
    | Some o =>
        (nreads k (events s) + count_occ Nat.eq_dec pending o)%nat
        = if exists_ (obj s o) then 1%nat else 0%nat
    | None => nreads k (events s) = 0%nat
    end
}.

(** What the traversal leaves alone: the disk, the working directory and
    the configuration of the strategy; nothing was written yet. *)
Record ainv (disk : dict node) (cwd_ : string) (cap : Z) (s : state) : Prop :=
  mkAinv {
  a_w : winv s;
  a_fs : fs s = disk;
  a_cwd : cwd s = cwd_;
  a_cap : maxFileToUpdate (strategy s) = cap;
  a_upd : updatedFileCount (strategy s) = 0%Z
}.

(** The only exceptions of a run: [open] failed on a file that is on disk
    but cannot be read or written. *)
Definition io_failure (disk : dict node) (e : exn) : Prop :=
  exists p nd, e = IOError p /\ dict_get p disk = Some nd /\
               (readable nd = false \/ writable nd = false).

(** The identities of the paths to process. *)
Definition seed_identities (cwd_ : string) (paths : list string) : list string :=
  map (fun p => identity (OsPath.abspath cwd_ p)) paths.

(** The outcome of a step of the traversal: [I] on the files still queued
    when it ends, [E] when it raises. *)
Definition post (I : list oid -> state -> Prop) (E : exn -> state -> Prop)
  (P : list oid) (rs : result unit * state) : Prop :=
  match rs with
  | (Ok _, s') => I P s'
  | (Raise e, s') => E e s'
  end.

(** The invariant of the traversal, with [n] a bound on [free]. *)
Definition dinv (disk : dict node) (cwd_ : string) (cap : Z)
  (seeds : list string) (n : nat) (P : list oid) (s : state) : Prop :=
  ainv disk cwd_ cap s /\ pinv seeds P s /\ (free s <= n)%nat.

Definition derr (disk : dict node) (cwd_ : string) (cap : Z) (e : exn)
  (s : state) : Prop :=
  ainv disk cwd_ cap s /\ (e = OutOfFuel \/ io_failure disk e).

(** After one path of [rpyxPathToProcessList]: the invariant holds with an
    empty queue, or the run stopped on a file that cannot be read. *)
Definition seed_post (disk : dict node) (cwd_ : string) (cap : Z)
  (seeds : list string) (n : nat) (rs : result unit * state) : Prop :=
  match rs with
  | (Ok _, s') => dinv disk cwd_ cap seeds n [] s'
  | (Raise e, s') => ainv disk cwd_ cap s' /\ io_failure disk e
  end.

(** The state once the constructor built an object of path [p]. *)
Definition alloc (p : string) (s : state) : state :=
  set_heap (heap s ++ [mkRhpRpyx p (on_disk p s) [] [] None])%list s.

(** The state [s] under another cap. *)
Definition with_cap (cap : Z) (s : state) : state :=
  set_strategy
    (mkStrategy (linkCount (strategy s)) (replacementCount (strategy s))
       (fileUpdatedCount (strategy s)) (updatedFileCount (strategy s)) cap)
    s.

(** ** The second loop of [update] *)

(** The state [t] reached by the second loop from the state [sd] in which
    the traversal ended, [l] being the events of the loop so far. *)
Record applied (sd : state) (l : list event) (t : state) : Prop := mkApplied {
  ap_heap : heap t = heap sd;
  ap_index : indexByAbsPath t = indexByAbsPath sd;
  ap_cwd : cwd t = cwd sd;
  ap_linkCount : linkCount (strategy t) = linkCount (strategy sd);
  ap_replacementCount :
    replacementCount (strategy t) = replacementCount (strategy sd);
  ap_fileUpdatedCount :
    fileUpdatedCount (strategy t) = fileUpdatedCount (strategy sd);
  ap_cap : maxFileToUpdate (strategy t) = maxFileToUpdate (strategy sd);
  ap_events : events t = (events sd ++ l)%list;
  (* the loop only logs and writes *)
  ap_kinds : forallb (fun e => is_log e || is_write e) l = true;
  (* the counter of the cap grows from [sd] on and bounds the writes *)
  ap_upd : (updatedFileCount (strategy sd) <= updatedFileCount (strategy t))%Z;
  ap_bound :
    (Z.of_nat (length (writes l))
     <= Z.max 0 (Z.min (updatedFileCount (strategy t))
                       (maxFileToUpdate (strategy sd))
                 - updatedFileCount (strategy sd)))%Z;
  (* only files that were on disk and have replacements are written, the
     others keep their content, and permissions do not change *)
  ap_written : forall p, In p (writes l) ->
    on_disk p sd = true /\
    exists o, (o < length (heap sd))%nat /\ p = absPath (obj sd o) /\
              exists_ (obj sd o) = true /\ replacementsDico (obj sd o) <> [];
  ap_untouched : forall p, ~ In p (writes l) ->
    dict_get p (fs t) = dict_get p (fs sd);
  ap_nodes : forall p,
    option_map (fun n => (readable n, writable n)) (dict_get p (fs t))
    = option_map (fun n => (readable n, writable n)) (dict_get p (fs sd))
}.

(** Every reference of every file of [disk] is relative. *)
Definition all_relative (disk : dict node) : bool :=
  forallb (fun pn => forallb (fun l => negb (OsPath.isabs l))
                             (links_of (data (snd pn))))
          disk.

(** ** The claims that the code does not meet, as they are stated *)

Module Claimed.

(** The scenario of the specification: two files discovered, one
    replacement in [A] whose new token stands for [sub/X.rpyx], [A]
    rewritten with it when the cap is at least 1, [X] unchanged. *)
Definition one_link (cap : Z) : Prop :=
  let s := snd (Updater.main Scenario.one_link "/proj" cap Scenario.seeds) in
  reads (events s) = ["/proj/A.rpyx"; "/proj/sub/X.rpyx"] /\
  (exists old new,
     replacementsDico (obj s 0) = [(old, new)] /\
     Rpyx.matchToRpyx new = "sub/X.rpyx") /\
  ((1 <= cap)%Z ->
   content_of "/proj/A.rpyx" s
   = Some (Rpyx.substitute Scenario.A_content (replacementsDico (obj s 0)))) /\
  content_of "/proj/sub/X.rpyx" s = Some Scenario.X_content.

(** Missing target: a link whose target path is not on disk raises no
    error, is in the index, is neither read nor written, and has a record
    at level [WARNING] in the trace. *)
Definition missing (disk : dict node) (cwd_ : string) (cap : Z)
  (paths : list string) (f : oid) (rhpLink : string) : Prop :=
  let r := fst (Updater.main disk cwd_ cap paths) in
  let s := snd (Updater.main disk cwd_ cap paths) in
  let p := target_path cwd_ (obj s f) rhpLink in
  forall t,
    dict_get rhpLink (linksDico (obj s f)) = Some t ->
    dict_get p disk = None ->
    r = Ok tt /\
    dict_get (identity p) (indexByAbsPath s) <> None /\
    ~ In p (reads (events s)) /\
    (exists msg,
       In (EvLog WARNING msg) (events s) /\
       Str.startswith ("    " ++ Rpyx.rpyxToMatch rhpLink) msg = true) /\
    ~ In p (writes (events s)).

(** Idempotence: a second run, on the files as the first run left them,
    has no replacement. *)
Definition idempotent (disk : dict node) (cwd_ : string) (cap : Z)
  (paths : list string) : Prop :=
  let s1 := snd (Updater.main disk cwd_ cap paths) in
  let s2 := snd (Updater.main (fs s1) cwd_ cap paths) in
  replacementCount (strategy s2) = 0%Z.

End Claimed.

(** ** Vocabulary of the further properties *)

(** A name, as [normpath] leaves the components of a path: not empty,
    neither [.] nor [..], without separator. *)
Definition is_name (c : string) : bool :=
  negb (String.eqb c "") && negb (String.eqb c ".")
  && negb (String.eqb c "..") && negb (Str.contains "/" c).

(** A component of a relative path: a name, [.] or [..]. *)
Definition is_comp (c : string) : bool :=
  negb (String.eqb c "") && negb (Str.contains "/" c).

(** The absolute path of the components [l], after [slashes] slashes. *)
Definition rooted_at (slashes : nat) (l : list string) : string :=
  OsPath.repeat_sep slashes ++ Str.join "/" l.

(** An absolute path that [normpath] roots at one slash: it does not start
    with exactly two. *)
Definition single_root (p : string) : bool :=
  OsPath.isabs p
  && negb (Str.startswith "//" p && negb (Str.startswith "///" p)).

(** The first record that [update] logs for a path to process. *)
Definition applying (path : string) : event :=
  EvLog INFO ("Apply 'RelativePathReplacementStrategy' to file " ++ path)%string.

(** The outcome of a part of the traversal: [J] when it ends, [Jr] when it
    raises, unless it ran out of fuel. *)
Definition along (J Jr : state -> Prop) (rs : result unit * state) : Prop :=
  match rs with
  | (Ok _, s') => J s'
  | (Raise e, s') => e = OutOfFuel \/ Jr s'
  end.

(** [1] for an object that holds replacements. *)
Definition holds_replacements (r : RhpRpyx) : nat :=
  match replacementsDico r with [] => 0 | _ :: _ => 1 end.

(** The number of objects that hold replacements. *)
Definition files_with_replacements (s : state) : nat :=
  sum_over holds_replacements (heap s).

(** The paths of all the objects are absolute and in normal form. *)
Definition paths_normal (s : state) : Prop :=
  forall o, (o < length (heap s))%nat ->
    OsPath.isabs (absPath (obj s o)) = true /\
    OsPath.normpath (absPath (obj s o)) = absPath (obj s o).

(** [fileUpdatedCount] is the number of objects that hold replacements,
    and at most the number of files read. *)
Definition counted (s : state) : Prop :=
  fileUpdatedCount (strategy s) = Z.of_nat (files_with_replacements s) /\
  (fileUpdatedCount (strategy s) <= Z.of_nat (length (reads (events s))))%Z.

(** The object [o] is the target, of identity [k], of a link of an object
    of the heap. *)
Definition linked_from (s : state) (k : string) (o : oid) : Prop :=
  exists f tok,
    (f < length (heap s))%nat /\
    dict_get tok (linksDico (obj s f)) = Some o /\
    identity (target_path (cwd s) (obj s f) tok) = k.

(** Every entry of the index comes from a link. *)
Definition index_linked (s : state) : Prop :=
  forall k o, dict_get k (indexByAbsPath s) = Some o -> linked_from s k o.

(** The objects that the second loop of [update] rewrites when the cap
    lets it. *)
Definition eligible (r : RhpRpyx) : bool :=
  exists_ r && negb (length (replacementsDico r) =? 0)%nat.

(** The content that [RhpRpyx.doReplacements] writes for the object [r],
    which was read. *)
Definition new_content (r : RhpRpyx) : string :=
  Rpyx.substitute (match fileContent r with Some c => c | None => "" end)
                  (replacementsDico r).

(** The write of [RhpRpyx.doReplacements] for the object [r]. *)
Definition rewrite_of (r : RhpRpyx) : event :=
  EvWrite (absPath r) (new_content r).

(** Every link string of the content of an object that was read is a key
    of its [linksDico]. *)
Definition links_kept (s : state) : Prop :=
  forall o c tok, (o < length (heap s))%nat ->
    fileContent (obj s o) = Some c -> In tok (links_of c) ->
    In tok (dict_keys (linksDico (obj s o))).

(** The number of links that [getLinkedRpyx] returns for a file of content
    [c]: its link strings, each counted once. *)
Definition links_in (c : string) : nat :=
  length (nodup string_dec (links_of c)).

(** The number of replacements that [prepareReplacements] stores for a file
    of content [c]: the tokens of its absolute links, each counted once. *)
Definition replacements_in (c : string) : nat :=
  length (nodup string_dec
            (map Rpyx.rpyxToMatch (filter OsPath.isabs (links_of c)))).

(** The sum of [count] over the contents that the reads [ps] found on
    [disk]. *)
Definition over_reads (count : string -> nat) (disk : dict node)
  (ps : list string) : nat :=
  fold_right (fun p acc =>
                (match dict_get p disk with
                 | Some nd => count (data nd)
                 | None => 0
                 end + acc)%nat) 0%nat ps.

(** The totals are those of the files read, read by read. *)
Definition tallied_by_read (disk : dict node) (s : state) : Prop :=
  linkCount (strategy s)
  = Z.of_nat (over_reads links_in disk (reads (events s))) /\
  replacementCount (strategy s)
  = Z.of_nat (over_reads replacements_in disk (reads (events s))).

(** No record at level [ERROR]. *)
Definition no_error (l : list event) : Prop :=
  forall msg, ~ In (EvLog ERROR msg) l.

(** One record at level [ERROR], the last event. *)
Definition ends_in_error (l : list event) : Prop :=
  exists l0 msg, l = (l0 ++ [EvLog ERROR msg])%list /\ no_error l0.




(** * Properties *)

(** ** The token codec *)

Section Codec.

Lemma eqb_char_eq (a b : ascii) : Str.eqb_char a b = true <-> a = b.
Proof. apply Ascii.eqb_eq. Qed.

(** An occurrence of [w] at the start of [id ++ w] is an occurrence at the
    start of [id], or [id] is empty, as soon as [w] has length 4 or 5 and
    none of its proper suffixes is one of its prefixes. *)
Lemma startswith_rpy_append (id : string) :
  id <> "" ->
  Str.startswith "_rpy" (id ++ "_rpy") = Str.startswith "_rpy" id.
Proof.
  intros Hne.
  destruct id as [|c1 [|c2 [|c3 [|c4 rest]]]]; try congruence; simpl;
    repeat match goal with
           | |- context [Str.eqb_char ?a ?b] =>
               destruct (Str.eqb_char a b) eqn:?; simpl
           end; try reflexivity;
    repeat match goal with
           | H : Str.eqb_char _ _ = true |- _ => apply eqb_char_eq in H
           end; subst; discriminate.
Qed.

Lemma startswith_rpyx_append (id : string) :
  id <> "" ->
  Str.startswith ".rpyx" (id ++ ".rpyx") = Str.startswith ".rpyx" id.
Proof.
  intros Hne.
  destruct id as [|c1 [|c2 [|c3 [|c4 [|c5 rest]]]]]; try congruence; simpl;
    repeat match goal with
           | |- context [Str.eqb_char ?a ?b] =>
               destruct (Str.eqb_char a b) eqn:?; simpl
           end; try reflexivity;
    repeat match goal with
           | H : Str.eqb_char _ _ = true |- _ => apply eqb_char_eq in H
           end; subst; discriminate.
Qed.

Lemma replace1_rpy (id : string) :
  Str.contains "_rpy" id = false ->
  Str.replace1 "_rpy" "" (id ++ "_rpy") = id.
Proof.
  induction id as [|c id IH]; intros Hc; [reflexivity|].
  change (Str.contains "_rpy" (String c id))
    with (Str.startswith "_rpy" (String c id) || Str.contains "_rpy" id) in Hc.
  apply orb_false_iff in Hc. destruct Hc as [Hs Hc].
  change (String c id ++ "_rpy") with (String c (id ++ "_rpy")).
  unfold Str.replace1; fold Str.replace1.
  change (String c (id ++ "_rpy")) with (String c id ++ "_rpy") at 1.
  rewrite startswith_rpy_append by discriminate.
  rewrite Hs. now rewrite IH.
Qed.

Lemma replace1_rpyx (id : string) :
  Str.contains ".rpyx" id = false ->
  Str.replace1 ".rpyx" "" (id ++ ".rpyx") = id.
Proof.
  induction id as [|c id IH]; intros Hc; [reflexivity|].
  change (Str.contains ".rpyx" (String c id))
    with (Str.startswith ".rpyx" (String c id) || Str.contains ".rpyx" id) in Hc.
  apply orb_false_iff in Hc. destruct Hc as [Hs Hc].
  change (String c id ++ ".rpyx") with (String c (id ++ ".rpyx")).
  unfold Str.replace1; fold Str.replace1.
  change (String c (id ++ ".rpyx")) with (String c id ++ ".rpyx") at 1.
  rewrite startswith_rpyx_append by discriminate.
  rewrite Hs. now rewrite IH.
Qed.

Lemma rstrip_token (body : string) :
  Str.rstrip "<" (body ++ "_rpy<") = body ++ "_rpy".
Proof.
  induction body as [|b s IH]; [reflexivity|].
  simpl. rewrite IH. destruct s; reflexivity.
Qed.

End Codec.

Lemma matchToRpyx_token (id : string) :
  Str.contains ">" id = false -> Str.contains "_rpy" id = false ->
  Rpyx.matchToRpyx (token id) = id ++ ".rpyx".
Proof.
  intros Hgt Hrpy. unfold Rpyx.matchToRpyx, token.
  change (Str.lstrip ">" (">" ++ id ++ "_rpy<"))
    with (Str.lstrip ">" (id ++ "_rpy<")).
  assert (Hl : Str.lstrip ">" (id ++ "_rpy<") = id ++ "_rpy<").
  { destruct id as [|a id]; [reflexivity|].
    change (Str.lstrip ">" (String a (id ++ "_rpy<")) = String a (id ++ "_rpy<")).
    simpl in Hgt. simpl.
    destruct (Str.eqb_char ">" a) eqn:E; simpl in Hgt; [discriminate|].
    destruct (Str.eqb_char a ">") eqn:E'; [|reflexivity].
    apply eqb_char_eq in E'. subst. vm_compute in E. discriminate. }
  rewrite Hl, rstrip_token, replace1_rpy by assumption. reflexivity.
Qed.

Lemma rpyxToMatch_rpyx (id : string) :
  Str.contains ".rpyx" id = false ->
  Rpyx.rpyxToMatch (id ++ ".rpyx") = token id.
Proof.
  intros H. unfold Rpyx.rpyxToMatch, token. now rewrite replace1_rpyx.
Qed.

Lemma roundtrip_token (id : string) :
  plain_id id -> Rpyx.rpyxToMatch (Rpyx.matchToRpyx (token id)) = token id.
Proof.
  intros (Hgt & _ & Hrpy & Hx).
  rewrite matchToRpyx_token by assumption. now apply rpyxToMatch_rpyx.
Qed.

(** ** Runs of the scenarios *)

Example one_link_run :
  let (r, s) := Updater.main Scenario.one_link "/proj" 1 Scenario.seeds in
  r = Ok tt /\
  reads (events s) = ["/proj/A.rpyx"; "/proj/sub/X.rpyx"] /\
  writes (events s) = [] /\
  indexByAbsPath s = [("/proj/sub/x.rpyx", 1%nat)] /\
  replacementsDico (obj s 0) = [(">/proj/sub/X_rpy<", ">../sub/X_rpy<")] /\
  strategy s = mkStrategy 1 1 1 0 1.
Proof. vm_compute. repeat split. Qed.

Example cycle_run :
  let (r, s) := Updater.main Scenario.cycle "/proj" 5 Scenario.seeds in
  r = Ok tt /\
  reads (events s) = ["/proj/A.rpyx"; "/proj/B.rpyx"; "/proj/A.rpyx"] /\
  writes (events s) = ["/proj/B.rpyx"; "/proj/A.rpyx"] /\
  indexByAbsPath s = [("/proj/b.rpyx", 1%nat); ("/proj/a.rpyx", 2%nat)] /\
  strategy s = mkStrategy 3 3 3 2 5.
Proof. vm_compute. repeat split. Qed.

Example missing_twice_run :
  let (r, s) := Updater.main Scenario.missing_twice "/proj" 5 Scenario.seeds in
  r = Ok tt /\
  reads (events s) = ["/proj/A.rpyx"] /\
  linksDico (obj s 0) = [("/proj/M.rpyx", 1%nat); ("/PROJ/m.rpyx", 1%nat)] /\
  indexByAbsPath s = [("/proj/m.rpyx", 1%nat)] /\
  map absPath (heap s) = ["/proj/A.rpyx"; "/proj/M.rpyx"; "/PROJ/m.rpyx"].
Proof. vm_compute. repeat split. Qed.

Example two_on_a_line_run :
  let (r, s) := Updater.main Scenario.two_on_a_line "/proj" 5 Scenario.seeds in
  r = Ok tt /\
  reads (events s) = ["/proj/A.rpyx"] /\
  dict_keys (linksDico (obj s 0)) = ["/proj/B</r><r>/proj/C_rpy.rpyx"].
Proof. vm_compute. repeat split. Qed.

(** ** Dictionaries and the heap *)

Local Open Scope list_scope.

Section Basics.

Context {V : Type}.

Lemma dict_get_set_same (k : string) (v : V) (d : dict V) :
  dict_get k (dict_set k v d) = Some v.
Proof.
  induction d as [|[k' v'] d IH]; simpl.
  - now rewrite String.eqb_refl.
  - destruct (String.eqb k k') eqn:E; simpl; rewrite E; auto.
Qed.

Lemma dict_get_set_other (k k' : string) (v : V) (d : dict V) :
  k <> k' -> dict_get k' (dict_set k v d) = dict_get k' d.
Proof.
  intros Hne. induction d as [|[k0 v0] d IH]; simpl.
  - destruct (String.eqb k' k) eqn:E; [|reflexivity].
    apply String.eqb_eq in E. congruence.
  - destruct (String.eqb k k0) eqn:E; simpl.
    + apply String.eqb_eq in E. subst k0.
      destruct (String.eqb k' k) eqn:E'; [|reflexivity].
      apply String.eqb_eq in E'. congruence.
    + now rewrite IH.
Qed.

Lemma dict_get_set (k k' : string) (v : V) (d : dict V) :
  dict_get k' (dict_set k v d) = if String.eqb k k' then Some v else dict_get k' d.
Proof.
  destruct (String.eqb k k') eqn:E.
  - apply String.eqb_eq in E. subst. apply dict_get_set_same.
  - apply String.eqb_neq in E. now apply dict_get_set_other.
Qed.

Lemma dict_keys_set (k : string) (v : V) (d : dict V) :
  dict_keys (dict_set k v d)
  = match dict_get k d with
    | Some _ => dict_keys d
    | None => (dict_keys d ++ [k])%list
    end.
Proof.
  induction d as [|[k' v'] d IH]; simpl; [reflexivity|].
  destruct (String.eqb k k') eqn:E; simpl; [reflexivity|].
  change (map fst (dict_set k v d)) with (dict_keys (dict_set k v d)).
  rewrite IH. now destruct (dict_get k d).
Qed.

Lemma dict_get_In (k : string) (v : V) (d : dict V) :
  dict_get k d = Some v -> In (k, v) d.
Proof.
  induction d as [|[k' v'] d IH]; simpl; [discriminate|].
  destruct (String.eqb k k') eqn:E.
  - apply String.eqb_eq in E. intros [= ->]. subst. now left.
  - auto.
Qed.

Lemma dict_get_keys (k : string) (d : dict V) :
  In k (dict_keys d) <-> dict_get k d <> None.
Proof.
  induction d as [|[k' v'] d IH]; simpl; [tauto|].
  destruct (String.eqb k k') eqn:E.
  - apply String.eqb_eq in E. subst. split; [discriminate|auto].
  - apply String.eqb_neq in E. rewrite IH. split; [|auto].
    intros [H|H]; [congruence|assumption].
Qed.

Lemma list_set_length {A} (n : nat) (x : A) (l : list A) :
  length (list_set n x l) = length l.
Proof.
  revert n; induction l as [|y l IH]; intros [|n]; simpl; auto.
Qed.

Lemma nth_list_set_same {A} (n : nat) (x d : A) (l : list A) :
  (n < length l)%nat -> nth n (list_set n x l) d = x.
Proof.
  revert n; induction l as [|y l IH]; intros [|n]; simpl; intros H;
    try lia; auto. apply IH. lia.
Qed.

Lemma nth_list_set_other {A} (n m : nat) (x d : A) (l : list A) :
  n <> m -> nth m (list_set n x l) d = nth m l d.
Proof.
  revert n m; induction l as [|y l IH]; intros [|n] [|m]; simpl; intros H;
    try congruence; auto.
Qed.

End Basics.

Lemma obj_set_obj_same (o : oid) (r : RhpRpyx) (s : state) :
  (o < length (heap s))%nat -> obj (set_obj o r s) o = r.
Proof. intros H. unfold obj, set_obj; simpl. now apply nth_list_set_same. Qed.

Lemma obj_emit (e : event) (s : state) (o : oid) : obj (emit e s) o = obj s o.
Proof. reflexivity. Qed.

(** ** The monad *)

Lemma searchLinks_unfold (fuel : nat) (q : oid) (maxDepth : Z) (s : state) :
  Updater.searchLinks (S fuel) q maxDepth s
  = bind (discover q)
      (fun queue =>
         if (maxDepth =? 0)%Z then ret tt
         else for_each queue
                (fun n => Updater.searchLinks fuel n (maxDepth - 1)%Z)) s.
Proof.
  simpl. unfold discover, bind, lift, ret.
  destruct (Rpyx.getLinkedRpyx q s) as [[d|e] s1]; [|reflexivity].
  destruct (Updater.index_links q d [] s1) as [l s2]. reflexivity.
Qed.

Lemma dict_set_absent {V} (k : string) (v : V) (d : dict V) :
  dict_get k d = None -> dict_set k v d = (d ++ [(k, v)])%list.
Proof.
  induction d as [|[k' v'] d IH]; simpl; [reflexivity|].
  destruct (String.eqb k k'); [discriminate|]. intros H. now rewrite IH.
Qed.

Lemma dict_get_app {V} (k : string) (d1 d2 : dict V) :
  dict_get k (d1 ++ d2)
  = match dict_get k d1 with Some v => Some v | None => dict_get k d2 end.
Proof.
  induction d1 as [|[k' v'] d1 IH]; simpl; [reflexivity|].
  destruct (String.eqb k k'); auto.
Qed.

Lemma dict_In_get {V} (k : string) (v : V) (d : dict V) :
  NoDup (map fst d) -> In (k, v) d -> dict_get k d = Some v.
Proof.
  induction d as [|[k' v'] d IH]; simpl; intros Hnd Hin; [contradiction|].
  inversion Hnd as [|? ? Hni Hnd']; subst.
  destruct Hin as [[= -> ->]|Hin].
  - now rewrite String.eqb_refl.
  - destruct (String.eqb k k') eqn:E; [|auto].
    apply String.eqb_eq in E. subst k'. exfalso. apply Hni.
    change k with (fst (k, v)). now apply in_map.
Qed.

Lemma list_set_twice {A} (n : nat) (x y : A) (l : list A) :
  list_set n x (list_set n y l) = list_set n x l.
Proof.
  revert n; induction l as [|z l IH]; intros [|n]; simpl; auto.
  now rewrite IH.
Qed.

Lemma dict_set_NoDup {V} (k : string) (v : V) (d : dict V) :
  NoDup (dict_keys d) -> NoDup (dict_keys (dict_set k v d)).
Proof.
  intros H. rewrite dict_keys_set. destruct (dict_get k d) eqn:E; [assumption|].
  apply NoDup_app; [assumption | repeat constructor; intros [] |].
  intros x Hx [<-|[]]. apply dict_get_keys in Hx. congruence.
Qed.

(** ** The effect of each step of [searchLinks] *)

Lemma only_logs_nil : only_logs [].
Proof. intros e []. Qed.

Lemma only_logs_app (l1 l2 : list event) :
  only_logs l1 -> only_logs l2 -> only_logs (l1 ++ l2).
Proof. intros H1 H2 e He. apply in_app_or in He. destruct He; auto. Qed.

Lemma only_logs_one (level : Z) (msg : string) : only_logs [EvLog level msg].
Proof. intros e [<-|[]]. eauto. Qed.

Lemma strip_logs_only (l : list event) : only_logs l -> strip_logs l = [].
Proof.
  induction l as [|e l IH]; intros H; [reflexivity|].
  destruct (H e (or_introl eq_refl)) as (lv & m & ->). simpl.
  apply IH. intros e' He'. apply H. now right.
Qed.

Lemma strip_logs_app (l1 l2 : list event) :
  strip_logs (l1 ++ l2) = (strip_logs l1 ++ strip_logs l2)%list.
Proof. apply filter_app. Qed.

Create HintDb logs.
#[local] Hint Resolve only_logs_nil only_logs_app only_logs_one : logs.

(** *** The constructor and the comprehension of [getLinkedRpyx] *)

Lemma init_spec (self : RhpRpyx) (rhpLink : string) (s : state) :
  (if OsPath.isabs rhpLink then Rpyx.init rhpLink s
   else Rpyx.init (Rpyx.joinRelativePath self rhpLink) s)
  = (length (heap s), set_heap (heap s ++ [candidate s self rhpLink]) s).
Proof.
  unfold candidate, target_path, on_disk, Rpyx.init.
  destruct (OsPath.isabs rhpLink); reflexivity.
Qed.

Lemma build_links_spec (self : RhpRpyx) (links : list string) :
  forall (acc : dict oid) (s : state) (d : dict oid) (s' : state),
    Rpyx.build_links self links acc s = (d, s') ->
    s' = set_heap (heap s ++ map (candidate s self) links) s /\
    (forall tok c, dict_get tok d = Some c ->
       dict_get tok acc = Some c \/
       exists i, nth_error links i = Some tok /\ c = (length (heap s) + i)%nat) /\
    (forall tok, In tok (dict_keys d) <-> In tok (dict_keys acc) \/ In tok links) /\
    (NoDup (dict_keys acc) -> NoDup (dict_keys d)).
Proof.
  induction links as [|l links IH]; intros acc s d s' H; simpl in H.
  - injection H as <- <-. simpl. rewrite app_nil_r. destruct s; simpl.
    split; [reflexivity|]. split; [auto |]. split; [tauto | auto].
  - rewrite init_spec in H. apply IH in H. destruct H as (-> & Hd & Hk & Hnd).
    split; [|split; [|split]].
    4:{ intros Ha. apply Hnd. now apply dict_set_NoDup. }
    + unfold set_heap; simpl. rewrite <- app_assoc. reflexivity.
    + intros tok c Hg. destruct (Hd tok c Hg) as [Ha|(i & Hi & ->)].
      * rewrite dict_get_set in Ha. destruct (String.eqb l tok) eqn:E.
        -- apply String.eqb_eq in E. subst tok. injection Ha as <-.
           right. exists 0%nat. split; [reflexivity | lia].
        -- now left.
      * right. exists (S i). split; [assumption|].
        simpl. rewrite length_app. simpl. lia.
    + intros tok. rewrite Hk, dict_keys_set. simpl.
      destruct (dict_get l acc) eqn:E.
      * assert (In l (dict_keys acc)) by (apply dict_get_keys; congruence).
        split; [tauto|]. intros [?|[<-|?]]; tauto.
      * rewrite in_app_iff. simpl. tauto.
Qed.

Lemma getLinkedRpyx_ok (q : oid) (s : state) (d : dict oid) (s1 : state) :
  Rpyx.getLinkedRpyx q s = (Ok d, s1) ->
  (q < length (heap s))%nat ->
  exists nd,
    dict_get (absPath (obj s q)) (fs s) = Some nd /\ readable nd = true /\
    let self1 := with_content (obj s q) (data nd) in
    s1 = mkState (fs s) (cwd s)
           (list_set q self1 (heap s)
            ++ map (candidate s self1) (links_of (data nd)))
           (indexByAbsPath s) (strategy s)
           (events s ++ [EvRead (absPath (obj s q))]) /\
    (forall tok c, dict_get tok d = Some c ->
       exists i, nth_error (links_of (data nd)) i = Some tok /\
                 c = (length (heap s) + i)%nat) /\
    (forall tok, In tok (dict_keys d) <-> In tok (links_of (data nd))) /\
    NoDup (dict_keys d).
Proof.
  unfold Rpyx.getLinkedRpyx. intros H Hq.
  destruct (dict_get (absPath (obj s q)) (fs s)) as [nd|] eqn:Hnd;
    [|discriminate].
  destruct (readable nd) eqn:Hr; [|discriminate].
  match type of H with
  | (let (_, _) := ?b in _) = _ => destruct b as [d' s2] eqn:Hb
  end.
  injection H as <- <-. apply build_links_spec in Hb.
  destruct Hb as (-> & Hd & Hk & Hnodup).
  exists nd. split; [reflexivity|]. split; [assumption|].
  assert (Hself : obj (emit (EvRead (absPath (obj s q)))
                         (set_obj q (with_content (obj s q) (data nd)) s)) q
                  = with_content (obj s q) (data nd)).
  { rewrite obj_emit. now apply obj_set_obj_same. }
  fold (with_content (obj s q) (data nd)) in *. rewrite Hself in *.
  split; [|split; [|split]].
  - reflexivity.
  - intros tok c Hg. destruct (Hd tok c Hg) as [Ha|(i & Hi & ->)];
      [discriminate|].
    exists i. split; [assumption|].
    simpl. now rewrite list_set_length.
  - intros tok. rewrite Hk. simpl. tauto.
  - apply Hnodup. constructor.
Qed.

Lemma getLinkedRpyx_raise (q : oid) (s : state) (e : exn) (s1 : state) :
  Rpyx.getLinkedRpyx q s = (Raise e, s1) ->
  e = IOError (absPath (obj s q)) /\
  s1 = logging_log ERROR ("Error reading file " ++ absPath (obj s q))%string s /\
  match dict_get (absPath (obj s q)) (fs s) with
  | Some nd => readable nd = false
  | None => True
  end.
Proof.
  unfold Rpyx.getLinkedRpyx. intros H.
  destruct (dict_get (absPath (obj s q)) (fs s)) as [nd|] eqn:Hnd.
  - destruct (readable nd) eqn:Hr.
    + match type of H with
      | (let (_, _) := ?b in _) = _ => destruct b as [d' s2]
      end. discriminate.
    + injection H as <- <-. auto.
  - injection H as <- <-. auto.
Qed.

(** *** The indexing loop *)

Lemma linkRpyx_spec (q : oid) (tok : string) (t : oid) (s : state) :
  Rpyx.linkRpyx q tok t s
  = set_heap (list_set q (with_links (obj s q)
                            (dict_set tok t (linksDico (obj s q)))) (heap s)) s.
Proof. reflexivity. Qed.

Lemma absPath_list_set (q o : oid) (r : RhpRpyx) (h : list RhpRpyx) :
  absPath r = absPath (nth q h dummy_rpyx) ->
  absPath (nth o (list_set q r h) dummy_rpyx) = absPath (nth o h dummy_rpyx).
Proof.
  intros Hr. destruct (Nat.eq_dec q o) as [->|Hne].
  - destruct (Nat.lt_ge_cases o (length h)) as [Hlt|Hge].
    + now rewrite nth_list_set_same.
    + rewrite !nth_overflow; [reflexivity | assumption |].
      now rewrite list_set_length.
  - now rewrite nth_list_set_other.
Qed.

Lemma exists_list_set (q o : oid) (r : RhpRpyx) (h : list RhpRpyx) :
  exists_ r = exists_ (nth q h dummy_rpyx) ->
  exists_ (nth o (list_set q r h) dummy_rpyx) = exists_ (nth o h dummy_rpyx).
Proof.
  intros Hr. destruct (Nat.eq_dec q o) as [->|Hne].
  - destruct (Nat.lt_ge_cases o (length h)) as [Hlt|Hge].
    + now rewrite nth_list_set_same.
    + rewrite !nth_overflow; [reflexivity | assumption |].
      now rewrite list_set_length.
  - now rewrite nth_list_set_other.
Qed.

Lemma addIndexedRhpyx_new (c : oid) (s : state) (k : string) :
  k = identity (absPath (obj s c)) ->
  dict_get k (indexByAbsPath s) = None ->
  Index.addIndexedRhpyx c s
  = mkState (fs s) (cwd s) (heap s) (indexByAbsPath s ++ [(k, c)])
            (strategy s) (events s ++ [adding (k, c)]).
Proof.
  intros -> Hn. unfold Index.addIndexedRhpyx.
  fold (identity (absPath (obj s c))). rewrite Hn.
  unfold set_index, logging_log, emit; simpl.
  now rewrite dict_set_absent.
Qed.

Lemma index_links_spec (q : oid) (items : dict oid) :
  forall (queue0 : list oid) (s : state) (queue : list oid) (s' : state),
    Updater.index_links q items queue0 s = (queue, s') ->
    (q < length (heap s))%nat ->
    exists (L' : dict oid) (news : dict oid),
      s' = mkState (fs s) (cwd s)
             (list_set q (with_links (obj s q) L') (heap s))
             (indexByAbsPath s ++ news) (strategy s)
             (events s ++ map adding news) /\
      queue = (queue0
               ++ map snd (filter (fun kv => exists_ (obj s (snd kv))) news))%list /\
      (forall k o, In (k, o) news ->
         dict_get k (indexByAbsPath s) = None /\
         k = identity (absPath (obj s o)) /\
         exists tok, In (tok, o) items) /\
      NoDup (map fst news) /\
      (forall tok t, dict_get tok L' = Some t ->
         dict_get tok (linksDico (obj s q)) = Some t \/
         exists c, In (tok, c) items /\
                   dict_get (identity (absPath (obj s c)))
                            (indexByAbsPath s ++ news) = Some t) /\
      (forall tok, In tok (dict_keys L') <->
                   In tok (dict_keys (linksDico (obj s q))) \/
                   In tok (dict_keys items)).
Proof.
  induction items as [|[tok c] items IH]; intros queue0 s queue s' H Hq.
  - simpl in H. injection H as <- <-.
    exists (linksDico (obj s q)), []. simpl. rewrite !app_nil_r.
    split.
    { destruct s as [f w h i st ev]. unfold obj, with_links; simpl. f_equal.
      revert q Hq. simpl.
      induction h as [|r h IHh]; intros [|q] Hq; simpl in *; try lia.
      - now destruct r.
      - f_equal. apply IHh. lia. }
    split; [reflexivity|]. split; [intros k o []|].
    split; [constructor|]. split; [auto | tauto].
  - simpl in H. unfold Index.getIndexedRhpyx in H.
    fold (identity (absPath (obj s c))) in H.
    destruct (dict_get (identity (absPath (obj s c))) (indexByAbsPath s))
      as [t|] eqn:Hlook.
    + (* already indexed *)
      apply IH in H.
      2:{ rewrite linkRpyx_spec. simpl. now rewrite list_set_length. }
      destruct H as (L' & news & -> & -> & Hnews & Hnd & Hl & Hk).
      rewrite linkRpyx_spec in *. simpl in *.
      assert (Hoq : obj (set_heap (list_set q
                      (with_links (obj s q)
                         (dict_set tok t (linksDico (obj s q)))) (heap s)) s) q
                    = with_links (obj s q) (dict_set tok t (linksDico (obj s q)))).
      { unfold obj; simpl. now apply nth_list_set_same. }
      assert (Hap : forall o, absPath (obj (set_heap (list_set q
                      (with_links (obj s q)
                         (dict_set tok t (linksDico (obj s q)))) (heap s)) s) o)
                    = absPath (obj s o)).
      { intros o. unfold obj; simpl. now rewrite absPath_list_set. }
      assert (Hex : forall o, exists_ (obj (set_heap (list_set q
                      (with_links (obj s q)
                         (dict_set tok t (linksDico (obj s q)))) (heap s)) s) o)
                    = exists_ (obj s o)).
      { intros o. unfold obj; simpl. now rewrite exists_list_set. }
      rewrite Hoq in *.
      exists L', news. split; [|split; [|split; [|split; [|split]]]].
      * rewrite list_set_twice. reflexivity.
      * f_equal. f_equal. apply filter_ext. intros kv. apply Hex.
      * intros k o Hin. destruct (Hnews k o Hin) as (Ha & Hb & tok' & Hc).
        rewrite Hap in Hb. eauto 6.
      * assumption.
      * intros tok' t' Hg. destruct (Hl tok' t' Hg) as [Hold|(c' & Hin & Hidx)].
        -- simpl in Hold. rewrite dict_get_set in Hold.
           destruct (String.eqb tok tok') eqn:E.
           ++ apply String.eqb_eq in E. subst tok'. injection Hold as <-.
              right. exists c. split; [now left|].
              rewrite dict_get_app, Hlook. reflexivity.
           ++ now left.
        -- right. exists c'. rewrite Hap in Hidx. auto.
      * intros tok'. rewrite Hk. simpl. rewrite dict_keys_set.
        destruct (dict_get tok (linksDico (obj s q))) eqn:E.
        -- assert (In tok (dict_keys (linksDico (obj s q))))
             by (apply dict_get_keys; congruence).
           split; [tauto|]. intros [?|[<-|?]]; tauto.
        -- rewrite in_app_iff. simpl. tauto.
    + (* a new target *)
      assert (Hadd : Index.addIndexedRhpyx c (Rpyx.linkRpyx q tok c s)
                     = mkState (fs s) (cwd s)
                         (list_set q (with_links (obj s q)
                            (dict_set tok c (linksDico (obj s q)))) (heap s))
                         (indexByAbsPath s ++ [(identity (absPath (obj s c)), c)])
                         (strategy s)
                         (events s ++ [adding (identity (absPath (obj s c)), c)])).
      { rewrite (addIndexedRhpyx_new c _ (identity (absPath (obj s c)))).
        - reflexivity.
        - rewrite linkRpyx_spec. unfold obj; simpl.
          now rewrite absPath_list_set.
        - exact Hlook. }
      rewrite Hadd in H. clear Hadd.
      set (s2 := mkState (fs s) (cwd s)
                   (list_set q (with_links (obj s q)
                      (dict_set tok c (linksDico (obj s q)))) (heap s))
                   (indexByAbsPath s ++ [(identity (absPath (obj s c)), c)])
                   (strategy s)
                   (events s ++ [adding (identity (absPath (obj s c)), c)])) in *.
      assert (Hoq : obj s2 q
                    = with_links (obj s q) (dict_set tok c (linksDico (obj s q)))).
      { unfold obj, s2; simpl. now apply nth_list_set_same. }
      assert (Hap : forall o, absPath (obj s2 o) = absPath (obj s o)).
      { intros o. unfold obj, s2; simpl. now rewrite absPath_list_set. }
      assert (Hex : forall o, exists_ (obj s2 o) = exists_ (obj s o)).
      { intros o. unfold obj, s2; simpl. now rewrite exists_list_set. }
      apply IH in H.
      2:{ unfold s2; simpl. now rewrite list_set_length. }
      destruct H as (L' & news & -> & -> & Hnews & Hnd & Hl & Hk).
      rewrite Hoq in *.
      exists L', ((identity (absPath (obj s c)), c) :: news).
      split; [|split; [|split; [|split; [|split]]]].
      * unfold s2; simpl. rewrite list_set_twice, <- !app_assoc. reflexivity.
      * simpl. rewrite Hex.
        rewrite (filter_ext (fun kv => exists_ (obj s2 (snd kv)))
                            (fun kv => exists_ (obj s (snd kv))))
          by (intros kv; apply Hex).
        destruct (exists_ (obj s c)); simpl; [|reflexivity].
        now rewrite <- app_assoc.
      * intros k o [[= <- <-]|Hin].
        -- split; [assumption|]. split; [reflexivity|].
           exists tok. now left.
        -- destruct (Hnews k o Hin) as (Ha & Hb & tok' & Hc).
           rewrite Hap in Hb. unfold s2 in Ha; simpl in Ha.
           rewrite dict_get_app in Ha.
           destruct (dict_get k (indexByAbsPath s)); [discriminate|].
           split; [reflexivity|]. split; [assumption|].
           exists tok'. now right.
      * simpl. constructor; [|assumption].
        intros Hin. apply in_map_iff in Hin. destruct Hin as ([k o] & Hk' & Hin).
        simpl in Hk'. subst k. destruct (Hnews _ _ Hin) as (Ha & _).
        unfold s2 in Ha; simpl in Ha. rewrite dict_get_app, Hlook in Ha.
        simpl in Ha. rewrite String.eqb_refl in Ha. discriminate.
      * intros tok' t' Hg. destruct (Hl tok' t' Hg) as [Hold|(c' & Hin & Hidx)].
        -- simpl in Hold. rewrite dict_get_set in Hold.
           destruct (String.eqb tok tok') eqn:E.
           ++ apply String.eqb_eq in E. subst tok'. injection Hold as <-.
              right. exists c. split; [now left|].
              rewrite dict_get_app, Hlook. simpl.
              now rewrite String.eqb_refl.
           ++ now left.
        -- right. exists c'. rewrite Hap in Hidx. split; [now right|].
           unfold s2 in Hidx; simpl in Hidx.
           rewrite <- app_assoc in Hidx. exact Hidx.
      * intros tok'. rewrite Hk. simpl. rewrite dict_keys_set.
        destruct (dict_get tok (linksDico (obj s q))) eqn:E.
        -- assert (In tok (dict_keys (linksDico (obj s q))))
             by (apply dict_get_keys; congruence).
           split; [tauto|]. intros [?|[<-|?]]; tauto.
        -- rewrite in_app_iff. simpl. tauto.
Qed.

(** *** The tally and the trace *)

Lemma prepareAndCountReplacements_spec (q : oid) (s : state) :
  (q < length (heap s))%nat ->
  Strategy.prepareAndCountReplacements q s
  = mkState (fs s) (cwd s)
      (list_set q (prepared (cwd s) (obj s q)) (heap s))
      (indexByAbsPath s)
      (tallied (strategy s) (prepared (cwd s) (obj s q)))
      (events s ++ [EvCount (absPath (obj s q))]).
Proof.
  intros Hq. unfold Strategy.prepareAndCountReplacements.
  assert (H : obj (Rpyx.prepareReplacements q s) q = prepared (cwd s) (obj s q)).
  { unfold Rpyx.prepareReplacements. now rewrite obj_set_obj_same. }
  rewrite H. reflexivity.
Qed.

Lemma fold_logging (ls : list (Z * string)) (s : state) :
  fold_left (fun s' l => logging_log (fst l) (snd l) s') ls s
  = mkState (fs s) (cwd s) (heap s) (indexByAbsPath s) (strategy s)
            (events s ++ map log_line ls).
Proof.
  revert s; induction ls as [|l ls IH]; intros s; simpl.
  - rewrite app_nil_r. now destruct s.
  - rewrite IH. simpl. now rewrite <- app_assoc.
Qed.

Lemma trace_spec (q : oid) (s : state) :
  Rpyx.trace q s
  = mkState (fs s) (cwd s) (heap s) (indexByAbsPath s) (strategy s)
      (events s
       ++ EvLog INFO ("Links of " ++ absPath (obj s q))%string
       :: map log_line (Rpyx.trace_lines s q)).
Proof.
  unfold Rpyx.trace. rewrite fold_logging. simpl.
  now rewrite <- app_assoc.
Qed.

Lemma list_set_app {A} (n : nat) (x : A) (l1 l2 : list A) :
  (n < length l1)%nat -> list_set n x (l1 ++ l2) = list_set n x l1 ++ l2.
Proof.
  revert n; induction l1 as [|y l1 IH]; intros [|n]; simpl; intros H;
    try lia; auto. f_equal. apply IH. lia.
Qed.

(** *** The whole step *)

Lemma discover_raise (q : oid) (s : state) (e : exn) (s' : state) :
  discover q s = (Raise e, s') ->
  e = IOError (absPath (obj s q)) /\
  s' = logging_log ERROR ("Error reading file " ++ absPath (obj s q))%string s /\
  match dict_get (absPath (obj s q)) (fs s) with
  | Some nd => readable nd = false
  | None => True
  end.
Proof.
  unfold discover, bind, lift, ret. intros H.
  destruct (Rpyx.getLinkedRpyx q s) as [[d|e'] s1] eqn:Hg.
  - destruct (Updater.index_links q d [] s1) as [l s2]. discriminate.
  - injection H as <- <-. now apply getLinkedRpyx_raise.
Qed.

Lemma discover_ok (q : oid) (s : state) (queue : list oid) (s3 : state) :
  discover q s = (Ok queue, s3) ->
  (q < length (heap s))%nat ->
  exists nd L' news,
    (dict_get (absPath (obj s q)) (fs s) = Some nd /\ readable nd = true) /\
    s3 = mkState (fs s) (cwd s)
           (list_set q (prepared (cwd s)
                          (with_links (with_content (obj s q) (data nd)) L'))
              (heap (after_read q nd s)))
           (indexByAbsPath s ++ news)
           (tallied (strategy s)
              (prepared (cwd s)
                 (with_links (with_content (obj s q) (data nd)) L')))
           (events s ++ EvRead (absPath (obj s q)) :: map adding news
            ++ EvCount (absPath (obj s q))
            :: EvLog INFO ("Links of " ++ absPath (obj s q))%string
            :: map log_line (Rpyx.trace_lines s3 q)) /\
    queue = map snd (filter (fun kv => exists_ (obj s3 (snd kv))) news) /\
    (forall k o, In (k, o) news ->
       dict_get k (indexByAbsPath s) = None /\
       k = identity (absPath (obj s3 o)) /\
       (length (heap s) <= o < length (heap s3))%nat) /\
    NoDup (map fst news) /\
    (forall tok t, dict_get tok L' = Some t ->
       dict_get tok (linksDico (obj s q)) = Some t \/
       In tok (links_of (data nd)) /\
       dict_get (identity (target_path (cwd s) (obj s q) tok))
                (indexByAbsPath s ++ news) = Some t) /\
    (forall tok, In tok (dict_keys L') <->
                 In tok (dict_keys (linksDico (obj s q))) \/
                 In tok (links_of (data nd))) /\
    length (heap s3) = (length (heap s) + length (links_of (data nd)))%nat /\
    (forall o, (o < length (heap s))%nat -> o <> q -> obj s3 o = obj s o) /\
    (forall o, (length (heap s) <= o < length (heap s3))%nat ->
       exists tok, In tok (links_of (data nd)) /\
                   obj s3 o = candidate s (obj s q) tok) /\
    obj s3 q = prepared (cwd s)
                 (with_links (with_content (obj s q) (data nd)) L').
Proof.
  unfold discover, bind, lift, ret. intros H Hq.
  destruct (Rpyx.getLinkedRpyx q s) as [[d|e'] s1] eqn:Hg; [|discriminate].
  destruct (Updater.index_links q d [] s1) as [l s2] eqn:Hi.
  injection H as <- <-.
  apply getLinkedRpyx_ok in Hg; [|assumption].
  destruct Hg as (nd & Hnd & Hr & Hs1 & Hd & Hdk & Hdn).
  fold (after_read q nd s) in Hs1. subst s1.
  set (s1 := after_read q nd s) in *.
  set (links := links_of (data nd)) in *.
  set (self1 := with_content (obj s q) (data nd)).
  assert (Hh1 : heap s1 = list_set q self1 (heap s) ++ map (candidate s self1) links)
    by reflexivity.
  assert (Hlen1 : length (heap s1) = (length (heap s) + length links)%nat).
  { rewrite Hh1. now rewrite length_app, list_set_length, length_map. }
  assert (Hq1 : (q < length (heap s1))%nat) by lia.
  assert (Hoq1 : obj s1 q = self1).
  { unfold obj. rewrite Hh1, app_nth1 by now rewrite list_set_length.
    now apply nth_list_set_same. }
  assert (Hold1 : forall o, (o < length (heap s))%nat -> o <> q ->
                            obj s1 o = obj s o).
  { intros o Ho Hne. unfold obj. rewrite Hh1, app_nth1 by now rewrite list_set_length.
    now apply nth_list_set_other. }
  assert (Hnew1 : forall i tok, nth_error links i = Some tok ->
                    obj s1 (length (heap s) + i) = candidate s (obj s q) tok).
  { intros i tok Hi'. unfold obj. rewrite Hh1, app_nth2;
      rewrite list_set_length; [|lia].
    replace (length (heap s) + i - length (heap s))%nat with i by lia.
    erewrite nth_indep by (rewrite length_map; apply nth_error_Some; congruence).
    erewrite map_nth. apply nth_error_nth with (d := ""%string) in Hi'.
    rewrite Hi'. reflexivity. }
  apply index_links_spec in Hi; [|assumption].
  destruct Hi as (L' & news & Hs2 & Hqueue & Hnews & Hnodup & Hl & Hk).
  rewrite Hoq1 in *. simpl in Hqueue.
  set (self3 := prepared (cwd s) (with_links self1 L')).
  assert (Hq2 : (q < length (heap s2))%nat).
  { rewrite Hs2; simpl. now rewrite list_set_length. }
  assert (Hoq2 : obj s2 q = with_links self1 L').
  { rewrite Hs2. unfold obj; simpl. now apply nth_list_set_same. }
  rewrite trace_spec, prepareAndCountReplacements_spec by assumption.
  rewrite Hoq2. simpl.
  assert (Hcwd2 : cwd s2 = cwd s) by (rewrite Hs2; reflexivity).
  rewrite Hcwd2. fold self3.
  assert (Hheap3 : list_set q self3 (heap s2) = list_set q self3 (heap s1)).
  { rewrite Hs2; simpl. apply list_set_twice. }
  rewrite Hheap3.
  set (s3 := mkState _ _ _ _ _ _).
  assert (Hh3 : heap s3 = list_set q self3 (heap s1)) by reflexivity.
  assert (Hlen3 : length (heap s3) = length (heap s1))
    by (rewrite Hh3; apply list_set_length).
  assert (Hoq3 : obj s3 q = self3).
  { unfold obj. rewrite Hh3. now apply nth_list_set_same. }
  assert (Hoth3 : forall o, o <> q -> obj s3 o = obj s1 o).
  { intros o Hne. unfold obj. rewrite Hh3. now apply nth_list_set_other. }
  assert (Hap3 : forall o, absPath (obj s3 o) = absPath (obj s1 o)).
  { intros o. unfold obj. rewrite Hh3. apply absPath_list_set.
    fold (obj s1 q). now rewrite Hoq1. }
  assert (Hex3 : forall o, exists_ (obj s3 o) = exists_ (obj s1 o)).
  { intros o. unfold obj. rewrite Hh3. apply exists_list_set.
    fold (obj s1 q). now rewrite Hoq1. }
  assert (Hitem : forall tok c, In (tok, c) d ->
            In tok links /\ (length (heap s) <= c < length (heap s1))%nat /\
            obj s1 c = candidate s (obj s q) tok).
  { intros tok c Hin. apply dict_In_get in Hin; [|exact Hdn].
    destruct (Hd tok c Hin) as (i & Hi' & ->).
    assert (i < length links)%nat by (apply nth_error_Some; congruence).
    split; [eapply nth_error_In; eassumption|]. split; [lia|].
    now apply Hnew1. }
  exists nd, L', news. subst links.
  split; [now split|]. split.
  { assert (Hobj : forall st, heap st = heap s3 ->
                       absPath (obj st q) = absPath (obj s q)).
    { intros st He. unfold obj. rewrite He. fold (obj s3 q). now rewrite Hoq3. }
    assert (Htl : forall st, heap st = heap s3 ->
                      Rpyx.trace_lines st q = Rpyx.trace_lines s3 q).
    { intros st He. unfold Rpyx.trace_lines, Rpyx.trace_line, obj.
      now rewrite He. }
    unfold s3 at 1. rewrite Hs2.
    cbn [fs cwd heap indexByAbsPath strategy events].
    f_equal. rewrite <- !app_assoc. cbn [app].
    unfold s1 at 1, after_read. cbn [events]. rewrite <- !app_assoc. cbn [app].
    do 4 f_equal.
    match goal with
    | |- context [obj ?st q] => rewrite (Hobj st eq_refl)
    end. reflexivity. }
  split.
  { subst l. f_equal. apply filter_ext. intros kv. now rewrite Hex3. }
  split.
  { intros k o Hin. destruct (Hnews k o Hin) as (Ha & Hb & tok & Hc).
    split; [exact Ha|]. split; [now rewrite Hap3|].
    apply Hitem in Hc. cbn [heap]. rewrite list_set_length. lia. }
  split; [assumption|]. split.
  { intros tok t Hg. destruct (Hl tok t Hg) as [Ho|(c & Hin & Hidx)].
    - left. exact Ho.
    - right. destruct (Hitem _ _ Hin) as (Hin' & _ & Hc).
      split; [assumption|]. rewrite Hc in Hidx. exact Hidx. }
  split.
  { intros tok. rewrite Hk. rewrite Hdk. reflexivity. }
  split; [cbn [heap]; rewrite list_set_length; lia|]. split.
  { intros o Ho Hne. rewrite Hoth3 by assumption. now apply Hold1. }
  split; [|assumption].
  intros o Ho. cbn [heap] in Ho. rewrite list_set_length in Ho.
  rewrite Hoth3 by lia.
  assert (Hex : exists i, o = (length (heap s) + i)%nat /\
                          (i < length (links_of (data nd)))%nat).
  { exists (o - length (heap s))%nat. lia. }
  destruct Hex as (i & -> & Hi').
  destruct (nth_error (links_of (data nd)) i) as [tok|] eqn:E;
    [|apply nth_error_None in E; lia].
  exists tok. split; [eapply nth_error_In; eassumption | now apply Hnew1].
Qed.

(** ** A proof rule for the recursion *)

Section Rule.

Variable I : list oid -> state -> Prop.
Variable E : exn -> state -> Prop.

Hypothesis step_ok : forall q P s queue s',
  I (q :: P) s -> discover q s = (Ok queue, s') -> I (queue ++ P) s'.
Hypothesis step_raise : forall q P s e s',
  I (q :: P) s -> discover q s = (Raise e, s') -> E e s'.
Hypothesis starved : forall q P s, I (q :: P) s -> E OutOfFuel s.

Lemma for_each_rule (body : oid -> M unit) (queue : list oid) :
  (forall q P s, I (q :: P) s -> post I E P (body q s)) ->
  forall P s, I (queue ++ P) s -> post I E P (for_each queue body s).
Proof.
  intros Hbody. induction queue as [|q queue IH]; intros P s HI; simpl.
  - exact HI.
  - unfold bind. specialize (Hbody q (queue ++ P) s HI).
    destruct (body q s) as [[[]|e] s1]; simpl in Hbody.
    + now apply IH.
    + exact Hbody.
Qed.

Lemma searchLinks_rule (fuel : nat) :
  forall q P maxDepth s,
    (maxDepth < 0)%Z -> I (q :: P) s ->
    post I E P (Updater.searchLinks fuel q maxDepth s).
Proof.
  induction fuel as [|fuel IH]; intros q P maxDepth s Hd HI.
  - simpl. unfold raise, post. eapply starved; eassumption.
  - rewrite searchLinks_unfold. unfold bind.
    destruct (discover q s) as [[queue|e] s1] eqn:Hdisc.
    + destruct (Z.eqb_spec maxDepth 0) as [->|_]; [lia|].
      apply for_each_rule.
      * intros q' P' s' HI'. apply IH; [lia | assumption].
      * eapply step_ok; eassumption.
    + simpl. eapply step_raise; eassumption.
Qed.

End Rule.

(** ** The invariants are kept *)

Lemma reads_app (l1 l2 : list event) : reads (l1 ++ l2) = reads l1 ++ reads l2.
Proof. apply flat_map_app. Qed.

Lemma writes_app (l1 l2 : list event) :
  writes (l1 ++ l2) = writes l1 ++ writes l2.
Proof. apply flat_map_app. Qed.

Lemma reads_only_logs (l : list event) : only_logs l -> reads l = [].
Proof.
  induction l as [|e l IH]; intros H; [reflexivity|].
  destruct (H e (or_introl eq_refl)) as (lv & m & ->). simpl.
  apply IH. intros e' He'. apply H. now right.
Qed.

Lemma only_logs_adding (news : dict oid) : only_logs (map adding news).
Proof.
  intros e He. apply in_map_iff in He. destruct He as (kv & <- & _).
  unfold adding. eauto.
Qed.

Lemma only_logs_lines (ls : list (Z * string)) : only_logs (map log_line ls).
Proof.
  intros e He. apply in_map_iff in He. destruct He as (kv & <- & _).
  unfold log_line. eauto.
Qed.

#[local] Hint Resolve only_logs_adding only_logs_lines : logs.

Lemma read_then_count_app (l1 l2 : list string) :
  read_then_count (l1 ++ l2) = read_then_count l1 ++ read_then_count l2.
Proof. apply flat_map_app. Qed.

Lemma sum_over_app (f : RhpRpyx -> nat) (h1 h2 : list RhpRpyx) :
  sum_over f (h1 ++ h2) = (sum_over f h1 + sum_over f h2)%nat.
Proof. induction h1 as [|r h1 IH]; simpl; [reflexivity | rewrite IH; lia]. Qed.

Lemma sum_over_list_set (f : RhpRpyx -> nat) (q : nat) (x : RhpRpyx)
  (h : list RhpRpyx) :
  (q < length h)%nat ->
  (sum_over f (list_set q x h) + f (nth q h dummy_rpyx))%nat
  = (sum_over f h + f x)%nat.
Proof.
  revert q; induction h as [|r h IH]; intros [|q] Hq; simpl in *; try lia.
  specialize (IH q). lia.
Qed.

Lemma sum_over_zero (f : RhpRpyx -> nat) (h : list RhpRpyx) :
  (forall r, In r h -> f r = 0%nat) -> sum_over f h = 0%nat.
Proof.
  induction h as [|r h IH]; intros H; simpl; [reflexivity|].
  rewrite (H r) by now left. apply IH. intros r' Hr'. apply H. now right.
Qed.

Lemma target_path_absPath (c : string) (r r' : RhpRpyx) (tok : string) :
  absPath r = absPath r' -> target_path c r tok = target_path c r' tok.
Proof.
  intros H. unfold target_path, Rpyx.joinRelativePath. now rewrite H.
Qed.

Lemma build_replacements_absPath (c : string) (r r' : RhpRpyx)
  (keys : list string) (acc : dict string) :
  absPath r = absPath r' ->
  Rpyx.build_replacements c r keys acc = Rpyx.build_replacements c r' keys acc.
Proof.
  intros H. revert acc. induction keys as [|k keys IH]; intros acc; simpl;
    [reflexivity|].
  rewrite H. destruct (OsPath.isabs k); apply IH.
Qed.

(** A state that differs by its log only. *)
Lemma winv_log (level : Z) (msg : string) (s : state) :
  winv s -> winv (logging_log level msg s).
Proof.
  intros [W1 W1' W2 W3 W4 W5 W6 W7 W8 W9 W10].
  constructor; try assumption.
  - intros f tok t Hf Hg. simpl. apply in_or_app. left. now apply W8.
  - simpl. rewrite strip_logs_app, reads_app. simpl.
    now rewrite !app_nil_r.
  - simpl. intros p Hp. rewrite reads_app in Hp. simpl in Hp.
    rewrite app_nil_r in Hp. now apply W10.
Qed.

Lemma candidate_blank (s : state) (r : RhpRpyx) (tok : string) :
  linksDico (candidate s r tok) = [] /\
  replacementsDico (candidate s r tok) = [] /\
  fileContent (candidate s r tok) = None /\
  exists_ (candidate s r tok) = on_disk (absPath (candidate s r tok)) s.
Proof. unfold candidate. simpl. auto. Qed.

Lemma on_disk_fs (p : string) (s s' : state) :
  fs s' = fs s -> on_disk p s' = on_disk p s.
Proof. intros H. unfold on_disk. now rewrite H. Qed.

Lemma trace_line_frame (s s' : state) (r : RhpRpyx) (tok : string) (t : oid) :
  exists_ (obj s' t) = exists_ (obj s t) ->
  Rpyx.trace_line s' r tok t = Rpyx.trace_line s r tok t.
Proof. intros H. unfold Rpyx.trace_line. now rewrite H. Qed.

Lemma winv_discover (q : oid) (s : state) (queue : list oid) (s3 : state) :
  winv s ->
  (q < length (heap s))%nat ->
  fileContent (obj s q) = None ->
  discover q s = (Ok queue, s3) ->
  winv s3.
Proof.
  intros W Hq Hnone Hdisc.
  destruct (discover_ok _ _ _ _ Hdisc Hq)
    as (nd & L' & news & (Hnd & Hr) & Hs3 & Hqueue & Hnews & Hnodup & Hl & Hk
        & Hlen & Hold & Hnew & Hself).
  destruct (w_blank s W q Hq Hnone) as (Hl0 & Hr0).
  rewrite Hl0 in Hl, Hk.
  set (self3 := prepared (cwd s)
                  (with_links (with_content (obj s q) (data nd)) L')) in *.
  assert (Hfs : fs s3 = fs s) by (rewrite Hs3; reflexivity).
  assert (Hcwd : cwd s3 = cwd s) by (rewrite Hs3; reflexivity).
  assert (Hidx : indexByAbsPath s3 = indexByAbsPath s ++ news)
    by (rewrite Hs3; reflexivity).
  assert (Hap : forall o, (o < length (heap s))%nat ->
                          absPath (obj s3 o) = absPath (obj s o)).
  { intros o Ho. destruct (Nat.eq_dec o q) as [->|Hne].
    - now rewrite Hself.
    - now rewrite Hold. }
  assert (Hex : forall o, (o < length (heap s))%nat ->
                          exists_ (obj s3 o) = exists_ (obj s o)).
  { intros o Ho. destruct (Nat.eq_dec o q) as [->|Hne].
    - now rewrite Hself.
    - now rewrite Hold. }
  assert (Hmono : forall k o, dict_get k (indexByAbsPath s) = Some o ->
                              dict_get k (indexByAbsPath s3) = Some o).
  { intros k o Hg. now rewrite Hidx, dict_get_app, Hg. }
  assert (Hev : exists l1 l2,
             events s3 = events s ++ EvRead (absPath (obj s q)) :: l1
                         ++ EvCount (absPath (obj s q)) :: l2 /\
             only_logs l1 /\ only_logs l2 /\
             incl (map log_line (Rpyx.trace_lines s3 q)) l2).
  { exists (map adding news),
      (EvLog INFO ("Links of " ++ absPath (obj s q))%string
       :: map log_line (Rpyx.trace_lines s3 q)).
    split; [rewrite Hs3 at 1; reflexivity|].
    split; [auto with logs|]. split.
    - change (only_logs ([EvLog INFO ("Links of " ++ absPath (obj s q))%string]
                         ++ map log_line (Rpyx.trace_lines s3 q))).
      auto with logs.
    - intros e He. now right. }
  destruct Hev as (l1 & l2 & Hev & Hlog1 & Hlog2 & Hlines).
  assert (Hreads : reads (events s3) = reads (events s) ++ [absPath (obj s q)]).
  { rewrite Hev, reads_app. simpl. rewrite reads_app. simpl.
    now rewrite (reads_only_logs l1), (reads_only_logs l2). }
  assert (Hcand : forall o, (length (heap s) <= o < length (heap s3))%nat ->
            linksDico (obj s3 o) = [] /\ replacementsDico (obj s3 o) = [] /\
            fileContent (obj s3 o) = None /\
            exists_ (obj s3 o) = on_disk (absPath (obj s3 o)) s).
  { intros o Ho. destruct (Hnew o Ho) as (tok & _ & ->).
    apply candidate_blank. }
  constructor.
  - (* the index *)
    intros k o Hg. rewrite Hidx, dict_get_app in Hg.
    destruct (dict_get k (indexByAbsPath s)) as [o'|] eqn:E.
    + injection Hg as <-. destruct (w_index s W k o' E) as (Ho & ->).
      split; [lia | now rewrite Hap].
    + apply dict_get_In in Hg. destruct (Hnews k o Hg) as (_ & -> & Ho).
      split; [lia | reflexivity].
  - (* one entry per identity *)
    rewrite Hidx. unfold dict_keys. rewrite map_app.
    apply NoDup_app; [exact (w_index_nodup s W) | assumption |].
    intros k0 Hk0 Hk0'. apply in_map_iff in Hk0'.
    destruct Hk0' as ([k' o] & Hf & Hin). simpl in Hf. subst k'.
    destruct (Hnews k0 o Hin) as (Hn & _).
    apply (dict_get_keys k0 (indexByAbsPath s)) in Hk0. congruence.
  - (* exists *)
    intros o Ho. rewrite (on_disk_fs _ _ _ Hfs).
    destruct (Nat.lt_ge_cases o (length (heap s))) as [Holder|Hnewer].
    + rewrite Hex, Hap by assumption. now apply (w_exists s W).
    + apply Hcand. lia.
  - (* links *)
    intros f tok t Hf Hg. rewrite Hcwd.
    destruct (Nat.lt_ge_cases f (length (heap s))) as [Holder|Hnewer].
    + destruct (Nat.eq_dec f q) as [->|Hne].
      * rewrite Hself in Hg. simpl in Hg.
        destruct (Hl tok t Hg) as [Habs|(_ & Hi)]; [discriminate|].
        rewrite Hidx.
        rewrite (target_path_absPath _ _ (obj s q)) by now rewrite Hself.
        exact Hi.
      * rewrite Hold in * by assumption. apply Hmono.
        now apply (w_links s W).
    + destruct (Hcand f) as (Hc & _); [lia|]. rewrite Hc in Hg. discriminate.
  - (* unread objects *)
    intros o Ho Hc.
    destruct (Nat.lt_ge_cases o (length (heap s))) as [Holder|Hnewer].
    + destruct (Nat.eq_dec o q) as [->|Hne].
      * rewrite Hself in Hc. discriminate.
      * rewrite Hold in * by assumption. now apply (w_blank s W).
    + destruct (Hcand o) as (? & ? & _); [lia | auto].
  - (* read objects *)
    intros o c Ho Hc. unfold content_of. rewrite Hfs, Hcwd.
    destruct (Nat.lt_ge_cases o (length (heap s))) as [Holder|Hnewer].
    + destruct (Nat.eq_dec o q) as [->|Hne].
      * rewrite Hself in *. simpl in Hc. injection Hc as <-.
        change (absPath self3) with (absPath (obj s q)).
        rewrite Hnd. split; [reflexivity|]. split.
        -- intros tok Ht. simpl in Ht. apply Hk in Ht.
           destruct Ht as [[]|Ht]. exact Ht.
        -- unfold self3, prepared. simpl.
           apply build_replacements_absPath. reflexivity.
      * rewrite Hold in * by assumption. now apply (w_read s W).
    + destruct (Hcand o) as (_ & _ & Hcn & _); [lia|]. congruence.
  - (* linkCount *)
    rewrite Hs3. simpl. rewrite (w_linkCount s W).
    unfold links_held. simpl. unfold after_read. simpl.
    rewrite list_set_app by now rewrite list_set_length.
    rewrite list_set_twice, sum_over_app.
    rewrite (sum_over_zero _ (map _ _)).
    2:{ intros r Hr'. apply in_map_iff in Hr'. now destruct Hr' as (tok & <- & _). }
    pose proof (sum_over_list_set (fun r => length (linksDico r)) q self3
                  (heap s) Hq) as Hsum.
    cbv beta in Hsum. fold (obj s q) in Hsum. rewrite Hl0 in Hsum.
    change (linksDico self3) with L' in Hsum. simpl in Hsum. lia.
  - (* replacementCount *)
    rewrite Hs3. simpl. rewrite (w_replacementCount s W).
    unfold replacements_held. simpl. unfold after_read. simpl.
    rewrite list_set_app by now rewrite list_set_length.
    rewrite list_set_twice, sum_over_app.
    rewrite (sum_over_zero _ (map _ _)).
    2:{ intros r Hr'. apply in_map_iff in Hr'. now destruct Hr' as (tok & <- & _). }
    pose proof (sum_over_list_set (fun r => length (replacementsDico r)) q self3
                  (heap s) Hq) as Hsum.
    cbv beta in Hsum. fold (obj s q) in Hsum. rewrite Hr0 in Hsum.
    simpl in Hsum. simpl. lia.
  - (* traces *)
    intros f tok t Hf Hg.
    destruct (Nat.lt_ge_cases f (length (heap s))) as [Holder|Hnewer].
    + destruct (Nat.eq_dec f q) as [->|Hne].
      * rewrite Hev. apply in_or_app. right. right. apply in_or_app. right.
        right. apply Hlines. apply in_map. unfold Rpyx.trace_lines.
        apply dict_get_In in Hg.
        apply (in_map (fun lr => Rpyx.trace_line s3 (obj s3 q) (fst lr) (snd lr)))
          in Hg. exact Hg.
      * rewrite Hold in * by assumption.
        rewrite Hev. apply in_or_app. left.
        rewrite (trace_line_frame s s3).
        -- now apply (w_traced s W).
        -- apply Hex. apply (w_links s W) in Hg; [|assumption].
           now apply (w_index s W) in Hg.
    + destruct (Hcand f) as (Hc & _); [lia|]. rewrite Hc in Hg. discriminate.
  - (* events *)
    rewrite Hreads, read_then_count_app, <- (w_events s W), Hev.
    rewrite strip_logs_app. simpl. rewrite strip_logs_app. simpl.
    now rewrite (strip_logs_only l1), (strip_logs_only l2).
  - (* reads *)
    intros p Hp. rewrite (on_disk_fs _ _ _ Hfs). rewrite Hreads in Hp.
    apply in_app_or in Hp. destruct Hp as [Hp|[<-|[]]].
    + now apply (w_reads s W).
    + unfold on_disk. now rewrite Hnd.
Qed.

Lemma NoDup_values (f : oid -> string) (news : dict oid) :
  NoDup (map fst news) ->
  (forall k o, In (k, o) news -> k = f o) ->
  NoDup (map snd news).
Proof.
  induction news as [|[k o] news IH]; simpl; intros Hnd Hf; [constructor|].
  inversion Hnd as [|? ? Hni Hnd']; subst. constructor.
  - intros Hin. apply in_map_iff in Hin. destruct Hin as ([k' o'] & Ho & Hin).
    simpl in Ho. subst o'. apply Hni.
    assert (k' = k).
    { rewrite (Hf k' o) by now right. symmetry. apply Hf. now left. }
    subst k'. change k with (fst (k, o)). now apply in_map.
  - apply IH; [assumption|]. intros k' o' Hin. apply Hf. now right.
Qed.

(** Entries taken out of a dictionary with distinct values. *)
Lemma filter_values_NoDup (keep : string * oid -> bool) (news : dict oid) :
  NoDup (dict_values news) -> NoDup (dict_values (filter keep news)).
Proof.
  unfold dict_values.
  induction news as [|[k o] news IH]; simpl; intros Hnd; [constructor|].
  apply NoDup_cons_iff in Hnd. destruct Hnd as (Hfresh & Hrest).
  destruct (keep (k, o)); simpl; [|now apply IH].
  apply NoDup_cons_iff. split; [|now apply IH].
  intros Hin. apply Hfresh. apply in_map_iff in Hin.
  destruct Hin as ([k' o'] & Heq & Hin). simpl in Heq. subst o'.
  apply filter_In in Hin. destruct Hin as (Hin & _).
  change o with (snd (k', o)). now apply in_map.
Qed.

Lemma count_occ_NoDup (l : list oid) (o : oid) :
  NoDup l -> count_occ Nat.eq_dec l o = if in_dec Nat.eq_dec o l then 1%nat else 0%nat.
Proof.
  intros Hnd. destruct (in_dec Nat.eq_dec o l) as [Hin|Hni].
  - apply (proj1 (NoDup_count_occ' Nat.eq_dec l) Hnd). exact Hin.
  - now apply count_occ_not_In.
Qed.

Lemma nreads_app (k : string) (l1 l2 : list event) :
  nreads k (l1 ++ l2) = (nreads k l1 + nreads k l2)%nat.
Proof. unfold nreads. now rewrite reads_app, filter_app, length_app. Qed.

Lemma pinv_discover (seeds : list string) (q : oid) (P : list oid) (s : state)
  (queue : list oid) (s3 : state) :
  winv s ->
  pinv seeds (q :: P) s ->
  discover q s = (Ok queue, s3) ->
  pinv seeds (queue ++ P) s3.
Proof.
  intros W [P1 P2 P3 P4] Hdisc.
  destruct (P1 q (or_introl eq_refl)) as (Hq & Hnone & Hexq).
  destruct (discover_ok _ _ _ _ Hdisc Hq)
    as (nd & L' & news & (Hnd & Hr) & Hs3 & Hqueue & Hnews & Hnodup & Hl & Hk
        & Hlen & Hold & Hnew & Hself).
  inversion P2 as [|? ? HqP HndP]; subst x l.
  assert (Hidx : indexByAbsPath s3 = indexByAbsPath s ++ news)
    by (rewrite Hs3; reflexivity).
  assert (Hap : forall o, (o < length (heap s))%nat ->
                          absPath (obj s3 o) = absPath (obj s o)).
  { intros o Ho. destruct (Nat.eq_dec o q) as [->|Hne].
    - now rewrite Hself.
    - now rewrite Hold. }
  assert (Hex : forall o, (o < length (heap s))%nat ->
                          exists_ (obj s3 o) = exists_ (obj s o)).
  { intros o Ho. destruct (Nat.eq_dec o q) as [->|Hne].
    - now rewrite Hself.
    - now rewrite Hold. }
  assert (HinP : forall o, In o P -> (o < length (heap s))%nat /\ o <> q).
  { intros o Ho. split; [apply P1; now right|]. intros ->. contradiction. }
  assert (Hinq : forall o, In o queue <->
                   exists k, In (k, o) news /\ exists_ (obj s3 o) = true).
  { intros o. rewrite Hqueue, in_map_iff. split.
    - intros ([k o'] & Ho & Hin). simpl in Ho. subst o'.
      apply filter_In in Hin. exists k. tauto.
    - intros (k & Hin & He). exists (k, o). split; [reflexivity|].
      apply filter_In. tauto. }
  assert (Hvals : NoDup (map snd news)).
  { apply (NoDup_values (fun o => identity (absPath (obj s3 o)))); [assumption|].
    intros k o Hin. now apply Hnews. }
  assert (Hndq : NoDup queue).
  { rewrite Hqueue. now apply filter_values_NoDup. }
  assert (Hnewget : forall k o, In (k, o) news ->
                      dict_get k (indexByAbsPath s3) = Some o).
  { intros k o Hin. rewrite Hidx, dict_get_app.
    destruct (Hnews k o Hin) as (-> & _). now apply dict_In_get. }
  assert (Hreads : forall k, nreads k (events s3)
             = (nreads k (events s)
                + if String.eqb (identity (absPath (obj s q))) k
                  then 1 else 0)%nat).
  { intros k. rewrite Hs3. simpl.
    change (EvRead (absPath (obj s q)) :: ?l)
      with ([EvRead (absPath (obj s q))] ++ l).
    rewrite !nreads_app. f_equal.
    assert (Hzero : forall l, only_logs l -> nreads k l = 0%nat).
    { intros l Hlog. unfold nreads. now rewrite reads_only_logs. }
    rewrite (Hzero (map adding news)) by auto with logs.
    change (EvCount ?p :: EvLog ?a ?b :: ?l)
      with ([EvCount p] ++ [EvLog a b] ++ l).
    rewrite !nreads_app.
    rewrite (Hzero (map log_line _)) by auto with logs.
    unfold nreads. simpl.
    destruct (String.eqb (identity (absPath (obj s q))) k); reflexivity. }
  constructor.
  - (* queued objects are fresh *)
    intros o Ho. apply in_app_or in Ho. destruct Ho as [Ho|Ho].
    + apply Hinq in Ho. destruct Ho as (k & Hin & He).
      destruct (Hnews k o Hin) as (_ & _ & Hrange).
      split; [lia|]. split; [|assumption].
      destruct (Hnew o Hrange) as (tok & _ & ->). reflexivity.
    + destruct (HinP o Ho) as (Hlt & Hne).
      destruct (P1 o (or_intror Ho)) as (_ & Hc & He).
      rewrite Hold by assumption. split; [lia | auto].
  - (* no duplicates *)
    apply NoDup_app; [assumption | assumption |].
    intros o Ho HoP. apply Hinq in Ho. destruct Ho as (k & Hin & _).
    destruct (Hnews k o Hin) as (_ & _ & Hrange).
    destruct (HinP o HoP). lia.
  - (* queued objects are indexed *)
    intros o Ho. apply in_app_or in Ho. destruct Ho as [Ho|Ho].
    + right. apply Hinq in Ho. destruct Ho as (k & Hin & _).
      destruct (Hnews k o Hin) as (_ & Hk' & _). rewrite <- Hk'.
      now apply Hnewget.
    + destruct (HinP o Ho) as (Hlt & Hne). rewrite Hap by assumption.
      destruct (P3 o (or_intror Ho)) as [Hs|Hi]; [now left|right].
      now rewrite Hidx, dict_get_app, Hi.
  - (* reads *)
    intros k Hk'. specialize (P4 k Hk'). rewrite Hreads.
    rewrite Hidx, dict_get_app.
    destruct (dict_get k (indexByAbsPath s)) as [o|] eqn:E.
    + destruct (w_index s W k o E) as (Ho & Hko).
      rewrite Hex by assumption. rewrite count_occ_app.
      assert (Hnq : count_occ Nat.eq_dec queue o = 0%nat).
      { apply count_occ_not_In. intros Hin. apply Hinq in Hin.
        destruct Hin as (k' & Hin & _).
        destruct (Hnews k' o Hin) as (_ & _ & Hrange). lia. }
      unfold oid in *. rewrite Hnq. simpl in P4.
      destruct (String.eqb_spec (identity (absPath (obj s q))) k) as [Heq|Hne].
      * assert (o = q).
        { destruct (P3 q (or_introl eq_refl)) as [Hs|Hi].
          - rewrite Heq in Hs. contradiction.
          - rewrite Heq in Hi. congruence. }
        subst o. destruct (Nat.eq_dec q q) as [_|]; [|congruence].
        rewrite Hexq in *.
        assert (count_occ Nat.eq_dec P q = 0%nat)
          by now apply count_occ_not_In.
        lia.
      * destruct (Nat.eq_dec q o) as [<-|_]; [congruence|]. lia.
    + destruct (String.eqb_spec (identity (absPath (obj s q))) k) as [Heq|Hne].
      * exfalso. destruct (P3 q (or_introl eq_refl)) as [Hs|Hi].
        -- rewrite Heq in Hs. contradiction.
        -- rewrite Heq in Hi. congruence.
      * destruct (dict_get k news) as [o|] eqn:En; [|lia].
        apply dict_get_In in En. destruct (Hnews k o En) as (_ & _ & Hrange).
        rewrite count_occ_app.
        assert (HnP : count_occ Nat.eq_dec P o = 0%nat).
        { apply count_occ_not_In. intros Hin. destruct (HinP o Hin). lia. }
        unfold oid in *.
        rewrite HnP, (count_occ_NoDup queue o Hndq). rewrite P4.
        destruct (in_dec Nat.eq_dec o queue) as [Hin|Hni].
        -- apply Hinq in Hin. destruct Hin as (_ & _ & ->). reflexivity.
        -- destruct (exists_ (obj s3 o)) eqn:Ee; [|reflexivity].
           exfalso. apply Hni. apply Hinq. eauto.
Qed.

(** ** The first loop of [update] *)

Lemma filter_length_le {A} (f g : A -> bool) (l : list A) :
  (forall x, In x l -> g x = true -> f x = true) ->
  (length (filter g l) <= length (filter f l))%nat.
Proof.
  induction l as [|x l IH]; intros H; simpl; [lia|].
  assert (IH' := IH (fun y Hy => H y (or_intror Hy))).
  specialize (H x (or_introl eq_refl)).
  destruct (g x), (f x); simpl; try lia; discriminate (H eq_refl).
Qed.

Lemma filter_length_lt {A} (f g : A -> bool) (l : list A) (x : A) :
  (forall x, In x l -> g x = true -> f x = true) ->
  In x l -> f x = true -> g x = false ->
  (length (filter g l) < length (filter f l))%nat.
Proof.
  induction l as [|y l IH]; intros H Hin Hf Hg; [contradiction|]. simpl.
  assert (Hle := filter_length_le f g l (fun z Hz => H z (or_intror Hz))).
  destruct Hin as [->|Hin].
  - rewrite Hf, Hg. simpl. lia.
  - assert (IH' := IH (fun z Hz => H z (or_intror Hz)) Hin Hf Hg).
    specialize (H y (or_introl eq_refl)).
    destruct (g y), (f y); simpl; try lia; discriminate (H eq_refl).
Qed.

Lemma free_le (s : state) : (free s <= length (fs s))%nat.
Proof.
  unfold free, dict_keys. rewrite <- (length_map fst (fs s)).
  generalize (map fst (fs s)). intros l.
  induction l as [|x l IH]; simpl; [lia|].
  destruct (dict_get (identity x) (indexByAbsPath s)); simpl; lia.
Qed.

Lemma free_mono (s s' : state) :
  fs s' = fs s ->
  (forall k o, dict_get k (indexByAbsPath s) = Some o ->
               dict_get k (indexByAbsPath s') = Some o) ->
  (free s' <= free s)%nat.
Proof.
  intros Hfs Hmono. unfold free. rewrite Hfs. apply filter_length_le.
  intros p _. destruct (dict_get (identity p) (indexByAbsPath s)) eqn:E;
    [|reflexivity].
  now rewrite (Hmono _ _ E).
Qed.

Lemma free_lt (s s' : state) (p : string) (o : oid) :
  fs s' = fs s ->
  (forall k o, dict_get k (indexByAbsPath s) = Some o ->
               dict_get k (indexByAbsPath s') = Some o) ->
  on_disk p s = true ->
  dict_get (identity p) (indexByAbsPath s) = None ->
  dict_get (identity p) (indexByAbsPath s') = Some o ->
  (free s' < free s)%nat.
Proof.
  intros Hfs Hmono Hp Hn Hs. unfold free. rewrite Hfs.
  apply filter_length_lt with (x := p).
  - intros x _. destruct (dict_get (identity x) (indexByAbsPath s)) eqn:E;
      [|reflexivity].
    now rewrite (Hmono _ _ E).
  - apply (dict_get_keys p (fs s)). unfold on_disk in Hp.
    destruct (dict_get p (fs s)); [discriminate|discriminate Hp].
  - now rewrite Hn.
  - now rewrite Hs.
Qed.

Section Discovery.

Variable disk : dict node.
Variable cwd_ : string.
Variable cap : Z.
Variable seeds : list string.

Lemma ainv_log (level : Z) (msg : string) (s : state) :
  ainv disk cwd_ cap s -> ainv disk cwd_ cap (logging_log level msg s).
Proof.
  intros [W F C K U]. constructor; try assumption. now apply winv_log.
Qed.

Lemma dinv_step_ok (n : nat) (q : oid) (P : list oid) (s : state)
  (queue : list oid) (s' : state) :
  dinv disk cwd_ cap seeds n (q :: P) s -> discover q s = (Ok queue, s') -> dinv disk cwd_ cap seeds n (queue ++ P) s'.
Proof.
  intros ([W F C K U] & HP & Hn) Hdisc.
  destruct (p_fresh _ _ _ HP q (or_introl eq_refl)) as (Hq & Hnone & _).
  assert (W' := winv_discover _ _ _ _ W Hq Hnone Hdisc).
  assert (P' := pinv_discover _ _ _ _ _ _ W HP Hdisc).
  destruct (discover_ok _ _ _ _ Hdisc Hq)
    as (nd & L' & news & _ & Hs3 & _).
  split; [|split; [assumption|]].
  - constructor; try assumption; rewrite Hs3; simpl; assumption.
  - etransitivity; [|exact Hn]. apply free_mono.
    + rewrite Hs3; reflexivity.
    + intros k o Hg. rewrite Hs3; simpl. now rewrite dict_get_app, Hg.
Qed.

Lemma dinv_step_raise (n : nat) (q : oid) (P : list oid) (s : state)
  (e : exn) (s' : state) :
  dinv disk cwd_ cap seeds n (q :: P) s -> discover q s = (Raise e, s') -> (derr disk cwd_ cap) e s'.
Proof.
  intros (A & HP & Hn) Hdisc.
  destruct (p_fresh _ _ _ HP q (or_introl eq_refl)) as (Hq & _ & Hex).
  apply discover_raise in Hdisc. destruct Hdisc as (-> & -> & Hnode).
  split; [now apply ainv_log|]. right.
  rewrite (w_exists s (a_w _ _ _ _ A) q Hq) in Hex. unfold on_disk in Hex.
  rewrite (a_fs _ _ _ _ A) in *.
  destruct (dict_get (absPath (obj s q)) disk) as [nd|] eqn:E; [|discriminate].
  exists (absPath (obj s q)), nd. auto.
Qed.

Lemma dinv_starved (n : nat) (q : oid) (P : list oid) (s : state) :
  dinv disk cwd_ cap seeds n (q :: P) s -> (derr disk cwd_ cap) OutOfFuel s.
Proof. intros (A & _). split; [assumption | now left]. Qed.

(** The traversal keeps the invariant. *)
Lemma searchLinks_dinv (n fuel : nat) (q : oid) (P : list oid)
  (maxDepth : Z) (s : state) :
  (maxDepth < 0)%Z -> dinv disk cwd_ cap seeds n (q :: P) s ->
  post (dinv disk cwd_ cap seeds n) (derr disk cwd_ cap) P (Updater.searchLinks fuel q maxDepth s).
Proof.
  apply searchLinks_rule.
  - apply dinv_step_ok.
  - apply dinv_step_raise.
  - apply dinv_starved.
Qed.

(** A queue that is not empty takes identities out of [free]. *)
Lemma discover_free (n : nat) (q : oid) (P : list oid) (s : state)
  (queue : list oid) (s' : state) :
  dinv disk cwd_ cap seeds n (q :: P) s -> discover q s = (Ok queue, s') ->
  queue <> [] -> (free s' < free s)%nat.
Proof.
  intros (A & HP & Hn) Hdisc Hne.
  destruct (p_fresh _ _ _ HP q (or_introl eq_refl)) as (Hq & Hnone & _).
  assert (W' := winv_discover _ _ _ _ (a_w _ _ _ _ A) Hq Hnone Hdisc).
  destruct (discover_ok _ _ _ _ Hdisc Hq)
    as (nd & L' & news & _ & Hs3 & Hqueue & Hnews & Hnodup & _ & _ & Hlen & _).
  destruct queue as [|c queue]; [congruence|].
  assert (Hc : In c (map snd (filter (fun kv => exists_ (obj s' (snd kv))) news)))
    by (rewrite <- Hqueue; now left).
  apply in_map_iff in Hc. destruct Hc as ([k c'] & Hc & Hin). simpl in Hc.
  subst c'. apply filter_In in Hin. destruct Hin as (Hin & Hex). simpl in Hex.
  destruct (Hnews k c Hin) as (Hnone' & Hk & Hrange).
  apply free_lt with (p := absPath (obj s' c)) (o := c).
  - rewrite Hs3; reflexivity.
  - intros k' o Hg. rewrite Hs3; simpl. now rewrite dict_get_app, Hg.
  - rewrite (w_exists s' W' c) in Hex by lia.
    erewrite <- on_disk_fs; [exact Hex|]. rewrite Hs3; reflexivity.
  - now rewrite <- Hk.
  - rewrite <- Hk. rewrite Hs3 at 1. simpl. rewrite dict_get_app, Hnone'.
    now apply dict_In_get.
Qed.

(** With more fuel than [free], the traversal does not run out of fuel. *)
Lemma searchLinks_fuel (fuel : nat) :
  forall n q P maxDepth s,
    (maxDepth < 0)%Z -> dinv disk cwd_ cap seeds n (q :: P) s -> (free s < fuel)%nat ->
    fst (Updater.searchLinks fuel q maxDepth s) <> Raise OutOfFuel.
Proof.
  induction fuel as [|fuel IH]; intros n q P maxDepth s Hd HI Hfree; [lia|].
  rewrite searchLinks_unfold. unfold bind.
  destruct (discover q s) as [[queue|e] s1] eqn:Hdisc.
  - destruct (Z.eqb_spec maxDepth 0) as [->|_]; [lia|].
    assert (H1 : dinv disk cwd_ cap seeds (free s1) (queue ++ P) s1).
    { assert (H := dinv_step_ok _ _ _ _ _ _ HI Hdisc).
      destruct H as (A & HP & _). split; [assumption|]. split; [assumption|lia]. }
    assert (Hlt : queue <> [] -> (free s1 < fuel)%nat).
    { intros Hne. pose proof (discover_free _ _ _ _ _ _ HI Hdisc Hne). lia. }
    clear Hdisc HI Hfree. revert s1 H1 Hlt.
    induction queue as [|c queue IHq]; intros s1 H1 Hlt; simpl.
    + discriminate.
    + unfold bind.
      assert (Hc := IH (free s1) c (queue ++ P) (maxDepth - 1)%Z s1
                      ltac:(lia) H1 (Hlt ltac:(discriminate))).
      assert (Hpost := searchLinks_dinv (free s1) fuel c (queue ++ P)
                         (maxDepth - 1)%Z s1 ltac:(lia) H1).
      destruct (Updater.searchLinks fuel c (maxDepth - 1) s1) as [[[]|e] s2];
        simpl in *; [|exact Hc].
      apply IHq.
      * destruct Hpost as (A & HP & Hle). split; [assumption|].
        split; [assumption | lia].
      * intros _. destruct Hpost as (_ & _ & Hle).
        specialize (Hlt ltac:(discriminate)). lia.
  - simpl. apply discover_raise in Hdisc. destruct Hdisc as (-> & _).
    discriminate.
Qed.

End Discovery.

(** *** The constructor keeps the invariants *)

Lemma init_alloc (path : string) (s : state) :
  Rpyx.init path s
  = (length (heap s), alloc (OsPath.abspath (cwd s) path) s).
Proof. reflexivity. Qed.

Lemma obj_alloc_old (p : string) (s : state) (o : oid) :
  (o < length (heap s))%nat -> obj (alloc p s) o = obj s o.
Proof. intros H. unfold obj, alloc; simpl. now rewrite app_nth1. Qed.

Lemma obj_alloc_new (p : string) (s : state) :
  obj (alloc p s) (length (heap s)) = mkRhpRpyx p (on_disk p s) [] [] None.
Proof.
  unfold obj, alloc; simpl. rewrite app_nth2 by lia.
  now rewrite Nat.sub_diag.
Qed.

Lemma heap_alloc_length (p : string) (s : state) :
  length (heap (alloc p s)) = S (length (heap s)).
Proof. unfold alloc; simpl. rewrite length_app. simpl. lia. Qed.

Lemma winv_alloc (p : string) (s : state) : winv s -> winv (alloc p s).
Proof.
  intros W.
  assert (Hcases : forall o, (o < length (heap (alloc p s)))%nat ->
            ((o < length (heap s))%nat /\ obj (alloc p s) o = obj s o) \/
            (o = length (heap s) /\
             obj (alloc p s) o = mkRhpRpyx p (on_disk p s) [] [] None)).
  { intros o Ho. rewrite heap_alloc_length in Ho.
    destruct (Nat.eq_dec o (length (heap s))) as [->|Hne].
    - right. split; [reflexivity | apply obj_alloc_new].
    - left. split; [lia | apply obj_alloc_old; lia]. }
  constructor.
  - intros k o Hg. destruct (w_index s W k o Hg) as (Ho & ->).
    rewrite heap_alloc_length, obj_alloc_old by assumption. split; [lia|auto].
  - exact (w_index_nodup s W).
  - intros o Ho. destruct (Hcases o Ho) as [(Ho' & ->)|(-> & ->)].
    + now apply (w_exists s W).
    + reflexivity.
  - intros f tok t Hf Hg. destruct (Hcases f Hf) as [(Ho' & Hobj)|(-> & Hobj)];
      rewrite Hobj in *.
    + now apply (w_links s W).
    + discriminate.
  - intros o Ho Hc. destruct (Hcases o Ho) as [(Ho' & Hobj)|(-> & Hobj)];
      rewrite Hobj in *.
    + now apply (w_blank s W).
    + auto.
  - intros o c Ho Hc. destruct (Hcases o Ho) as [(Ho' & Hobj)|(-> & Hobj)];
      rewrite Hobj in *.
    + now apply (w_read s W).
    + discriminate.
  - simpl. rewrite (w_linkCount s W). unfold links_held, alloc. simpl.
    rewrite sum_over_app. simpl. f_equal. lia.
  - simpl. rewrite (w_replacementCount s W). unfold replacements_held, alloc.
    simpl. rewrite sum_over_app. simpl. f_equal. lia.
  - intros f tok t Hf Hg. destruct (Hcases f Hf) as [(Ho' & Hobj)|(-> & Hobj)];
      rewrite Hobj in *.
    + rewrite (trace_line_frame s).
      * now apply (w_traced s W).
      * rewrite obj_alloc_old; [reflexivity|].
        apply (w_links s W) in Hg; [|assumption].
        now apply (w_index s W) in Hg.
    + discriminate.
  - exact (w_events s W).
  - exact (w_reads s W).
Qed.

(** The queue invariant only looks at the objects of the heap, the index
    and the files read. *)
Lemma pinv_frame (S : list string) (P : list oid) (s s' : state) :
  winv s ->
  (forall o, (o < length (heap s))%nat -> obj s' o = obj s o) ->
  (length (heap s) <= length (heap s'))%nat ->
  indexByAbsPath s' = indexByAbsPath s ->
  reads (events s') = reads (events s) ->
  pinv S P s -> pinv S P s'.
Proof.
  intros W Hobj Hlen Hidx Hreads [P1 P2 P3 P4]. constructor.
  - intros q Hq. destruct (P1 q Hq) as (Hlt & ?). rewrite Hobj by assumption.
    split; [lia | assumption].
  - assumption.
  - intros q Hq. destruct (P1 q Hq) as (Hlt & _).
    rewrite Hobj, Hidx by assumption. now apply P3.
  - intros k Hk. specialize (P4 k Hk). rewrite Hidx.
    unfold nreads in *. rewrite Hreads.
    destruct (dict_get k (indexByAbsPath s)) as [o|] eqn:E; [|assumption].
    destruct (w_index s W k o E) as (Ho & _). now rewrite Hobj.
Qed.

Section Seeds.

Variable disk : dict node.
Variable cwd_ : string.
Variable cap : Z.
Variable seeds : list string.

Lemma process_seed_dinv (n fuel : nat) (path : string) (s : state) :
  In (identity (OsPath.abspath cwd_ path)) seeds ->
  dinv disk cwd_ cap seeds n [] s ->
  (length disk < fuel)%nat ->
  seed_post disk cwd_ cap seeds n (Updater.process_seed fuel path s).
Proof.
  intros Hseed (A & HP & Hn) Hfuel.
  unfold Updater.process_seed, bind, lift.
  set (s1 := logging_log INFO _ s).
  rewrite init_alloc.
  assert (A1 : ainv disk cwd_ cap s1) by now apply ainv_log.
  assert (Hcwd1 : cwd s1 = cwd_) by apply (a_cwd _ _ _ _ A1).
  rewrite Hcwd1.
  set (p := OsPath.abspath cwd_ path) in *.
  set (s2 := alloc p s1).
  set (q := length (heap s1)).
  assert (W2 : winv s2) by (apply winv_alloc, (a_w _ _ _ _ A1)).
  assert (A2 : ainv disk cwd_ cap s2).
  { destruct A1 as [W F C K U]. now constructor. }
  assert (Hobj2 : obj s2 q = mkRhpRpyx p (on_disk p s1) [] [] None)
    by apply obj_alloc_new.
  assert (HP2 : pinv seeds [] s2).
  { apply (pinv_frame seeds [] s s2 (a_w _ _ _ _ A)); try reflexivity;
      try assumption.
    - intros o Ho. unfold s2. rewrite obj_alloc_old; [reflexivity|exact Ho].
    - unfold s2. rewrite heap_alloc_length. simpl. lia.
    - unfold s2, s1. simpl. rewrite reads_app. simpl. now rewrite app_nil_r. }
  assert (Hfree2 : free s2 = free s) by reflexivity.
  rewrite Hobj2. cbn [exists_ absPath].
  destruct (on_disk p s1) eqn:Hon; cbn [negb].
  - (* the file is there: traverse *)
    assert (HI : dinv disk cwd_ cap seeds n [q] s2).
    { split; [assumption|]. split; [|lia].
      destruct HP2 as [P1 P2 P3 P4]. constructor.
      - intros o [<-|[]]. rewrite Hobj2. cbn [fileContent exists_].
        assert (Hl2 : length (heap s2) = Datatypes.S q)
          by apply heap_alloc_length.
        split; [lia|]. split; reflexivity.
      - repeat constructor. intros [].
      - intros o [<-|[]]. left. rewrite Hobj2. exact Hseed.
      - intros k Hk. specialize (P4 k Hk).
        destruct (dict_get k (indexByAbsPath s2)) as [o|] eqn:E; [|assumption].
        simpl. destruct (Nat.eq_dec q o) as [<-|_]; [|assumption].
        exfalso. apply (w_index s1 (a_w _ _ _ _ A1)) in E.
        unfold q in E. lia. }
    assert (Hlt : (free s2 < fuel)%nat).
    { pose proof (free_le s2) as Hle. rewrite (a_fs _ _ _ _ A2) in Hle. lia. }
    pose proof (searchLinks_dinv disk cwd_ cap seeds n fuel q [] (-1) s2
                  ltac:(lia) HI) as Hpost.
    pose proof (searchLinks_fuel disk cwd_ cap seeds fuel n q [] (-1) s2
                  ltac:(lia) HI Hlt) as Hnf.
    destruct (Updater.searchLinks fuel q (-1) s2) as [[[]|e] s3];
      simpl in *; [assumption|].
    destruct Hpost as (A3 & [->|Hio]); [congruence | auto].
  - (* the file is not there *)
    simpl. split; [now apply ainv_log|]. split;
      [|change (free s2 <= n)%nat; lia].
    apply (pinv_frame seeds [] s2 _ W2); try reflexivity; try assumption.
    simpl. rewrite reads_app. simpl. now rewrite app_nil_r.
Qed.

Lemma for_each_seeds (n fuel : nat) (paths : list string) :
  incl (seed_identities cwd_ paths) seeds ->
  (length disk < fuel)%nat ->
  forall s, dinv disk cwd_ cap seeds n [] s ->
            seed_post disk cwd_ cap seeds n (for_each paths (Updater.process_seed fuel) s).
Proof.
  intros Hincl Hfuel. induction paths as [|path paths IH]; intros s HI; simpl.
  - exact HI.
  - unfold bind.
    assert (Hp := process_seed_dinv n fuel path s
                    (Hincl _ (or_introl eq_refl)) HI Hfuel).
    destruct (Updater.process_seed fuel path s) as [[[]|e] s1]; simpl in Hp.
    + apply IH; [|assumption]. intros k Hk. apply Hincl. now right.
    + exact Hp.
Qed.

End Seeds.

(** The state a run starts from. *)
Lemma initial_dinv (disk : dict node) (cwd_ : string) (cap : Z)
  (seeds : list string) :
  dinv disk cwd_ cap seeds (length disk) [] (Updater.initial disk cwd_ cap).
Proof.
  split; [|split].
  - constructor; try reflexivity. constructor; simpl; try reflexivity;
      try (intros; lia); try discriminate; try constructor.
  - constructor; simpl.
    + intros q [].
    + constructor.
    + intros q [].
    + intros k _. reflexivity.
  - apply free_le.
Qed.

(** ** The second loop of [update] keeps to the cap *)

Lemma applied_refl (s : state) : applied s [] s.
Proof.
  constructor; try reflexivity; try (simpl; lia).
  now rewrite app_nil_r.
Qed.

Lemma forallb_app_true {A} (f : A -> bool) (l1 l2 : list A) :
  forallb f l1 = true -> forallb f l2 = true -> forallb f (l1 ++ l2) = true.
Proof. intros H1 H2. rewrite forallb_app, H1, H2. reflexivity. Qed.

(** A log record more. *)
Lemma applied_log (sd : state) (l : list event) (t : state) (level : Z)
  (msg : string) :
  applied sd l t -> applied sd (l ++ [EvLog level msg]) (logging_log level msg t).
Proof.
  intros [H1 H2 H3 H4 H5 H6 H7 H8 H9 H10 H11 H12 H13 H14].
  constructor; simpl; try assumption.
  - rewrite H8. now rewrite app_assoc.
  - now apply forallb_app_true.
  - rewrite writes_app. simpl. now rewrite app_nil_r.
  - intros p. rewrite writes_app. simpl. rewrite app_nil_r. apply H12.
  - intros p. rewrite writes_app. simpl. rewrite app_nil_r. apply H13.
Qed.

(** The counter of the cap goes up by one. *)
Lemma applied_bump (sd : state) (l : list event) (t : state) :
  applied sd l t -> applied sd l (Strategy.bump_updatedFileCount t).
Proof.
  intros [H1 H2 H3 H4 H5 H6 H7 H8 H9 H10 H11 H12 H13 H14].
  constructor; simpl; try assumption; lia.
Qed.

Lemma doReplacements_applied (sd : state) (l : list event) (t : state)
  (o : oid) :
  winv sd -> applied sd l t -> (o < length (heap sd))%nat ->
  exists l',
    applied sd l' (snd (Strategy.doReplacements o t)) /\
    match fst (Strategy.doReplacements o t) with
    | Ok _ => True
    | Raise e => io_failure (fs sd) e
    end.
Proof.
  intros W Ap Ho.
  assert (Hobj : obj t o = obj sd o) by (unfold obj; now rewrite (ap_heap _ _ _ Ap)).
  unfold Strategy.doReplacements. rewrite Hobj.
  destruct (exists_ (obj sd o)) eqn:Hex; cbn [negb].
  2:{ eexists. split; [apply applied_log; eassumption | exact I]. }
  destruct (length (replacementsDico (obj sd o)) =? 0)%nat eqn:Hlen.
  { eexists. split; [apply applied_log; eassumption | exact I]. }
  apply Nat.eqb_neq in Hlen.
  unfold bind, lift.
  destruct (updatedFileCount (strategy t) <? maxFileToUpdate (strategy t))%Z
    eqn:Hcap.
  2:{ (* the cap is reached *)
    unfold ret. cbn [fst snd]. eexists. split; [|exact I].
    apply applied_bump, applied_log. eassumption. }
  apply Z.ltb_lt in Hcap.
  unfold Rpyx.doReplacements. rewrite Hobj.
  destruct (fileContent (obj sd o)) as [content|] eqn:Hc.
  2:{ exfalso. destruct (w_blank sd W o Ho Hc) as (_ & Hr).
      rewrite Hr in Hlen. now apply Hlen. }
  set (p := absPath (obj sd o)).
  set (newContent := Rpyx.substitute content (replacementsDico (obj sd o))).
  assert (Hon : on_disk p sd = true).
  { unfold p. rewrite <- (w_exists sd W o Ho). exact Hex. }
  unfold on_disk in Hon.
  destruct (dict_get p (fs sd)) as [n0|] eqn:Hn0; [|discriminate].
  pose proof (ap_nodes _ _ _ Ap p) as Hflags. rewrite Hn0 in Hflags.
  unfold Rpyx.write_file.
  destruct (dict_get p (fs t)) as [n|] eqn:Hn; [|discriminate].
  simpl in Hflags. injection Hflags as Hfr Hfw.
  destruct (writable n) eqn:Hw.
  - (* the file is written *)
    cbn [fst snd]. exists ((l ++ [EvWrite p newContent])
                           ++ [EvLog DEBUG
                                 (Str.of_nat (length (replacementsDico (obj sd o)))
                                  ++ " replacements written in file " ++ p)%string]).
    split; [|exact I].
    destruct Ap as [H1 H2 H3 H4 H5 H6 H7 H8 H9 H10 H11 H12 H13 H14].
    constructor; simpl; try assumption.
    + rewrite H8. now rewrite !app_assoc.
    + apply forallb_app_true; [|reflexivity]. now apply forallb_app_true.
    + lia.
    + rewrite !writes_app, !length_app. simpl. rewrite H7 in Hcap. lia.
    + intros p'. rewrite !writes_app. simpl. rewrite app_nil_r. intros Hin.
      apply in_app_or in Hin. destruct Hin as [Hin|[<-|[]]]; [now apply H12|].
      split; [unfold on_disk; now rewrite Hn0|].
      exists o. repeat split; try assumption.
      intros Hnil. apply Hlen. now rewrite Hnil.
    + intros p'. rewrite !writes_app. simpl. rewrite app_nil_r. intros Hni.
      rewrite dict_get_set.
      destruct (String.eqb_spec p p') as [<-|Hne].
      * exfalso. apply Hni. apply in_or_app. right. now left.
      * apply H13. intros Hin. apply Hni. apply in_or_app. now left.
    + intros p'. rewrite dict_get_set.
      destruct (String.eqb_spec p p') as [<-|Hne].
      * rewrite Hn0. simpl. congruence.
      * apply H14.
  - (* the file cannot be written *)
    cbn [fst snd]. eexists. split; [apply applied_log; eassumption|].
    exists p, n0. split; [reflexivity|]. split; [assumption|].
    right. congruence.
Qed.

Lemma for_each_applied (sd : state) (os : list oid) :
  winv sd ->
  (forall o, In o os -> (o < length (heap sd))%nat) ->
  forall l t, applied sd l t ->
    exists l',
      applied sd l' (snd (for_each os Strategy.doReplacements t)) /\
      match fst (for_each os Strategy.doReplacements t) with
      | Ok _ => True
      | Raise e => io_failure (fs sd) e
      end.
Proof.
  intros W. induction os as [|o os IH]; intros Hos l t Ap; simpl.
  - exists l. split; [assumption | exact I].
  - unfold bind.
    destruct (doReplacements_applied sd l t o W Ap (Hos o (or_introl eq_refl)))
      as (l1 & Ap1 & Hr).
    destruct (Strategy.doReplacements o t) as [[[]|e] t1]; simpl in *.
    + apply (IH (fun o' Ho' => Hos o' (or_intror Ho')) l1 t1 Ap1).
    + exists l1. auto.
Qed.

Lemma apply_all_applied (sd : state) :
  winv sd ->
  exists l,
    applied sd l (snd (Updater.apply_all sd)) /\
    match fst (Updater.apply_all sd) with
    | Ok _ => True
    | Raise e => io_failure (fs sd) e
    end.
Proof.
  intros W. unfold Updater.apply_all.
  apply (for_each_applied sd _ W) with (l := []).
  - intros o Ho. unfold dict_values in Ho. apply in_map_iff in Ho.
    destruct Ho as ([k o'] & <- & Hin). simpl.
    apply dict_In_get in Hin; [|exact (w_index_nodup sd W)].
    now apply (w_index sd W) in Hin.
  - apply applied_refl.
Qed.

(** ** A whole run *)

Lemma main_run (disk : dict node) (cwd_ : string) (cap : Z)
  (paths : list string) :
  exists sd l,
    ainv disk cwd_ cap sd /\
    applied sd l (snd (Updater.main disk cwd_ cap paths)) /\
    match fst (Updater.main disk cwd_ cap paths) with
    | Ok _ => pinv (seed_identities cwd_ paths) [] sd
    | Raise e => io_failure disk e
    end.
Proof.
  unfold Updater.main, Updater.update, bind.
  pose proof (for_each_seeds disk cwd_ cap (seed_identities cwd_ paths)
                (length disk) (Updater.enough disk) paths
                (fun k Hk => Hk) ltac:(unfold Updater.enough; lia)
                (Updater.initial disk cwd_ cap)
                (initial_dinv disk cwd_ cap _)) as Hseeds.
  destruct (for_each paths (Updater.process_seed (Updater.enough disk))
              (Updater.initial disk cwd_ cap)) as [[[]|e] sd]; simpl in Hseeds.
  - destruct Hseeds as (A & HP & _).
    destruct (apply_all_applied sd (a_w _ _ _ _ A)) as (l & Ap & Hr).
    exists sd, l. split; [assumption|]. split; [assumption|].
    destruct (fst (Updater.apply_all sd)); [assumption|].
    now rewrite <- (a_fs _ _ _ _ A).
  - destruct Hseeds as (A & Hio). exists sd, []. simpl.
    split; [assumption|]. split; [apply applied_refl | assumption].
Qed.

(** The recursion of [searchLinks] ends: a run never comes back for want
    of fuel, and it only fails on a file of the disk that cannot be read or
    written. *)
Lemma update_ends (disk : dict node) (cwd_ : string) (cap : Z)
  (paths : list string) :
  match fst (Updater.main disk cwd_ cap paths) with
  | Ok _ => True
  | Raise e => io_failure disk e
  end.
Proof.
  destruct (main_run disk cwd_ cap paths) as (sd & l & _ & _ & H).
  destruct (fst (Updater.main disk cwd_ cap paths)); [exact I | exact H].
Qed.

(** ** Reads and writes in the log *)

Lemma strip_logs_kinds (l : list event) :
  forallb (fun e => is_log e || is_write e) l = true ->
  forallb is_write (strip_logs l) = true.
Proof.
  induction l as [|e l IH]; simpl; intros H; [reflexivity|].
  apply andb_true_iff in H. destruct H as (He & Hl).
  destruct e; simpl in *; auto; discriminate.
Qed.

Lemma writes_strip_logs (l : list event) : writes (strip_logs l) = writes l.
Proof.
  induction l as [|e l IH]; [reflexivity|].
  destruct e; simpl; rewrite ?IH; reflexivity.
Qed.

Lemma writes_read_then_count (ps : list string) :
  writes (read_then_count ps) = [].
Proof. induction ps as [|p ps IH]; simpl; auto. Qed.

Lemma reads_kinds (l : list event) :
  forallb (fun e => is_log e || is_write e) l = true -> reads l = [].
Proof.
  induction l as [|e l IH]; simpl; intros H; [reflexivity|].
  apply andb_true_iff in H. destruct H as (He & Hl).
  destruct e; simpl in *; auto; discriminate.
Qed.

(** Nothing is written during the traversal. *)
Lemma winv_no_write (s : state) : winv s -> writes (events s) = [].
Proof.
  intros W. rewrite <- writes_strip_logs, (w_events s W).
  apply writes_read_then_count.
Qed.

(** ** The traversal does not look at the cap *)

Section Cap.

Variable cap : Z.

Lemma init_with_cap (path : string) (s : state) :
  Rpyx.init path (with_cap cap s)
  = (fst (Rpyx.init path s), with_cap cap (snd (Rpyx.init path s))).
Proof. reflexivity. Qed.

Lemma build_links_with_cap (self : RhpRpyx) (links : list string) :
  forall acc s,
    Rpyx.build_links self links acc (with_cap cap s)
    = (fst (Rpyx.build_links self links acc s),
       with_cap cap (snd (Rpyx.build_links self links acc s))).
Proof.
  induction links as [|l links IH]; intros acc s; simpl; [reflexivity|].
  destruct (OsPath.isabs l); rewrite init_with_cap; simpl; apply IH.
Qed.

Lemma getLinkedRpyx_with_cap (q : oid) (s : state) :
  Rpyx.getLinkedRpyx q (with_cap cap s)
  = (fst (Rpyx.getLinkedRpyx q s), with_cap cap (snd (Rpyx.getLinkedRpyx q s))).
Proof.
  unfold Rpyx.getLinkedRpyx.
  change (obj (with_cap cap s) q) with (obj s q).
  change (fs (with_cap cap s)) with (fs s).
  destruct (dict_get (absPath (obj s q)) (fs s)) as [nd|]; [|reflexivity].
  destruct (readable nd); [|reflexivity].
  match goal with
  | |- _ = (fst (let (_, _) := Rpyx.build_links ?self ?l ?acc ?st in _), _) =>
      pose proof (build_links_with_cap self l acc st) as H;
      match goal with
      | |- _ = ?R =>
          change ((let (d0, s3) := Rpyx.build_links self l acc (with_cap cap st)
                   in (@Ok (dict oid) d0, s3)) = R)
      end;
      rewrite H;
      destruct (Rpyx.build_links self l acc st) as [d s2]
  end.
  reflexivity.
Qed.

Lemma index_links_with_cap (q : oid) (items : dict oid) :
  forall queue s,
    Updater.index_links q items queue (with_cap cap s)
    = (fst (Updater.index_links q items queue s),
       with_cap cap (snd (Updater.index_links q items queue s))).
Proof.
  induction items as [|[tok c] items IH]; intros queue s; simpl;
    [reflexivity|].
  change (Index.getIndexedRhpyx (absPath (obj (with_cap cap s) c))
            (with_cap cap s))
    with (Index.getIndexedRhpyx (absPath (obj s c)) s).
  destruct (Index.getIndexedRhpyx (absPath (obj s c)) s) as [t|] eqn:E.
  - apply (IH queue (Rpyx.linkRpyx q tok t s)).
  - assert (Hadd : Index.addIndexedRhpyx c
                     (Rpyx.linkRpyx q tok c (with_cap cap s))
                   = with_cap cap
                       (Index.addIndexedRhpyx c (Rpyx.linkRpyx q tok c s))).
    { unfold Index.addIndexedRhpyx.
      change (indexByAbsPath (Rpyx.linkRpyx q tok c (with_cap cap s)))
        with (indexByAbsPath (Rpyx.linkRpyx q tok c s)).
      change (obj (Rpyx.linkRpyx q tok c (with_cap cap s)) c)
        with (obj (Rpyx.linkRpyx q tok c s) c).
      destruct (dict_get _ (indexByAbsPath (Rpyx.linkRpyx q tok c s)));
        reflexivity. }
    rewrite Hadd.
    change (obj (with_cap cap
                   (Index.addIndexedRhpyx c (Rpyx.linkRpyx q tok c s))) c)
      with (obj (Index.addIndexedRhpyx c (Rpyx.linkRpyx q tok c s)) c).
    apply IH.
Qed.

Lemma discover_with_cap (q : oid) (s : state) :
  discover q (with_cap cap s)
  = (fst (discover q s), with_cap cap (snd (discover q s))).
Proof.
  unfold discover, bind, lift, ret. rewrite getLinkedRpyx_with_cap.
  destruct (Rpyx.getLinkedRpyx q s) as [[d|e] s1]; [|reflexivity].
  cbn [fst snd]. rewrite index_links_with_cap.
  destruct (Updater.index_links q d [] s1) as [l s2]. cbn [fst snd].
  rewrite !trace_spec. reflexivity.
Qed.

Lemma for_each_with_cap {A} (body : A -> M unit) (l : list A) :
  (forall x s, body x (with_cap cap s)
               = (fst (body x s), with_cap cap (snd (body x s)))) ->
  forall s, for_each l body (with_cap cap s)
            = (fst (for_each l body s), with_cap cap (snd (for_each l body s))).
Proof.
  intros Hbody. induction l as [|x l IH]; intros s; simpl; [reflexivity|].
  unfold bind. rewrite Hbody.
  destruct (body x s) as [[[]|e] s1]; cbn [fst snd]; [apply IH | reflexivity].
Qed.

Lemma searchLinks_with_cap (fuel : nat) :
  forall q maxDepth s,
    Updater.searchLinks fuel q maxDepth (with_cap cap s)
    = (fst (Updater.searchLinks fuel q maxDepth s),
       with_cap cap (snd (Updater.searchLinks fuel q maxDepth s))).
Proof.
  induction fuel as [|fuel IH]; intros q maxDepth s; [reflexivity|].
  rewrite !searchLinks_unfold. unfold bind. rewrite discover_with_cap.
  destruct (discover q s) as [[queue|e] s1]; cbn [fst snd]; [|reflexivity].
  destruct (maxDepth =? 0)%Z; [reflexivity|].
  apply for_each_with_cap. intros x s'. apply IH.
Qed.

Lemma process_seed_with_cap (fuel : nat) (path : string) (s : state) :
  Updater.process_seed fuel path (with_cap cap s)
  = (fst (Updater.process_seed fuel path s),
     with_cap cap (snd (Updater.process_seed fuel path s))).
Proof.
  unfold Updater.process_seed, bind, lift.
  change (logging_log INFO ?m (with_cap cap s))
    with (with_cap cap (logging_log INFO m s)).
  rewrite init_with_cap.
  destruct (Rpyx.init path (logging_log INFO _ s)) as [o s1]. cbn [fst snd].
  change (obj (with_cap cap s1) o) with (obj s1 o).
  destruct (negb (exists_ (obj s1 o))); [reflexivity|].
  apply searchLinks_with_cap.
Qed.

End Cap.

(** The totals in which a run ends are those of the traversal, and the
    traversal is the same under every cap. *)
Lemma totals_of_traversal (disk : dict node) (cwd_ : string) (cap : Z)
  (paths : list string) :
  let s := snd (Updater.main disk cwd_ cap paths) in
  let sd := snd (for_each paths (Updater.process_seed (Updater.enough disk))
                   (Updater.initial disk cwd_ 0)) in
  linkCount (strategy s) = linkCount (strategy sd) /\
  replacementCount (strategy s) = replacementCount (strategy sd) /\
  fileUpdatedCount (strategy s) = fileUpdatedCount (strategy sd) /\
  reads (events s) = reads (events sd).
Proof.
  intros s sd.
  assert (Hseeds : for_each paths (Updater.process_seed (Updater.enough disk))
                     (Updater.initial disk cwd_ cap)
                   = (fst (for_each paths
                             (Updater.process_seed (Updater.enough disk))
                             (Updater.initial disk cwd_ 0)),
                      with_cap cap sd)).
  { change (Updater.initial disk cwd_ cap)
      with (with_cap cap (Updater.initial disk cwd_ 0)).
    apply for_each_with_cap. intros x s'. apply process_seed_with_cap. }
  unfold s, Updater.main, Updater.update, bind. rewrite Hseeds.
  destruct (fst (for_each paths (Updater.process_seed (Updater.enough disk))
                   (Updater.initial disk cwd_ 0))) as [[]|e] eqn:Hr.
  - pose proof (for_each_seeds disk cwd_ 0 (seed_identities cwd_ paths)
                  (length disk) (Updater.enough disk) paths
                  (fun k Hk => Hk) ltac:(unfold Updater.enough; lia)
                  (Updater.initial disk cwd_ 0)
                  (initial_dinv disk cwd_ 0 _)) as Hinv.
    pose proof (for_each_seeds disk cwd_ cap (seed_identities cwd_ paths)
                  (length disk) (Updater.enough disk) paths
                  (fun k Hk => Hk) ltac:(unfold Updater.enough; lia)
                  (Updater.initial disk cwd_ cap)
                  (initial_dinv disk cwd_ cap _)) as Hinvc.
    rewrite Hseeds in Hinvc. simpl in Hinvc. destruct Hinvc as (A & _).
    destruct (apply_all_applied (with_cap cap sd) (a_w _ _ _ _ A))
      as (l & Ap & _).
    rewrite (ap_linkCount _ _ _ Ap), (ap_replacementCount _ _ _ Ap),
      (ap_fileUpdatedCount _ _ _ Ap), (ap_events _ _ _ Ap), reads_app,
      (reads_kinds l (ap_kinds _ _ _ Ap)), app_nil_r.
    repeat split.
  - cbn [snd]. repeat split.
Qed.

(** * The claims of the specification *)

(** ** Order of a run *)

(** C6.  In every run, log records left aside, the events are: for each
    file read, its read immediately followed by its tally (so before the
    read of any file discovered in it), and, after all of these, writes
    only. *)
Theorem update_order (disk : dict node) (cwd_ : string) (cap : Z)
  (paths : list string) :
  phases (events (snd (Updater.main disk cwd_ cap paths))).
Proof.
  destruct (main_run disk cwd_ cap paths) as (sd & l & A & Ap & _).
  exists (reads (events sd)), (strip_logs l).
  rewrite (ap_events _ _ _ Ap), strip_logs_app.
  rewrite (w_events sd (a_w _ _ _ _ A)).
  split; [reflexivity|]. apply strip_logs_kinds. exact (ap_kinds _ _ _ Ap).
Qed.

(** ** The cap *)

(** The cap is kept: whatever the cap [cap] and the files, a run writes at
    most [max 0 cap] times, a file whose content differs after the run was
    written (so that no more than [max 0 cap] distinct files changed), and
    the totals [linkCount] and [replacementCount] are those of all the
    links and all the replacements held by the objects of the run,
    whether or not their files were written: the totals, and the files
    read, are the same under any other cap. *)
Lemma cap_enforcement (disk : dict node) (cwd_ : string) (cap : Z)
  (paths : list string) :
  let s := snd (Updater.main disk cwd_ cap paths) in
  (Z.of_nat (length (writes (events s))) <= Z.max 0 cap)%Z /\
  (forall p, content_of p s <> option_map data (dict_get p disk) ->
             In p (writes (events s))) /\
  (forall changed, NoDup changed ->
     (forall p, In p changed ->
                content_of p s <> option_map data (dict_get p disk)) ->
     (Z.of_nat (length changed) <= Z.max 0 cap)%Z) /\
  linkCount (strategy s) = Z.of_nat (links_held s) /\
  replacementCount (strategy s) = Z.of_nat (replacements_held s) /\
  (forall cap',
     let s' := snd (Updater.main disk cwd_ cap' paths) in
     linkCount (strategy s) = linkCount (strategy s') /\
     replacementCount (strategy s) = replacementCount (strategy s') /\
     reads (events s) = reads (events s')).
Proof.
  intros s.
  assert (Hcaps : forall cap',
            let s' := snd (Updater.main disk cwd_ cap' paths) in
            linkCount (strategy s) = linkCount (strategy s') /\
            replacementCount (strategy s) = replacementCount (strategy s') /\
            reads (events s) = reads (events s')).
  { intros cap' s'.
    destruct (totals_of_traversal disk cwd_ cap paths) as (H1 & H2 & _ & H3).
    destruct (totals_of_traversal disk cwd_ cap' paths) as (H1' & H2' & _ & H3').
    fold s in H1, H2, H3. fold s' in H1', H2', H3'.
    repeat split; congruence. }
  destruct (main_run disk cwd_ cap paths) as (sd & l & A & Ap & _).
  fold s in Ap.
  assert (Hw : writes (events s) = writes l).
  { rewrite (ap_events _ _ _ Ap), writes_app.
    now rewrite (winv_no_write sd (a_w _ _ _ _ A)). }
  assert (Hbound : (Z.of_nat (length (writes (events s))) <= Z.max 0 cap)%Z).
  { rewrite Hw. pose proof (ap_bound _ _ _ Ap) as Hb.
    rewrite (a_cap _ _ _ _ A), (a_upd _ _ _ _ A) in Hb. lia. }
  assert (Hchanged : forall p,
             content_of p s <> option_map data (dict_get p disk) ->
             In p (writes (events s))).
  { intros p Hp. rewrite Hw.
    destruct (in_dec string_dec p (writes l)) as [Hin|Hni]; [assumption|].
    exfalso. apply Hp. unfold content_of.
    now rewrite (ap_untouched _ _ _ Ap p Hni), (a_fs _ _ _ _ A). }
  split; [assumption|]. split; [assumption|]. split.
  - intros changed Hnd Hall.
    assert (Hle : (length changed <= length (writes (events s)))%nat).
    { apply NoDup_incl_length; [assumption|]. intros p Hp. auto. }
    lia.
  - split; [|split; [|exact Hcaps]].
    + rewrite (ap_linkCount _ _ _ Ap), (w_linkCount sd (a_w _ _ _ _ A)).
      unfold links_held. now rewrite (ap_heap _ _ _ Ap).
    + rewrite (ap_replacementCount _ _ _ Ap),
        (w_replacementCount sd (a_w _ _ _ _ A)).
      unfold replacements_held. now rewrite (ap_heap _ _ _ Ap).
Qed.

(** ** Missing targets *)

(** What a run knows of a link, from [f] to [t] under the link string
    [rhpLink]: [t] is the object indexed under the identity of the path that
    the link stands for, its [exists] flag tells whether its own path is on
    disk, and the trace has a record for the link.  And a run only reads and
    writes paths that are on disk. *)
Lemma run_links (disk : dict node) (cwd_ : string) (cap : Z)
  (paths : list string) (f : oid) (rhpLink : string) (t : oid) :
  let s := snd (Updater.main disk cwd_ cap paths) in
  let p := target_path cwd_ (obj s f) rhpLink in
  (f < length (heap s))%nat ->
  dict_get rhpLink (linksDico (obj s f)) = Some t ->
  dict_get (identity p) (indexByAbsPath s) = Some t /\
  identity (absPath (obj s t)) = identity p /\
  (exists_ (obj s t) = true <-> dict_get (absPath (obj s t)) disk <> None) /\
  In (log_line (Rpyx.trace_line s (obj s f) rhpLink t)) (events s) /\
  (forall q, In q (reads (events s)) \/ In q (writes (events s)) ->
             dict_get q disk <> None).
Proof.
  intros s p Hf Hlink.
  destruct (main_run disk cwd_ cap paths) as (sd & l & A & Ap & Hr).
  fold s in Ap. pose proof (a_w _ _ _ _ A) as W.
  assert (Hobj : forall o, obj s o = obj sd o)
    by (intros o; unfold obj; now rewrite (ap_heap _ _ _ Ap)).
  assert (Hlen : length (heap s) = length (heap sd))
    by now rewrite (ap_heap _ _ _ Ap).
  unfold p. clear p. rewrite ?Hobj in *. rewrite Hlen in Hf.
  rewrite (ap_index _ _ _ Ap).
  pose proof (w_links sd W f rhpLink t Hf Hlink) as Hidx.
  rewrite (a_cwd _ _ _ _ A) in Hidx.
  destruct (w_index sd W _ _ Hidx) as (Ht & Hkey).
  assert (Hdisk : forall q, on_disk q sd = true -> dict_get q disk <> None).
  { intros q Hq. unfold on_disk in Hq. rewrite (a_fs _ _ _ _ A) in Hq.
    destruct (dict_get q disk); [discriminate | discriminate Hq]. }
  split; [assumption|]. split; [now rewrite <- Hkey|]. split; [|split].
  - rewrite (w_exists sd W t Ht). unfold on_disk. rewrite (a_fs _ _ _ _ A).
    destruct (dict_get (absPath (obj sd t)) disk); split; congruence.
  - rewrite (ap_events _ _ _ Ap). apply in_or_app. left.
    rewrite (trace_line_frame sd s) by now rewrite Hobj.
    now apply (w_traced sd W).
  - intros q. rewrite (ap_events _ _ _ Ap), reads_app, writes_app.
    rewrite (reads_kinds l (ap_kinds _ _ _ Ap)), app_nil_r.
    rewrite (winv_no_write sd W). simpl. intros [Hq|Hq]; apply Hdisk.
    + now apply (w_reads sd W).
    + now apply (ap_written _ _ _ Ap).
Qed.

(** C9 does not hold as stated where letter case tells two paths apart:
    [A] refers to [/proj/X], which exists, and then to [/proj/x], which
    does not; the second link is given the object of the first, its
    record in the trace says that the file exists, at level [INFO], and
    the log has no record at level [WARNING] at all. *)
Lemma missing_counterexample :
  ~ Claimed.missing Scenario.case_clash "/proj" 5 Scenario.seeds
      0 "/proj/x.rpyx".
Proof.
  unfold Claimed.missing. vm_compute. intros H.
  destruct (H 1%nat eq_refl eq_refl) as (_ & _ & _ & (msg & Hin & _) & _).
  repeat (destruct Hin as [Hin|Hin]; [discriminate Hin|]).
  exact Hin.
Qed.

(** C9, as the code has it.  In every run, for every link of a file [f]
    whose target path [p] is not on disk, under no spelling of its letters:
    the run raises nothing but the failure of [open] on a file that is on
    disk; the link points to the object [t] that the index holds for the
    identity of [p], which is marked as not existing; no path of that
    identity is ever read (the target is not queued) or written; and the
    trace of [f] has a record at level [WARNING], the highest level of a
    trace, for the link. *)
Theorem missing_target (disk : dict node) (cwd_ : string) (cap : Z)
  (paths : list string) (f : oid) (rhpLink : string) (t : oid) :
  let r := fst (Updater.main disk cwd_ cap paths) in
  let s := snd (Updater.main disk cwd_ cap paths) in
  let p := target_path cwd_ (obj s f) rhpLink in
  (f < length (heap s))%nat ->
  dict_get rhpLink (linksDico (obj s f)) = Some t ->
  dict_get p disk = None ->
  (forall q, In q (dict_keys disk) -> identity q = identity p -> q = p) ->
  (forall e, r = Raise e -> io_failure disk e) /\
  dict_get (identity p) (indexByAbsPath s) = Some t /\
  exists_ (obj s t) = false /\
  (forall q, identity q = identity p ->
             ~ In q (reads (events s)) /\ ~ In q (writes (events s))) /\
  In (EvLog WARNING (snd (Rpyx.trace_line s (obj s f) rhpLink t))) (events s) /\
  (forall f' l' t', (fst (Rpyx.trace_line s (obj s f') l' t') <= WARNING)%Z).
Proof.
  intros r s p Hf Hlink Hmiss Hcase.
  destruct (run_links disk cwd_ cap paths f rhpLink t Hf Hlink)
    as (Hidx & Hkey & Hex & Htr & Hio).
  fold s in Hidx, Hkey, Hex, Htr, Hio. fold p in Hidx, Hkey.
  assert (Hgone : forall q, identity q = identity p -> dict_get q disk = None).
  { intros q Hq. destruct (dict_get q disk) eqn:E; [|reflexivity].
    assert (Hin : In q (dict_keys disk)) by (apply dict_get_keys; congruence).
    rewrite (Hcase q Hin Hq) in E. congruence. }
  assert (Hflag : exists_ (obj s t) = false).
  { destruct (exists_ (obj s t)) eqn:E; [|reflexivity].
    exfalso. apply (proj1 Hex eq_refl). now apply Hgone. }
  split; [|split; [|split; [|split; [|split]]]].
  - intros e He. pose proof (update_ends disk cwd_ cap paths) as Hend.
    fold r in Hend. now rewrite He in Hend.
  - assumption.
  - assumption.
  - intros q Hq. split; intros Hin; apply (Hio q); auto.
  - unfold log_line in Htr.
    assert (Hlv : fst (Rpyx.trace_line s (obj s f) rhpLink t) = WARNING).
    { unfold Rpyx.trace_line. simpl. now rewrite Hflag. }
    now rewrite Hlv in Htr.
  - intros f' l' t'. unfold Rpyx.trace_line, WARNING, INFO, DEBUG. simpl.
    destruct (exists_ (obj s t')); simpl; [|lia].
    destruct (dict_get (Rpyx.rpyxToMatch l') (replacementsDico (obj s f')));
      lia.
Qed.

(** The theorem at work: [A] refers twice to a file that is not there. *)
Lemma missing_target_witness :
  let r := fst (Updater.main Scenario.missing_twice "/proj" 5 Scenario.seeds) in
  let s := snd (Updater.main Scenario.missing_twice "/proj" 5 Scenario.seeds) in
  let p := target_path "/proj" (obj s 0) "/PROJ/m.rpyx" in
  (forall e, r = Raise e -> io_failure Scenario.missing_twice e) /\
  dict_get (identity p) (indexByAbsPath s) = Some 1%nat /\
  exists_ (obj s 1) = false /\
  (forall q, identity q = identity p ->
             ~ In q (reads (events s)) /\ ~ In q (writes (events s))) /\
  In (EvLog WARNING (snd (Rpyx.trace_line s (obj s 0) "/PROJ/m.rpyx" 1)))
     (events s) /\
  (forall f' l' t', (fst (Rpyx.trace_line s (obj s f') l' t') <= WARNING)%Z).
Proof.
  apply (missing_target Scenario.missing_twice "/proj" 5 Scenario.seeds
           0 "/PROJ/m.rpyx" 1).
  - vm_compute. lia.
  - vm_compute. reflexivity.
  - vm_compute. reflexivity.
  - intros q [<-|[]] Hq. vm_compute in Hq. discriminate Hq.
Defined.

(** ** One object per identity *)

(** What the index gives to the links: in every run, two links whose
    targets have the same identity point to the same object, which is the
    one that the index holds for that identity, the index having one entry
    per identity at most; and when the run comes to its end and that
    identity is not the one of a path of [rpyxPathToProcessList], the file
    is read once if it exists and never if it does not. *)
Lemma identity_dedup (disk : dict node) (cwd_ : string) (cap : Z)
  (paths : list string) (f1 f2 : oid) (rhpLink1 rhpLink2 : string)
  (t1 t2 : oid) :
  let r := fst (Updater.main disk cwd_ cap paths) in
  let s := snd (Updater.main disk cwd_ cap paths) in
  let k := identity (target_path cwd_ (obj s f1) rhpLink1) in
  (f1 < length (heap s))%nat -> (f2 < length (heap s))%nat ->
  dict_get rhpLink1 (linksDico (obj s f1)) = Some t1 ->
  dict_get rhpLink2 (linksDico (obj s f2)) = Some t2 ->
  identity (target_path cwd_ (obj s f2) rhpLink2) = k ->
  t1 = t2 /\
  dict_get k (indexByAbsPath s) = Some t1 /\
  NoDup (dict_keys (indexByAbsPath s)) /\
  identity (absPath (obj s t1)) = k /\
  (r = Ok tt -> ~ In k (seed_identities cwd_ paths) ->
   nreads k (events s) = if exists_ (obj s t1) then 1%nat else 0%nat).
Proof.
  intros r s k Hf1 Hf2 Hl1 Hl2 Hsame.
  destruct (main_run disk cwd_ cap paths) as (sd & l & A & Ap & Hr).
  fold s in Ap. fold r in Hr.
  pose proof (a_w _ _ _ _ A) as W.
  assert (Hobj : forall o, obj s o = obj sd o)
    by (intros o; unfold obj; now rewrite (ap_heap _ _ _ Ap)).
  assert (Hlen : length (heap s) = length (heap sd))
    by now rewrite (ap_heap _ _ _ Ap).
  unfold k in *. clear k. rewrite Hobj in *. rewrite Hlen in *.
  rewrite (ap_index _ _ _ Ap).
  pose proof (w_links sd W f1 rhpLink1 t1 Hf1 Hl1) as Hi1.
  pose proof (w_links sd W f2 rhpLink2 t2 Hf2 Hl2) as Hi2.
  rewrite (a_cwd _ _ _ _ A) in Hi1, Hi2. rewrite Hsame in Hi2.
  split; [congruence|]. split; [assumption|].
  split; [exact (w_index_nodup sd W)|].
  destruct (w_index sd W _ _ Hi1) as (Ht1 & Hkey).
  rewrite ?Hobj. split; [now rewrite <- Hkey|].
  intros Hok Hns. rewrite Hok in Hr.
  pose proof (p_reads _ _ _ Hr _ Hns) as Hreads. rewrite Hi1 in Hreads.
  simpl in Hreads. rewrite Nat.add_0_r in Hreads.
  unfold nreads in *. rewrite (ap_events _ _ _ Ap), reads_app.
  rewrite (reads_kinds l (ap_kinds _ _ _ Ap)), app_nil_r. exact Hreads.
Qed.

(** [A] and [B] both refer to [X], which is no seed. *)
Lemma identity_dedup_witness :
  let r := fst (Updater.main Scenario.shared "/proj" 5 Scenario.seeds) in
  let s := snd (Updater.main Scenario.shared "/proj" 5 Scenario.seeds) in
  let k := identity (target_path "/proj" (obj s 0) "/proj/X.rpyx") in
  2%nat = 2%nat /\
  dict_get k (indexByAbsPath s) = Some 2%nat /\
  NoDup (dict_keys (indexByAbsPath s)) /\
  identity (absPath (obj s 2)) = k /\
  (r = Ok tt -> ~ In k (seed_identities "/proj" Scenario.seeds) ->
   nreads k (events s) = if exists_ (obj s 2) then 1%nat else 0%nat).
Proof.
  apply (identity_dedup Scenario.shared "/proj" 5 Scenario.seeds
           0 1 "/proj/X.rpyx" "../X.rpyx" 2 2).
  - vm_compute. lia.
  - vm_compute. lia.
  - vm_compute. reflexivity.
  - vm_compute. reflexivity.
  - vm_compute. reflexivity.
Defined.

(** A target that does not exist is not read at all. *)
Example absent_file_never_read :
  let s := snd (Updater.main Scenario.missing_twice "/proj" 5 Scenario.seeds) in
  dict_get "/proj/M.rpyx" (linksDico (obj s 0))
  = dict_get "/PROJ/m.rpyx" (linksDico (obj s 0)) /\
  nreads "/proj/m.rpyx" (events s) = 0%nat.
Proof. vm_compute. split; reflexivity. Qed.

(** ** Relative references are left alone *)

Lemma dict_keys_In_set {V} (k k0 : string) (v : V) (d : dict V) :
  In k0 (dict_keys (dict_set k v d)) <-> k0 = k \/ In k0 (dict_keys d).
Proof.
  rewrite dict_keys_set. destruct (dict_get k d) eqn:E.
  - assert (In k (dict_keys d)) by (apply dict_get_keys; congruence).
    split; [tauto|]. intros [->|?]; assumption.
  - rewrite in_app_iff. simpl. split; intros [?|?]; auto; try tauto.
    destruct H as [?|[]]; auto.
Qed.

(** The keys of [replacementsDico] are the tokens of the absolute links. *)
Lemma build_replacements_keys (c : string) (self : RhpRpyx)
  (links : list string) :
  forall acc old,
    In old (dict_keys (Rpyx.build_replacements c self links acc)) <->
    In old (dict_keys acc) \/
    exists l, In l links /\ OsPath.isabs l = true /\ old = Rpyx.rpyxToMatch l.
Proof.
  induction links as [|l links IH]; intros acc old; simpl.
  - split; [auto|]. intros [?|(l & [] & _)]. assumption.
  - destruct (OsPath.isabs l) eqn:E; rewrite IH.
    + rewrite dict_keys_In_set. split.
      * intros [[->|Hacc]|(l' & Hin & Ha & ->)].
        -- right. exists l. auto.
        -- now left.
        -- right. exists l'. auto.
      * intros [Hacc|(l' & [<-|Hin] & Ha & ->)].
        -- left. now right.
        -- left. now left.
        -- right. exists l'. auto.
    + split.
      * intros [Hacc|(l' & Hin & Ha & ->)].
        -- now left.
        -- right. exists l'. auto.
      * intros [Hacc|(l' & [<-|Hin] & Ha & ->)].
        -- now left.
        -- congruence.
        -- right. exists l'. auto.
Qed.

Lemma dict_keys_nil {V} (d : dict V) : dict_keys d = [] -> d = [].
Proof. destruct d; [reflexivity | discriminate]. Qed.

(** No replacement is prepared from relative links only. *)
Lemma build_replacements_relative (c : string) (self : RhpRpyx)
  (links : list string) :
  (forall l, In l links -> OsPath.isabs l = false) ->
  Rpyx.build_replacements c self links [] = [].
Proof.
  intros Hrel. apply dict_keys_nil.
  destruct (dict_keys (Rpyx.build_replacements c self links [])) as [|old ks]
    eqn:E; [reflexivity|].
  assert (Hin : In old (dict_keys (Rpyx.build_replacements c self links [])))
    by (rewrite E; now left).
  apply build_replacements_keys in Hin.
  destruct Hin as [[]|(l & Hl & Ha & _)]. rewrite (Hrel l Hl) in Ha.
  discriminate.
Qed.

(** [prepareReplacements] skips the links that are relative; so, on files
    all of whose references are relative, a run prepares no replacement in
    any file, counts none, writes nothing and leaves every file as it
    was. *)
Lemma relative_links_no_replacement (disk : dict node) (cwd_ : string)
  (cap : Z) (paths : list string) :
  let s := snd (Updater.main disk cwd_ cap paths) in
  all_relative disk = true ->
  (forall o, (o < length (heap s))%nat -> replacementsDico (obj s o) = []) /\
  replacementCount (strategy s) = 0%Z /\
  writes (events s) = [] /\
  (forall p, dict_get p (fs s) = dict_get p disk).
Proof.
  intros s Hrel.
  destruct (main_run disk cwd_ cap paths) as (sd & l & A & Ap & _).
  fold s in Ap. pose proof (a_w _ _ _ _ A) as W.
  assert (Hobj : forall o, obj s o = obj sd o)
    by (intros o; unfold obj; now rewrite (ap_heap _ _ _ Ap)).
  assert (Hnone : forall o, (o < length (heap sd))%nat ->
                            replacementsDico (obj sd o) = []).
  { intros o Ho. destruct (fileContent (obj sd o)) as [c|] eqn:Hc.
    - destruct (w_read sd W o c Ho Hc) as (Hcont & Hkeys & ->).
      apply build_replacements_relative. intros lk Hlk.
      apply Hkeys in Hlk. unfold content_of in Hcont.
      rewrite (a_fs _ _ _ _ A) in Hcont.
      destruct (dict_get (absPath (obj sd o)) disk) as [nd|] eqn:Hnd;
        [|discriminate].
      simpl in Hcont. injection Hcont as <-. apply dict_get_In in Hnd.
      unfold all_relative in Hrel. rewrite forallb_forall in Hrel.
      specialize (Hrel _ Hnd). simpl in Hrel. rewrite forallb_forall in Hrel.
      specialize (Hrel _ Hlk). now destruct (OsPath.isabs lk).
    - now apply (w_blank sd W). }
  assert (Hw : writes l = []).
  { destruct (writes l) as [|p ws] eqn:E; [reflexivity|].
    destruct (ap_written _ _ _ Ap p) as (_ & o & Ho & _ & _ & Hne).
    - rewrite E. now left.
    - now rewrite Hnone in Hne. }
  split; [|split; [|split]].
  - intros o Ho. rewrite Hobj. apply Hnone. now rewrite <- (ap_heap _ _ _ Ap).
  - rewrite (ap_replacementCount _ _ _ Ap), (w_replacementCount sd W).
    unfold replacements_held. rewrite sum_over_zero; [reflexivity|].
    intros r Hr. apply (In_nth _ _ dummy_rpyx) in Hr.
    destruct Hr as (o & Ho & <-). fold (obj sd o). now rewrite Hnone.
  - rewrite (ap_events _ _ _ Ap), writes_app, (winv_no_write sd W), Hw.
    reflexivity.
  - intros p. rewrite (ap_untouched _ _ _ Ap), (a_fs _ _ _ _ A); [reflexivity|].
    rewrite Hw. intros [].
Qed.

(** A second run after a run that rewrote the files: [A] holds a relative
    reference and is the seed, [B] is rewritten by the first run, and the
    second run has nothing to replace. *)
Example second_run_relative_seed :
  let s1 := snd (Updater.main Scenario.relative_seed "/proj" 5 Scenario.seeds) in
  let s2 := snd (Updater.main (fs s1) "/proj" 5 Scenario.seeds) in
  writes (events s1) = ["/proj/B.rpyx"] /\
  replacementCount (strategy s1) = 1%Z /\
  all_relative (fs s1) = true /\
  replacementCount (strategy s2) = 0%Z /\
  writes (events s2) = [].
Proof. vm_compute. repeat split. Qed.

(** ** The token codec *)

(** C10.  For identifiers without [>], [<], [_rpy] and [.rpyx], decoding a
    token and encoding the result gives the token back; so, when the links
    of an object are those of such tokens, the keys that
    [prepareReplacements] stores are the tokens themselves, those whose
    link is absolute. *)
Theorem token_roundtrip (ids : list string) (o : oid) (s : state) :
  Forall plain_id ids ->
  (o < length (heap s))%nat ->
  dict_keys (linksDico (obj s o)) = map Rpyx.matchToRpyx (map token ids) ->
  (forall id, In id ids ->
     Rpyx.rpyxToMatch (Rpyx.matchToRpyx (token id)) = token id) /\
  (forall old,
     In old (dict_keys (replacementsDico (obj (Rpyx.prepareReplacements o s) o)))
     <-> In old (filter (fun tok => OsPath.isabs (Rpyx.matchToRpyx tok))
                        (map token ids))).
Proof.
  intros Hplain Ho Hkeys. rewrite Forall_forall in Hplain. split.
  - intros id Hid. apply roundtrip_token. now apply Hplain.
  - intros old. unfold Rpyx.prepareReplacements.
    rewrite obj_set_obj_same by assumption. simpl.
    rewrite build_replacements_keys, Hkeys. simpl.
    rewrite filter_In, !in_map_iff. split.
    + intros [[]|(lk & Hlk & Ha & ->)].
      apply in_map_iff in Hlk. destruct Hlk as (tok & <- & Htok).
      apply in_map_iff in Htok. destruct Htok as (id & <- & Hid).
      rewrite roundtrip_token by now apply Hplain.
      split; [eauto | assumption].
    + intros ((id & <- & Hid) & Ha). right.
      exists (Rpyx.matchToRpyx (token id)).
      split; [|split; [assumption|]].
      * apply in_map, in_map. assumption.
      * symmetry. apply roundtrip_token. now apply Hplain.
Qed.

(** The theorem at work: the seed of the first scenario, once traversed. *)
Lemma token_roundtrip_witness :
  let s := Scenario.discovered Scenario.one_link 0 in
  (forall id, In id ["/proj/sub/X"] ->
     Rpyx.rpyxToMatch (Rpyx.matchToRpyx (token id)) = token id) /\
  (forall old,
     In old (dict_keys (replacementsDico (obj (Rpyx.prepareReplacements 0 s) 0)))
     <-> In old (filter (fun tok => OsPath.isabs (Rpyx.matchToRpyx tok))
                        (map token ["/proj/sub/X"]))).
Proof.
  apply (token_roundtrip ["/proj/sub/X"] 0
           (Scenario.discovered Scenario.one_link 0)).
  - repeat constructor.
  - vm_compute. lia.
  - vm_compute. reflexivity.
Defined.

(** ** The scenario of the specification *)

(** C1 does not hold as stated: in the scenario, with a cap of 1, the new
    token stands for [../sub/X.rpyx], the path relative to the path of [A]
    itself, and not for [sub/X.rpyx]; besides, [A] is not rewritten. *)
Lemma one_link_counterexample : ~ Claimed.one_link 1.
Proof.
  unfold Claimed.one_link. vm_compute.
  intros (_ & (old & new & Hrepl & Hnew) & _).
  injection Hrepl as <- <-. discriminate Hnew.
Qed.

(** C1, as the code has it.  In the scenario, whatever the cap: the run
    ends, reads [A] then [X], prepares one replacement in [A], whose new
    token stands for [../sub/X.rpyx], a path that leads from [A] back to
    [X]; no replacement is prepared in [X], which keeps its content. *)
Theorem one_link_scenario (cap : Z) :
  let r := fst (Updater.main Scenario.one_link "/proj" cap Scenario.seeds) in
  let s := snd (Updater.main Scenario.one_link "/proj" cap Scenario.seeds) in
  r = Ok tt /\
  reads (events s) = ["/proj/A.rpyx"; "/proj/sub/X.rpyx"] /\
  replacementsDico (obj s 0) = [(">/proj/sub/X_rpy<", ">../sub/X_rpy<")] /\
  Rpyx.matchToRpyx ">../sub/X_rpy<" = "../sub/X.rpyx" /\
  Rpyx.joinRelativePath (obj s 0) "../sub/X.rpyx" = "/proj/sub/X.rpyx" /\
  replacementsDico (obj s 1) = [] /\
  replacementCount (strategy s) = 1%Z /\
  content_of "/proj/sub/X.rpyx" s = Some Scenario.X_content.
Proof. vm_compute. repeat split. Qed.

(** ** Where the code departs from its own intent *)

(** C4 at its failing input: [A], the seed, refers to [B], which refers
    back to [A].  The run ends, but [A] is read twice: the seed is not in
    the index when [B] refers to it. *)
Theorem cycle_reads_seed_twice :
  let r := fst (Updater.main Scenario.cycle "/proj" 5 Scenario.seeds) in
  let s := snd (Updater.main Scenario.cycle "/proj" 5 Scenario.seeds) in
  r = Ok tt /\
  reads (events s) = ["/proj/A.rpyx"; "/proj/B.rpyx"; "/proj/A.rpyx"] /\
  nreads "/proj/a.rpyx" (events s) = 2%nat.
Proof. vm_compute. repeat split. Qed.

(** C2 at its failing input: the cycle of C4, with a cap of 1.  The cap is
    kept: [B] alone is written, of the two files for which replacements
    were prepared.  But the totals are not those of the files discovered:
    [A] and [B] are the files read and hold one reference each, both
    absolute, two links and two replacements in all, and [linkCount] and
    [replacementCount] end at 3, [A] being read and tallied twice. *)
Theorem cycle_tallies_seed_twice :
  let r := fst (Updater.main Scenario.cycle "/proj" 1 Scenario.seeds) in
  let s := snd (Updater.main Scenario.cycle "/proj" 1 Scenario.seeds) in
  let links_on_disk p :=
    option_map (fun nd => links_of (data nd)) (dict_get p Scenario.cycle) in
  let discovered := ["/proj/A.rpyx"; "/proj/B.rpyx"] in
  r = Ok tt /\
  reads (events s) = ["/proj/A.rpyx"; "/proj/B.rpyx"; "/proj/A.rpyx"] /\
  links_on_disk "/proj/A.rpyx" = Some ["/proj/B.rpyx"] /\
  links_on_disk "/proj/B.rpyx" = Some ["/proj/A.rpyx"] /\
  over_reads links_in Scenario.cycle discovered = 2%nat /\
  over_reads replacements_in Scenario.cycle discovered = 2%nat /\
  linkCount (strategy s) = 3%Z /\
  replacementCount (strategy s) = 3%Z /\
  map (fun o => replacementsDico (obj s o)) (dict_values (indexByAbsPath s))
  = [[(">/proj/A_rpy<", ">../A_rpy<")]; [(">/proj/B_rpy<", ">../B_rpy<")]] /\
  writes (events s) = ["/proj/B.rpyx"].
Proof. vm_compute. repeat split. Qed.

(** C3 at its failing input: the seed [A] refers to [B] and [C], which
    both refer back to [A].  The two references to [A] have the same
    identity and are given the same object, the one of the index; but [A]
    is read twice, and two objects of that identity are traversed, the one
    that [update] built for the seed and the one of the index: the seed was
    not in the index when [B] referred to it. *)
Theorem seed_target_read_twice :
  let r := fst (Updater.main Scenario.seed_shared "/proj" 5 Scenario.seeds) in
  let s := snd (Updater.main Scenario.seed_shared "/proj" 5 Scenario.seeds) in
  let k := "/proj/a.rpyx" in
  r = Ok tt /\
  (absPath (obj s 1) = "/proj/B.rpyx" /\ absPath (obj s 2) = "/proj/C.rpyx") /\
  (identity (target_path "/proj" (obj s 1) "/proj/A.rpyx") = k /\
   identity (target_path "/proj" (obj s 2) "../A.rpyx") = k) /\
  (dict_get "/proj/A.rpyx" (linksDico (obj s 1)) = Some 3%nat /\
   dict_get "../A.rpyx" (linksDico (obj s 2)) = Some 3%nat /\
   dict_get k (indexByAbsPath s) = Some 3%nat) /\
  reads (events s)
  = ["/proj/A.rpyx"; "/proj/B.rpyx"; "/proj/A.rpyx"; "/proj/C.rpyx"] /\
  nreads k (events s) = 2%nat /\
  (absPath (obj s 0) = "/proj/A.rpyx" /\ absPath (obj s 3) = "/proj/A.rpyx" /\
   fileContent (obj s 0) = option_map data (dict_get "/proj/A.rpyx" Scenario.seed_shared) /\
   fileContent (obj s 3) = fileContent (obj s 0) /\
   linksDico (obj s 0) = [("/proj/B.rpyx", 1%nat); ("/proj/C.rpyx", 2%nat)] /\
   linksDico (obj s 3) = linksDico (obj s 0)).
Proof. vm_compute. repeat split. Qed.

(** C5 at its failing input: the scenario of the specification, run twice
    with a cap of 5.  The first run ends, prepares the replacement of the
    absolute reference of [A] and has room to write it, but writes
    nothing: [A], the seed, is not in the index, whose objects alone the
    second loop of [update] visits.  The disk is left as it was and the
    second run prepares and counts the same replacement again. *)
Theorem second_run_replaces_again :
  let r1 := fst (Updater.main Scenario.one_link "/proj" 5 Scenario.seeds) in
  let s1 := snd (Updater.main Scenario.one_link "/proj" 5 Scenario.seeds) in
  let r2 := fst (Updater.main (fs s1) "/proj" 5 Scenario.seeds) in
  let s2 := snd (Updater.main (fs s1) "/proj" 5 Scenario.seeds) in
  (r1 = Ok tt /\
   replacementsDico (obj s1 0) = [(">/proj/sub/X_rpy<", ">../sub/X_rpy<")] /\
   replacementCount (strategy s1) = 1%Z /\
   map (fun o => absPath (obj s1 o)) (dict_values (indexByAbsPath s1))
   = ["/proj/sub/X.rpyx"] /\
   updatedFileCount (strategy s1) = 0%Z /\
   writes (events s1) = [] /\
   fs s1 = Scenario.one_link) /\
  (r2 = Ok tt /\
   replacementsDico (obj s2 0) = [(">/proj/sub/X_rpy<", ">../sub/X_rpy<")] /\
   replacementCount (strategy s2) = 1%Z) /\
  ~ Claimed.idempotent Scenario.one_link "/proj" 5 Scenario.seeds.
Proof.
  vm_compute. repeat split. discriminate.
Qed.

(** Once [updatedFileCount] has reached the cap, [doReplacements] writes
    nothing and raises nothing, whatever the file. *)
Lemma cap_reached_no_write (o : oid) (s : state) :
  (maxFileToUpdate (strategy s) <= updatedFileCount (strategy s))%Z ->
  fst (Strategy.doReplacements o s) = Ok tt /\
  fs (snd (Strategy.doReplacements o s)) = fs s /\
  writes (events (snd (Strategy.doReplacements o s))) = writes (events s).
Proof.
  intros Hcap. unfold Strategy.doReplacements.
  destruct (negb (exists_ (obj s o))).
  { simpl. rewrite writes_app. simpl. now rewrite app_nil_r. }
  destruct (length (replacementsDico (obj s o)) =? 0)%nat.
  { simpl. rewrite writes_app. simpl. now rewrite app_nil_r. }
  unfold bind, lift, ret.
  destruct (Z.ltb_spec (updatedFileCount (strategy s))
                       (maxFileToUpdate (strategy s))) as [Hlt|_]; [lia|].
  simpl. rewrite writes_app. simpl. now rewrite app_nil_r.
Qed.

(** C7 at its failing input: the cap is 0 and so is the count of written
    files; [B] exists and has one replacement.  Nothing is written and
    nothing is raised, but [updatedFileCount] goes from 0 to 1. *)
Theorem cap_reached_counts :
  let sd := Scenario.discovered Scenario.cycle 0 in
  let r := fst (Strategy.doReplacements 1 sd) in
  let s := snd (Strategy.doReplacements 1 sd) in
  (exists_ (obj sd 1) = true /\
   length (replacementsDico (obj sd 1)) = 1%nat /\
   updatedFileCount (strategy sd) = 0%Z /\
   maxFileToUpdate (strategy sd) = 0%Z) /\
  r = Ok tt /\
  writes (events s) = [] /\
  fs s = fs sd /\
  updatedFileCount (strategy s) = 1%Z.
Proof. vm_compute. repeat split. Qed.

(** C8 at its failing input: a line with the two tokens [>/proj/B_rpy<]
    and [>/proj/C_rpy<].  [findall] gives one match, from the first [>] to
    the last [_rpy<] of the line, and [getLinkedRpyx] one link. *)
Theorem two_tokens_one_link :
  let content := "<r>/proj/B_rpy</r><r>/proj/C_rpy</r>" in
  let s0 := snd (Rpyx.init "/proj/A.rpyx"
                   (Updater.initial Scenario.two_on_a_line "/proj" 0)) in
  (Str.contains (token "/proj/B") content = true /\
   Str.contains (token "/proj/C") content = true) /\
  content_of "/proj/A.rpyx" s0 = Some content /\
  Re.findall content = [">/proj/B_rpy</r><r>/proj/C_rpy<"] /\
  option_map dict_keys
    (match fst (Rpyx.getLinkedRpyx 0 s0) with Ok d => Some d | Raise _ => None end)
  = Some ["/proj/B</r><r>/proj/C_rpy.rpyx"].
Proof. vm_compute. repeat split. Qed.

(** * Further properties of the code *)

Section PathStrings.

Local Open Scope string_scope.

Lemma str_app_assoc (a b c : string) : (a ++ b) ++ c = a ++ (b ++ c).
Proof. induction a as [|x a IH]; simpl; [reflexivity | now rewrite IH]. Qed.

Lemma str_app_nil (a : string) : a ++ "" = a.
Proof. induction a as [|x a IH]; simpl; [reflexivity | now rewrite IH]. Qed.

Lemma eqb_char_sym (a b : ascii) : Str.eqb_char a b = Str.eqb_char b a.
Proof. apply Ascii.eqb_sym. Qed.

Lemma eqb_char_refl (a : ascii) : Str.eqb_char a a = true.
Proof. apply Ascii.eqb_refl. Qed.

(** *** [split] and [join] *)

Lemma split_not_nil (c : ascii) (s : string) : Str.split c s <> [].
Proof.
  induction s as [|a s IH]; simpl; [discriminate|].
  destruct (Str.eqb_char a c); [discriminate|].
  destruct (Str.split c s); [contradiction | discriminate].
Qed.

Lemma split_app_sep (c : ascii) (a b : string) :
  Str.split c (a ++ String c b) = (Str.split c a ++ Str.split c b)%list.
Proof.
  induction a as [|x a IH]; simpl.
  - now rewrite eqb_char_refl.
  - destruct (Str.eqb_char x c); rewrite IH; [reflexivity|].
    destruct (Str.split c a) eqn:E; [now apply split_not_nil in E | reflexivity].
Qed.

Lemma contains_sep_cons (a : ascii) (s : string) :
  Str.contains "/" (String a s) = Str.eqb_char "/" a || Str.contains "/" s.
Proof. simpl. now rewrite andb_true_r. Qed.

Lemma split_no_sep (w : string) :
  Str.contains "/" w = false -> Str.split "/" w = [w].
Proof.
  induction w as [|a w IH]; intros H; [reflexivity|].
  rewrite contains_sep_cons in H. apply orb_false_iff in H. destruct H as [H1 H2].
  simpl. now rewrite eqb_char_sym, H1, IH.
Qed.

Lemma split_noslash (s : string) :
  Forall (fun w => Str.contains "/" w = false) (Str.split "/" s).
Proof.
  induction s as [|a s IH]; simpl; [repeat constructor|].
  destruct (Str.eqb_char a "/") eqn:E; [now constructor|].
  rewrite eqb_char_sym in E.
  destruct (Str.split "/" s) as [|w ws].
  - repeat constructor. rewrite contains_sep_cons, E. reflexivity.
  - inversion IH; subst. constructor; [|assumption].
    now rewrite contains_sep_cons, E.
Qed.

Lemma join_cons (sep w : string) (ws : list string) :
  ws <> [] -> Str.join sep (w :: ws) = w ++ sep ++ Str.join sep ws.
Proof. destruct ws; [congruence | reflexivity]. Qed.

Lemma join_app (sep : string) (l1 l2 : list string) :
  l1 <> [] -> l2 <> [] ->
  Str.join sep (l1 ++ l2)%list = Str.join sep l1 ++ sep ++ Str.join sep l2.
Proof.
  induction l1 as [|w l1 IH]; [congruence|]. intros _ H2.
  destruct l1 as [|w' l1].
  - simpl app. now rewrite join_cons.
  - change ((w :: w' :: l1) ++ l2)%list with (w :: ((w' :: l1) ++ l2))%list.
    rewrite !join_cons by discriminate. rewrite IH by (discriminate || assumption).
    now rewrite !str_app_assoc.
Qed.

Lemma split_join (l : list string) :
  l <> [] -> Forall (fun w => Str.contains "/" w = false) l ->
  Str.split "/" (Str.join "/" l) = l.
Proof.
  induction l as [|w ws IH]; [congruence|]. intros _ H.
  inversion H as [|? ? Hw Hws]; subst. destruct ws as [|w' ws].
  - now apply split_no_sep.
  - rewrite join_cons by discriminate.
    change ("/" ++ Str.join "/" (w' :: ws)) with (String "/" (Str.join "/" (w' :: ws))).
    rewrite split_app_sep, split_no_sep, IH; auto. discriminate.
Qed.

(** *** Names and components *)

Lemma is_name_inv (c : string) :
  is_name c = true ->
  String.eqb c "" = false /\ String.eqb c "." = false /\
  String.eqb c ".." = false /\ Str.contains "/" c = false.
Proof. unfold is_name. rewrite !andb_true_iff, !negb_true_iff. tauto. Qed.

Lemma is_comp_inv (c : string) :
  is_comp c = true -> String.eqb c "" = false /\ Str.contains "/" c = false.
Proof. unfold is_comp. rewrite !andb_true_iff, !negb_true_iff. tauto. Qed.

Lemma is_name_comp (c : string) : is_name c = true -> is_comp c = true.
Proof.
  intros H. apply is_name_inv in H. destruct H as (H1 & _ & _ & H4).
  unfold is_comp. now rewrite H1, H4.
Qed.

Lemma names_comps (l : list string) :
  Forall (fun c => is_name c = true) l -> Forall (fun c => is_comp c = true) l.
Proof. apply Forall_impl. exact is_name_comp. Qed.

Lemma comps_noslash (l : list string) :
  Forall (fun c => is_comp c = true) l ->
  Forall (fun w => Str.contains "/" w = false) l.
Proof. apply Forall_impl. intros c H. now apply is_comp_inv in H. Qed.

(** A component does not start with the separator. *)
Lemma comp_head (c : string) :
  is_comp c = true -> Str.startswith "/" c = false.
Proof.
  intros H. apply is_comp_inv in H. destruct H as (_ & H).
  destruct c as [|a c]; [reflexivity|].
  rewrite contains_sep_cons in H. apply orb_false_iff in H.
  simpl. now rewrite (proj1 H).
Qed.

Lemma startswith_app (p a b : string) :
  a <> "" -> String.length p <= 1 ->
  Str.startswith p (a ++ b) = Str.startswith p a.
Proof.
  intros Ha Hp. destruct p as [|x [|y p]]; simpl in Hp; try lia; [reflexivity|].
  destruct a as [|z a]; [congruence|]. simpl. reflexivity.
Qed.

Lemma startswith_sep_cons (p x : string) :
  Str.startswith (String "/" p) (String "/" x) = Str.startswith p x.
Proof.
  change (Str.eqb_char "/" "/" && Str.startswith p x = Str.startswith p x).
  now rewrite eqb_char_refl.
Qed.

Lemma startswith_sep_join (l : list string) :
  Forall (fun c => is_comp c = true) l ->
  Str.startswith "/" (Str.join "/" l) = false.
Proof.
  intros H. destruct l as [|c l]; [reflexivity|].
  inversion H as [|? ? Hc Hl]; subst.
  assert (Hne : c <> "").
  { apply is_comp_inv in Hc. destruct Hc as (Hc & _).
    now apply String.eqb_neq in Hc. }
  destruct l as [|c' l].
  - now apply comp_head.
  - rewrite join_cons by discriminate.
    rewrite startswith_app; [now apply comp_head | assumption | simpl; lia].
Qed.

(** *** The loop of [normpath] *)

Lemma norm_comps_cons (i : nat) (comp : string) (rest st : list string) :
  OsPath.norm_comps i (comp :: rest) st
  = if String.eqb comp "" || String.eqb comp "." then
      OsPath.norm_comps i rest st
    else if negb (String.eqb comp "..")
            || ((i =? 0)%nat && (length st =? 0)%nat)
            || match st with
               | last :: _ => String.eqb last ".."
               | [] => false
               end
    then OsPath.norm_comps i rest (comp :: st)
    else OsPath.norm_comps i rest (tl st).
Proof. reflexivity. Qed.

Lemma norm_comps_app (i : nat) (l1 l2 st : list string) :
  OsPath.norm_comps i (l1 ++ l2)%list st
  = OsPath.norm_comps i l2 (OsPath.norm_comps i l1 st).
Proof.
  revert st. induction l1 as [|c l1 IH]; intros st; [reflexivity|].
  change ((c :: l1) ++ l2)%list with (c :: (l1 ++ l2))%list.
  rewrite !norm_comps_cons.
  destruct (String.eqb c "" || String.eqb c "."); [apply IH|].
  match goal with |- (if ?b then _ else _) = _ => destruct b end; apply IH.
Qed.

Lemma norm_comps_names (i : nat) (l st : list string) :
  Forall (fun c => is_name c = true) l ->
  OsPath.norm_comps i l st = (rev l ++ st)%list.
Proof.
  intros H. revert st. induction H as [|c l Hc Hl IH]; intros st; [reflexivity|].
  rewrite norm_comps_cons. apply is_name_inv in Hc.
  destruct Hc as (H1 & H2 & H3 & _). rewrite H1, H2, H3. cbn [orb negb].
  rewrite IH. simpl. now rewrite <- app_assoc.
Qed.

Lemma norm_comps_up (i n : nat) (st : list string) :
  i <> 0%nat -> Forall (fun c => is_name c = true) st ->
  OsPath.norm_comps i (repeat ".." n) st = skipn n st.
Proof.
  intros Hi. revert st. induction n as [|n IH]; intros st Hst; [reflexivity|].
  cbn [repeat]. rewrite norm_comps_cons.
  change (String.eqb ".." "" || String.eqb ".." ".") with false.
  change (negb (String.eqb ".." "..")) with false.
  destruct (Nat.eqb_spec i 0) as [|_]; [contradiction|]. cbn [orb andb].
  destruct st as [|top st].
  - rewrite IH by constructor. now rewrite skipn_nil.
  - inversion Hst as [|? ? Htop Hst']; subst. apply is_name_inv in Htop.
    destruct Htop as (_ & _ & -> & _). cbn [tl]. now apply IH.
Qed.

Lemma norm_comps_good (i : nat) (comps st : list string) :
  i <> 0%nat ->
  Forall (fun w => Str.contains "/" w = false) comps ->
  Forall (fun c => is_name c = true) st ->
  Forall (fun c => is_name c = true) (OsPath.norm_comps i comps st).
Proof.
  intros Hi H. revert st. induction H as [|c l Hc Hl IH]; intros st Hst;
    [assumption|].
  rewrite norm_comps_cons.
  destruct (String.eqb c "") eqn:E1; [now apply IH|].
  destruct (String.eqb c ".") eqn:E2; [now apply IH|]. cbn [orb].
  destruct (Nat.eqb_spec i 0) as [|_]; [contradiction|]. cbn [orb andb].
  destruct (String.eqb c "..") eqn:E3; cbn [negb orb].
  - destruct st as [|top st]; [now apply IH|].
    inversion Hst as [|? ? Htop Hst']; subst. apply is_name_inv in Htop.
    destruct Htop as (_ & _ & -> & _). now apply IH.
  - apply IH. constructor; [|assumption]. unfold is_name.
    now rewrite E1, E2, E3, Hc.
Qed.

(** *** [normpath] on absolute paths *)

Lemma repeat_sep_1 : OsPath.repeat_sep 1 = "/".
Proof. reflexivity. Qed.

Lemma repeat_sep_2 : OsPath.repeat_sep 2 = "//".
Proof. reflexivity. Qed.

(** The count of leading slashes that [normpath] keeps. *)
Lemma normpath_abs (p : string) :
  OsPath.isabs p = true ->
  let i := if Str.startswith "//" p && negb (Str.startswith "///" p)
           then 2%nat else 1%nat in
  OsPath.normpath p
  = rooted_at i (rev (OsPath.norm_comps i (Str.split "/" p) [])).
Proof.
  intros Habs i. unfold OsPath.normpath, rooted_at.
  unfold OsPath.isabs, OsPath.sep in *. rewrite Habs.
  destruct p as [|a p]; [discriminate|]. cbn [String.length Nat.eqb].
  fold i.
  assert (Hi : OsPath.repeat_sep i = "/" \/ OsPath.repeat_sep i = "//").
  { unfold i. destruct (_ && _); auto. }
  destruct Hi as [-> | ->]; reflexivity.
Qed.

Lemma norm_comps_split_join (i : nat) (l st : list string) :
  Forall (fun c => is_comp c = true) l ->
  OsPath.norm_comps i (Str.split "/" (Str.join "/" l)) st
  = OsPath.norm_comps i l st.
Proof.
  intros H. destruct l as [|c l]; [reflexivity|].
  rewrite split_join; [reflexivity | discriminate | now apply comps_noslash].
Qed.

Lemma normpath_rooted_at (i : nat) (l : list string) :
  i = 1%nat \/ i = 2%nat ->
  Forall (fun c => is_comp c = true) l ->
  OsPath.normpath (rooted_at i l)
  = rooted_at i (rev (OsPath.norm_comps i l [])).
Proof.
  intros Hi Hl. pose proof (startswith_sep_join l Hl) as Hhead.
  assert (Habs : OsPath.isabs (rooted_at i l) = true)
    by (destruct Hi as [-> | ->]; reflexivity).
  rewrite (normpath_abs _ Habs).
  assert (Hlead : (if Str.startswith "//" (rooted_at i l)
                      && negb (Str.startswith "///" (rooted_at i l))
                   then 2%nat else 1%nat) = i).
  { destruct Hi as [-> | ->]; unfold rooted_at;
      rewrite ?repeat_sep_1, ?repeat_sep_2; cbn [append];
      rewrite !startswith_sep_cons, ?Hhead; reflexivity. }
  cbv zeta. rewrite Hlead. do 2 f_equal.
  destruct Hi as [-> | ->]; unfold rooted_at;
    rewrite ?repeat_sep_1, ?repeat_sep_2; cbn [append Str.split];
    rewrite ?eqb_char_refl, !norm_comps_cons; cbn [String.eqb orb];
    now apply norm_comps_split_join.
Qed.

(** A path in normal form is left as it is. *)
Lemma normpath_names (i : nat) (l : list string) :
  i = 1%nat \/ i = 2%nat ->
  Forall (fun c => is_name c = true) l ->
  OsPath.normpath (rooted_at i l) = rooted_at i l.
Proof.
  intros Hi Hl. rewrite normpath_rooted_at by (auto using names_comps).
  rewrite norm_comps_names by assumption.
  now rewrite app_nil_r, rev_involutive.
Qed.

(** The normal form of an absolute path. *)
Lemma normpath_form (p : string) :
  OsPath.isabs p = true ->
  exists i l,
    (i = 1%nat \/ i = 2%nat) /\
    (single_root p = true -> i = 1%nat) /\
    Forall (fun c => is_name c = true) l /\
    OsPath.normpath p = rooted_at i l.
Proof.
  intros Habs. rewrite (normpath_abs _ Habs). cbv zeta.
  set (i := if Str.startswith "//" p && negb (Str.startswith "///" p)
            then 2%nat else 1%nat).
  exists i, (rev (OsPath.norm_comps i (Str.split "/" p) [])).
  assert (Hi : i = 1%nat \/ i = 2%nat) by (unfold i; destruct (_ && _); auto).
  split; [assumption|]. split; [|split; [|reflexivity]].
  - unfold single_root, i. rewrite Habs. cbn [andb].
    destruct (_ && _); [discriminate | reflexivity].
  - apply Forall_rev. apply norm_comps_good; [lia | apply split_noslash |].
    constructor.
Qed.

(** *** The components of a path in normal form *)

Lemma split_sep_cons (x : string) :
  Str.split "/" (String "/" x) = ("" :: Str.split "/" x)%list.
Proof.
  change (Str.split "/" (String "/" x))
    with (if Str.eqb_char "/" "/" then ("" :: Str.split "/" x)%list
          else match Str.split "/" x with
               | [] => [String "/" ""]
               | w :: ws => (String "/" w :: ws)%list
               end).
  now rewrite eqb_char_refl.
Qed.

Lemma filter_comps (l : list string) :
  Forall (fun c => is_comp c = true) l ->
  filter (fun x => negb (String.eqb x "")) l = l.
Proof.
  intros H. induction H as [|c l Hc Hl IH]; [reflexivity|].
  apply is_comp_inv in Hc. destruct Hc as (Hc & _).
  cbn [filter]. now rewrite Hc, IH.
Qed.

Lemma parts_rooted (cwd_ p : string) (l : list string) :
  OsPath.abspath cwd_ p = rooted_at 1 l ->
  Forall (fun c => is_name c = true) l ->
  OsPath.parts cwd_ p = l.
Proof.
  intros Hp Hl. unfold OsPath.parts. rewrite Hp. unfold rooted_at.
  rewrite repeat_sep_1. cbn [append]. rewrite split_sep_cons.
  cbn [filter String.eqb negb]. destruct l as [|c l]; [reflexivity|].
  rewrite split_join.
  - now apply filter_comps, names_comps.
  - discriminate.
  - now apply comps_noslash, names_comps.
Qed.

Lemma common_le (a b : list string) : OsPath.common a b <= length a.
Proof.
  revert b. induction a as [|x a IH]; intros [|y b]; simpl; try lia.
  destruct (String.eqb x y); [|lia]. specialize (IH b). lia.
Qed.

Lemma common_firstn (a b : list string) :
  firstn (OsPath.common a b) a = firstn (OsPath.common a b) b.
Proof.
  revert b. induction a as [|x a IH]; intros [|y b]; simpl; try reflexivity.
  destruct (String.eqb_spec x y) as [->|_]; [|reflexivity].
  simpl. now rewrite IH.
Qed.

(** *** [endswith] on the separator *)

Lemma endswith_sep_cons (a b : ascii) (s : string) :
  Str.endswith "/" (String a (String b s)) = Str.endswith "/" (String b s).
Proof.
  unfold Str.endswith. cbn [String.length Nat.sub Str.drop Nat.leb].
  now rewrite !Nat.sub_0_r.
Qed.

Lemma endswith_noslash (w : string) :
  Str.contains "/" w = false -> Str.endswith "/" w = false.
Proof.
  induction w as [|a w IH]; intros H; [reflexivity|].
  rewrite contains_sep_cons in H. apply orb_false_iff in H.
  destruct H as (Ha & Hw). destruct w as [|b w].
  - unfold Str.endswith. cbn [String.length Nat.sub Str.drop Str.startswith].
    now rewrite Ha.
  - rewrite endswith_sep_cons. now apply IH.
Qed.

Lemma endswith_app (u w : string) :
  w <> "" -> Str.endswith "/" (u ++ w) = Str.endswith "/" w.
Proof.
  intros Hw. induction u as [|a u IH]; [reflexivity|].
  cbn [append]. destruct (u ++ w) as [|b s] eqn:E.
  - destruct u; simpl in E; [congruence | discriminate].
  - now rewrite endswith_sep_cons.
Qed.

Lemma comp_not_empty (c : string) : is_comp c = true -> c <> "".
Proof.
  intros H. apply is_comp_inv in H. destruct H as (H & _).
  now apply String.eqb_neq in H.
Qed.

Lemma endswith_join (l : list string) :
  l <> [] -> Forall (fun c => is_comp c = true) l ->
  forall u, Str.endswith "/" (u ++ Str.join "/" l) = false.
Proof.
  induction l as [|w l IH]; [congruence|]. intros _ H u.
  inversion H as [|? ? Hw Hl]; subst. destruct l as [|w' l].
  - cbn [Str.join]. rewrite endswith_app by now apply comp_not_empty.
    apply endswith_noslash. now apply is_comp_inv in Hw.
  - rewrite join_cons by discriminate.
    rewrite <- !str_app_assoc. apply IH; [discriminate | assumption].
Qed.

(** *** [os.path.join] on components *)

Lemma ospath_join_comp (a c : string) :
  a <> "" -> Str.endswith "/" a = false -> is_comp c = true ->
  OsPath.join a c = a ++ "/" ++ c.
Proof.
  intros Ha He Hc. unfold OsPath.join, OsPath.sep.
  rewrite (comp_head c Hc), He. destruct a; [congruence | reflexivity].
Qed.

Lemma fold_join (cs : list string) :
  Forall (fun c => is_comp c = true) cs ->
  forall acc, acc <> "" -> Str.endswith "/" acc = false ->
              fold_left OsPath.join cs acc = Str.join "/" (acc :: cs).
Proof.
  intros H. induction H as [|c cs Hc Hcs IH]; intros acc Ha He; [reflexivity|].
  cbn [fold_left]. rewrite ospath_join_comp by assumption.
  rewrite IH.
  - destruct cs as [|c' cs]; [reflexivity|].
    rewrite !join_cons by discriminate. now rewrite !str_app_assoc.
  - destruct acc; [congruence | discriminate].
  - rewrite <- str_app_assoc, endswith_app by now apply comp_not_empty.
    apply endswith_noslash. now apply is_comp_inv in Hc.
Qed.

Lemma join_rooted (la L : list string) :
  Forall (fun c => is_name c = true) la ->
  L <> [] -> Forall (fun c => is_comp c = true) L ->
  OsPath.join (rooted_at 1 la) (Str.join "/" L) = rooted_at 1 (la ++ L).
Proof.
  intros Hla Hne HL. unfold OsPath.join, OsPath.sep.
  rewrite (startswith_sep_join L HL). unfold rooted_at. rewrite repeat_sep_1.
  cbn [append String.length Nat.eqb orb]. destruct la as [|c la].
  - reflexivity.
  - change (String "/" (Str.join "/" (c :: la)))
      with ("/" ++ Str.join "/" (c :: la)).
    rewrite endswith_join; [|discriminate | now apply names_comps].
    rewrite join_app by (discriminate || assumption).
    reflexivity.
Qed.

Lemma Forall_skipn {A} (P : A -> Prop) (n : nat) (l : list A) :
  Forall P l -> Forall P (skipn n l).
Proof.
  revert l. induction n as [|n IH]; intros l H; [assumption|].
  destruct l as [|x l]; [constructor|]. inversion H; subst. now apply IH.
Qed.

(** *** [relpath], then [join] and [normpath], lead back *)

(** The components of [relpath]: up from [la] to the common prefix, then
    down to [lt]. *)
Lemma relpath_form (cwd_ t a : string) (la lt : list string) :
  OsPath.abspath cwd_ t = rooted_at 1 lt ->
  OsPath.abspath cwd_ a = rooted_at 1 la ->
  Forall (fun c => is_name c = true) la ->
  Forall (fun c => is_name c = true) lt ->
  exists rl,
    rl <> [] /\ Forall (fun c => is_comp c = true) rl /\
    OsPath.relpath cwd_ t a = Str.join "/" rl /\
    forall st,
      OsPath.norm_comps 1 rl st
      = OsPath.norm_comps 1
          (repeat ".." (length la - OsPath.common la lt)
           ++ skipn (OsPath.common la lt) lt)%list st.
Proof.
  intros Ht Ha Hla Hlt. unfold OsPath.relpath.
  rewrite (parts_rooted cwd_ a la Ha Hla), (parts_rooted cwd_ t lt Ht Hlt).
  set (i := OsPath.common la lt).
  set (rl := (repeat ".." (length la - i) ++ skipn i lt)%list).
  assert (Hrl : Forall (fun c => is_comp c = true) rl).
  { apply Forall_app. split.
    - apply Forall_forall. intros c Hc. apply repeat_spec in Hc. now subst.
    - now apply names_comps, Forall_skipn. }
  destruct rl as [|c cs] eqn:E.
  - exists ["."]. split; [discriminate|]. split; [now repeat constructor|].
    split; reflexivity.
  - exists (c :: cs). split; [discriminate|]. split; [assumption|].
    split; [|reflexivity].
    inversion Hrl as [|? ? Hc Hcs]; subst. apply fold_join; try assumption.
    + now apply comp_not_empty.
    + apply endswith_noslash. now apply is_comp_inv in Hc.
Qed.

Lemma relpath_resolves (cwd_ t a : string) (la lt : list string) :
  OsPath.abspath cwd_ t = rooted_at 1 lt ->
  OsPath.abspath cwd_ a = rooted_at 1 la ->
  a = rooted_at 1 la ->
  Forall (fun c => is_name c = true) la ->
  Forall (fun c => is_name c = true) lt ->
  OsPath.isabs (OsPath.relpath cwd_ t a) = false /\
  OsPath.normpath (OsPath.join a (OsPath.relpath cwd_ t a)) = rooted_at 1 lt.
Proof.
  intros Ht Ha Haa Hla Hlt.
  destruct (relpath_form cwd_ t a la lt Ht Ha Hla Hlt)
    as (rl & Hne & Hrl & -> & Hnorm).
  split; [now apply startswith_sep_join|].
  rewrite Haa at 1. rewrite join_rooted by assumption.
  rewrite normpath_rooted_at; [|now left|].
  2:{ apply Forall_app. split; [now apply names_comps | assumption]. }
  f_equal. rewrite norm_comps_app, (norm_comps_names 1 la [] Hla).
  rewrite app_nil_r, Hnorm, norm_comps_app.
  rewrite norm_comps_up; [|lia | now apply Forall_rev].
  rewrite norm_comps_names by now apply Forall_skipn.
  rewrite rev_app_distr, rev_involutive, skipn_rev, rev_involutive.
  pose proof (common_le la lt) as Hle.
  replace (length la - (length la - OsPath.common la lt))
    with (OsPath.common la lt) by lia.
  rewrite common_firstn. apply firstn_skipn.
Qed.

End PathStrings.

(** ** The constructor *)

Lemma abspath_abs (cwd_ path : string) :
  OsPath.isabs path = true -> OsPath.abspath cwd_ path = OsPath.normpath path.
Proof. intros H. unfold OsPath.abspath. now rewrite H. Qed.

Lemma isabs_rooted_at (i : nat) (l : list string) :
  i = 1%nat \/ i = 2%nat -> OsPath.isabs (rooted_at i l) = true.
Proof. intros [-> | ->]; reflexivity. Qed.

(** What [abspath] is given to normalise is absolute as soon as the working
    directory is. *)
Lemma abspath_arg_abs (cwd_ path : string) :
  OsPath.isabs cwd_ = true ->
  OsPath.isabs (if OsPath.isabs path then path else OsPath.join cwd_ path)
  = true.
Proof.
  intros Hcwd. destruct (OsPath.isabs path) eqn:E; [assumption|].
  unfold OsPath.join. unfold OsPath.isabs in E. rewrite E.
  assert (Hne : cwd_ <> ""%string) by (intros ->; discriminate).
  assert (Happ : forall x, OsPath.isabs (cwd_ ++ x)%string = true).
  { intros x. unfold OsPath.isabs, OsPath.sep in *.
    rewrite startswith_app; [assumption | assumption | simpl; lia]. }
  destruct (_ || _); apply Happ.
Qed.

Lemma abspath_form (cwd_ path : string) :
  OsPath.isabs cwd_ = true ->
  exists i l,
    (i = 1%nat \/ i = 2%nat) /\
    Forall (fun c => is_name c = true) l /\
    OsPath.abspath cwd_ path = rooted_at i l.
Proof.
  intros Hcwd. unfold OsPath.abspath.
  destruct (normpath_form _ (abspath_arg_abs cwd_ path Hcwd))
    as (i & l & Hi & _ & Hl & Hn).
  exists i, l. auto.
Qed.

Lemma abspath_normal (cwd_ path : string) :
  OsPath.isabs cwd_ = true ->
  OsPath.isabs (OsPath.abspath cwd_ path) = true /\
  OsPath.normpath (OsPath.abspath cwd_ path) = OsPath.abspath cwd_ path.
Proof.
  intros Hcwd. destruct (abspath_form cwd_ path Hcwd) as (i & l & Hi & Hl & ->).
  split; [now apply isabs_rooted_at | now apply normpath_names].
Qed.

(** X1.  [RhpRpyx(path)] builds one new object and changes nothing else;
    when the working directory is absolute, the [absPath] of the object is
    absolute and in normal form, whatever [path] is, and [exists] tells
    whether that path is on disk. *)
Theorem init_normalises (path : string) (s : state) :
  OsPath.isabs (cwd s) = true ->
  let o := fst (Rpyx.init path s) in
  let s' := snd (Rpyx.init path s) in
  o = length (heap s) /\
  heap s' = heap s ++ [obj s' o] /\
  OsPath.isabs (absPath (obj s' o)) = true /\
  OsPath.normpath (absPath (obj s' o)) = absPath (obj s' o) /\
  OsPath.abspath (cwd s') (absPath (obj s' o)) = absPath (obj s' o) /\
  exists_ (obj s' o) = on_disk (absPath (obj s' o)) s /\
  (linksDico (obj s' o) = [] /\ replacementsDico (obj s' o) = [] /\
   fileContent (obj s' o) = None) /\
  (fs s' = fs s /\ cwd s' = cwd s /\ indexByAbsPath s' = indexByAbsPath s /\
   strategy s' = strategy s /\ events s' = events s).
Proof.
  intros Hcwd o s'. unfold o, s'. rewrite init_alloc. cbn [fst snd].
  rewrite obj_alloc_new. cbn [absPath exists_ linksDico replacementsDico
                               fileContent].
  destruct (abspath_normal (cwd s) path Hcwd) as (Habs & Hnorm).
  repeat split; try assumption.
  change (cwd (alloc (OsPath.abspath (cwd s) path) s)) with (cwd s).
  now rewrite abspath_abs.
Qed.

Lemma init_normalises_witness :
  let s := Updater.initial Scenario.one_link "/proj" 0 in
  let o := fst (Rpyx.init "sub/../A.rpyx" s) in
  let s' := snd (Rpyx.init "sub/../A.rpyx" s) in
  o = length (heap s) /\
  heap s' = heap s ++ [obj s' o] /\
  OsPath.isabs (absPath (obj s' o)) = true /\
  OsPath.normpath (absPath (obj s' o)) = absPath (obj s' o) /\
  OsPath.abspath (cwd s') (absPath (obj s' o)) = absPath (obj s' o) /\
  exists_ (obj s' o) = on_disk (absPath (obj s' o)) s /\
  (linksDico (obj s' o) = [] /\ replacementsDico (obj s' o) = [] /\
   fileContent (obj s' o) = None) /\
  (fs s' = fs s /\ cwd s' = cwd s /\ indexByAbsPath s' = indexByAbsPath s /\
   strategy s' = strategy s /\ events s' = events s).
Proof.
  apply (init_normalises "sub/../A.rpyx"
           (Updater.initial Scenario.one_link "/proj" 0)).
  reflexivity.
Defined.

(** ** Replacements keep the target *)

Lemma dict_set_In {V} (k k' : string) (v v' : V) (d : dict V) :
  In (k', v') (dict_set k v d) -> (k' = k /\ v' = v) \/ In (k', v') d.
Proof.
  induction d as [|[k0 v0] d IH]; simpl.
  - intros [[= <- <-]|[]]. now left.
  - destruct (String.eqb_spec k k0) as [->|Hne]; simpl.
    + intros [[= <- <-]|H]; [now left | right; now right].
    + intros [H|H]; [right; now left|].
      destruct (IH H) as [?|?]; [now left | right; now right].
Qed.

(** The entries of [replacementsDico]: the token of an absolute link, with
    the token of the path relative to the file. *)
Lemma build_replacements_entries (c : string) (self : RhpRpyx)
  (links : list string) :
  forall acc old new,
    In (old, new) (Rpyx.build_replacements c self links acc) ->
    In (old, new) acc \/
    exists l, In l links /\ OsPath.isabs l = true /\
              old = Rpyx.rpyxToMatch l /\
              new = Rpyx.rpyxToMatch (OsPath.relpath c l (absPath self)).
Proof.
  induction links as [|l links IH]; intros acc old new H; simpl in H;
    [now left|].
  destruct (OsPath.isabs l) eqn:E; apply IH in H.
  - destruct H as [H|(l' & Hin & Ha & -> & ->)].
    + apply dict_set_In in H. destruct H as [(-> & ->)|H]; [|now left].
      right. exists l. repeat split; [now left | assumption].
    + right. exists l'. repeat split; [now right | assumption].
  - destruct H as [H|(l' & Hin & Ha & -> & ->)]; [now left|].
    right. exists l'. repeat split; [now right | assumption].
Qed.

Lemma relative_link_resolves (cwd_ : string) (self : RhpRpyx)
  (rhpLink : string) :
  single_root rhpLink = true ->
  single_root (absPath self) = true ->
  OsPath.normpath (absPath self) = absPath self ->
  let rel := OsPath.relpath cwd_ rhpLink (absPath self) in
  OsPath.isabs rel = false /\
  Rpyx.joinRelativePath self rel = OsPath.abspath cwd_ rhpLink /\
  target_path cwd_ self rel = target_path cwd_ self rhpLink.
Proof.
  intros Ht Ha Hfix rel.
  assert (Htabs : OsPath.isabs rhpLink = true).
  { unfold single_root in Ht. now apply andb_true_iff in Ht. }
  assert (Haabs : OsPath.isabs (absPath self) = true).
  { unfold single_root in Ha. now apply andb_true_iff in Ha. }
  destruct (normpath_form _ Htabs) as (i & lt & _ & Hi & Hlt & Hnt).
  rewrite (Hi Ht) in Hnt. clear i Hi.
  destruct (normpath_form _ Haabs) as (i & la & _ & Hi & Hla & Hna).
  rewrite (Hi Ha), Hfix in Hna. clear i Hi.
  destruct (relpath_resolves cwd_ rhpLink (absPath self) la lt) as (Hrel & Hres);
    try assumption.
  - now rewrite abspath_abs.
  - now rewrite abspath_abs, Hfix.
  - fold rel in Hrel, Hres.
    assert (Hj : Rpyx.joinRelativePath self rel = OsPath.abspath cwd_ rhpLink).
    { unfold Rpyx.joinRelativePath. now rewrite Hres, abspath_abs. }
    split; [assumption|]. split; [assumption|].
    unfold target_path. rewrite Hrel, Htabs, Hj.
    rewrite !(abspath_abs cwd_ rhpLink Htabs), Hnt.
    rewrite abspath_abs by (apply isabs_rooted_at; now left).
    apply normpath_names; [now left | assumption].
Qed.

(** X3.  Every entry of the [replacementsDico] that [prepareReplacements]
    builds pairs the token of an absolute link of the file with the token
    of a relative path; when the link and the path of the file are absolute
    paths under the single root [/], resolved from the file as
    [getLinkedRpyx] resolves a relative link, the relative path leads to
    the target of the link that it replaces. *)
Theorem replacement_keeps_target (o : oid) (s : state) (old new : string) :
  (o < length (heap s))%nat ->
  single_root (absPath (obj s o)) = true ->
  OsPath.normpath (absPath (obj s o)) = absPath (obj s o) ->
  In (old, new) (replacementsDico (obj (Rpyx.prepareReplacements o s) o)) ->
  exists rhpLink rel,
    In rhpLink (dict_keys (linksDico (obj s o))) /\
    OsPath.isabs rhpLink = true /\
    rel = OsPath.relpath (cwd s) rhpLink (absPath (obj s o)) /\
    old = Rpyx.rpyxToMatch rhpLink /\ new = Rpyx.rpyxToMatch rel /\
    (single_root rhpLink = true ->
     OsPath.isabs rel = false /\
     Rpyx.joinRelativePath (obj s o) rel = OsPath.abspath (cwd s) rhpLink /\
     target_path (cwd s) (obj s o) rel
     = target_path (cwd s) (obj s o) rhpLink).
Proof.
  intros Ho Ha Hfix Hin. unfold Rpyx.prepareReplacements in Hin.
  rewrite obj_set_obj_same in Hin by assumption. cbn [replacementsDico] in Hin.
  apply build_replacements_entries in Hin.
  destruct Hin as [[]|(l & Hl & Habs & -> & ->)].
  exists l, (OsPath.relpath (cwd s) l (absPath (obj s o))).
  repeat split; try assumption; now apply relative_link_resolves.
Qed.

Lemma replacement_keeps_target_witness :
  let s := Scenario.discovered Scenario.relative_seed 0 in
  exists rhpLink rel,
    In rhpLink (dict_keys (linksDico (obj s 1))) /\
    OsPath.isabs rhpLink = true /\
    rel = OsPath.relpath (cwd s) rhpLink (absPath (obj s 1)) /\
    ">/proj/sub/X_rpy<" = Rpyx.rpyxToMatch rhpLink /\
    ">../sub/X_rpy<" = Rpyx.rpyxToMatch rel /\
    (single_root rhpLink = true ->
     OsPath.isabs rel = false /\
     Rpyx.joinRelativePath (obj s 1) rel = OsPath.abspath (cwd s) rhpLink /\
     target_path (cwd s) (obj s 1) rel
     = target_path (cwd s) (obj s 1) rhpLink).
Proof.
  apply (replacement_keeps_target 1
           (Scenario.discovered Scenario.relative_seed 0)).
  - vm_compute. lia.
  - reflexivity.
  - reflexivity.
  - vm_compute. left. reflexivity.
Defined.

(** ** The index *)

Lemma lower_char_twice (a : ascii) :
  Str.lower_char (Str.lower_char a) = Str.lower_char a.
Proof. destruct a as [[] [] [] [] [] [] [] []]; reflexivity. Qed.

Lemma lower_twice (p : string) : Str.lower (Str.lower p) = Str.lower p.
Proof.
  induction p as [|a p IH]; simpl; [reflexivity|].
  now rewrite lower_char_twice, IH.
Qed.

(** X5.  [addIndexedRhpyx] followed by [getIndexedRhpyx]: after an object
    was added, a lookup of its path, in any letter case, finds the object
    that was first registered for that path; an entry of the index is
    never replaced; the other lookups are unchanged; adding the object
    again changes nothing.  Only the index and the log change. *)
Theorem index_add_get (rpyx : oid) (s : state) :
  let s' := Index.addIndexedRhpyx rpyx s in
  let p := absPath (obj s rpyx) in
  (forall q, Str.lower q = Str.lower p ->
     Index.getIndexedRhpyx q s'
     = Some (match Index.getIndexedRhpyx p s with
             | Some first => first
             | None => rpyx
             end)) /\
  (forall q o, Index.getIndexedRhpyx q s = Some o ->
               Index.getIndexedRhpyx q s' = Some o) /\
  (forall q, Str.lower q <> Str.lower p ->
             Index.getIndexedRhpyx q s' = Index.getIndexedRhpyx q s) /\
  (forall q, Index.getIndexedRhpyx (Str.lower q) s'
             = Index.getIndexedRhpyx q s') /\
  Index.addIndexedRhpyx rpyx s' = s' /\
  (heap s' = heap s /\ fs s' = fs s /\ strategy s' = strategy s).
Proof.
  intros s' p. unfold s', Index.addIndexedRhpyx, Index.getIndexedRhpyx.
  fold p. destruct (dict_get (Str.lower p) (indexByAbsPath s)) as [first|] eqn:E.
  - (* already there *)
    split; [intros q ->; exact E|]. split; [auto|]. split; [auto|].
    split; [intros q; now rewrite lower_twice|].
    fold p. rewrite E. auto.
  - set (s1 := set_index _ _).
    assert (Hidx : indexByAbsPath s1
                   = dict_set (Str.lower p) rpyx (indexByAbsPath s))
      by reflexivity.
    split; [|split; [|split; [|split; [|split]]]].
    + intros q ->. rewrite Hidx. apply dict_get_set_same.
    + intros q o Hq. rewrite Hidx, dict_get_set.
      destruct (String.eqb_spec (Str.lower p) (Str.lower q)) as [Heq|_];
        [|assumption]. rewrite <- Heq in Hq. congruence.
    + intros q Hne. rewrite Hidx. apply dict_get_set_other. congruence.
    + intros q. now rewrite lower_twice.
    + change (obj s1 rpyx) with (obj s rpyx). fold p.
      rewrite Hidx, dict_get_set_same. reflexivity.
    + auto.
Qed.

(** ** The scan of the references *)

Lemma contains_cons (sub : string) (a : ascii) (s : string) :
  Str.contains sub (String a s)
  = Str.startswith sub (String a s) || Str.contains sub s.
Proof. reflexivity. Qed.

Lemma greedy_upto_cons (pat : string) (c : ascii) (s : string) :
  Re.greedy_upto pat (String c s)
  = let here := if Str.startswith pat (String c s) then Some pat else None in
    if Str.eqb_char c Re.newline then here
    else match Re.greedy_upto pat s with
         | Some m => Some (String c m)
         | None => here
         end.
Proof. reflexivity. Qed.

Lemma greedy_upto_contains (pat s m : string) :
  Re.greedy_upto pat s = Some m -> Str.contains pat s = true.
Proof.
  revert m. induction s as [|c s IH]; intros m H; [discriminate|].
  rewrite greedy_upto_cons in H. cbv zeta in H. rewrite contains_cons.
  destruct (Str.startswith pat (String c s)); [reflexivity|].
  destruct (Str.eqb_char c Re.newline); [discriminate|].
  destruct (Re.greedy_upto pat s) as [m'|]; [|discriminate].
  rewrite (IH m' eq_refl). apply orb_true_r.
Qed.

Lemma findall_from_cons (skip : nat) (a : ascii) (s : string) :
  Re.findall_from skip (String a s)
  = match skip with
    | S k => Re.findall_from k s
    | O =>
        match Re.match_here (String a s) with
        | Some m => m :: Re.findall_from (Nat.pred (String.length m)) s
        | None => Re.findall_from 0 s
        end
    end.
Proof. reflexivity. Qed.

(** Without the text [_rpy<], no match. *)
Lemma findall_from_none (s : string) :
  Str.contains "_rpy<" s = false -> forall skip, Re.findall_from skip s = [].
Proof.
  induction s as [|a s IH]; intros H skip; [reflexivity|].
  rewrite contains_cons in H. apply orb_false_iff in H. destruct H as (_ & H).
  rewrite findall_from_cons. destruct skip as [|k]; [|now apply IH].
  unfold Re.match_here.
  destruct (Re.greedy_upto "_rpy<" s) as [m|] eqn:E.
  - apply greedy_upto_contains in E. congruence.
  - destruct (Str.eqb_char a ">"); now apply IH.
Qed.

Lemma greedy_upto_shape (s : string) :
  forall m, Re.greedy_upto "_rpy<" s = Some m ->
    Str.startswith m s = true /\
    exists body, m = (body ++ "_rpy<")%string /\
                 Str.contains (String Re.newline "") body = false.
Proof.
  induction s as [|c s IH]; intros m H; [discriminate|].
  rewrite greedy_upto_cons in H. cbv zeta in H.
  assert (Hhere : (if Str.startswith "_rpy<" (String c s)
                   then Some "_rpy<"%string else None) = Some m ->
                  Str.startswith m (String c s) = true /\
                  exists body, m = (body ++ "_rpy<")%string /\
                    Str.contains (String Re.newline "") body = false).
  { destruct (Str.startswith "_rpy<" (String c s)) eqn:E; [|discriminate].
    intros [= <-]. split; [assumption|]. now exists ""%string. }
  destruct (Str.eqb_char c Re.newline) eqn:Ec; [now apply Hhere|].
  destruct (Re.greedy_upto "_rpy<" s) as [m'|]; [|now apply Hhere].
  injection H as <-. destruct (IH m' eq_refl) as (Hp & body & -> & Hb).
  split.
  - change (Str.eqb_char c c && Str.startswith (body ++ "_rpy<") s = true).
    now rewrite eqb_char_refl.
  - exists (String c body). split; [reflexivity|].
    rewrite contains_cons, Hb.
    change (Str.startswith (String Re.newline "") (String c body))
      with (Str.eqb_char Re.newline c && true).
    now rewrite eqb_char_sym, Ec.
Qed.

Lemma findall_from_sound (s : string) :
  forall skip m, In m (Re.findall_from skip s) ->
    Str.contains m s = true /\
    exists body, m = (">" ++ body ++ "_rpy<")%string /\
                 Str.contains (String Re.newline "") body = false.
Proof.
  induction s as [|a s IH]; intros skip m H; [contradiction|].
  rewrite findall_from_cons in H. rewrite contains_cons.
  assert (Hrest : forall k, In m (Re.findall_from k s) ->
            Str.startswith m (String a s) || Str.contains m s = true /\
            exists body, m = (">" ++ body ++ "_rpy<")%string /\
                         Str.contains (String Re.newline "") body = false).
  { intros k Hk. destruct (IH k m Hk) as (-> & Hb).
    split; [apply orb_true_r | assumption]. }
  destruct skip as [|k]; [|now apply (Hrest k)].
  unfold Re.match_here in H.
  destruct (Str.eqb_char a ">") eqn:Ea; [|now apply (Hrest 0%nat)].
  destruct (Re.greedy_upto "_rpy<" s) as [m'|] eqn:Eg;
    [|now apply (Hrest 0%nat)].
  cbn [option_map] in H. destruct H as [<-|H]; [|now apply (Hrest _ H)].
  apply eqb_char_eq in Ea. subst a.
  destruct (greedy_upto_shape s m' Eg) as (Hp & body & -> & Hb).
  split.
  - change (Str.startswith (String ">" (body ++ "_rpy<")) (String ">" s))
      with (Str.eqb_char ">" ">" && Str.startswith (body ++ "_rpy<") s).
    now rewrite eqb_char_refl, Hp.
  - now exists body.
Qed.

(** X7.  The links that [getLinkedRpyx] returns come from the text of the
    file: each key of the dictionary is [matchToRpyx] of a piece of the
    content read, which is also recorded in [fileContent]; the piece starts
    with [>], ends with [_rpy<] and lies within one line. *)
Theorem links_come_from_content (q : oid) (s : state) (d : dict oid)
  (s1 : state) (rhpLink : string) :
  (q < length (heap s))%nat ->
  Rpyx.getLinkedRpyx q s = (Ok d, s1) ->
  In rhpLink (dict_keys d) ->
  exists content body,
    content_of (absPath (obj s q)) s = Some content /\
    fileContent (obj s1 q) = Some content /\
    Str.contains (">" ++ body ++ "_rpy<")%string content = true /\
    Str.contains (String Re.newline "") body = false /\
    rhpLink = Rpyx.matchToRpyx (">" ++ body ++ "_rpy<")%string.
Proof.
  intros Hq Hget Hin.
  destruct (getLinkedRpyx_ok q s d s1 Hget Hq)
    as (nd & Hnd & _ & Hs1 & _ & Hkeys & _).
  apply Hkeys in Hin. unfold links_of in Hin. apply in_map_iff in Hin.
  destruct Hin as (m & <- & Hm).
  destruct (findall_from_sound _ _ _ Hm) as (Hc & body & -> & Hb).
  exists (data nd), body. split; [unfold content_of; now rewrite Hnd|].
  split; [|auto]. cbv zeta in Hs1. rewrite Hs1. unfold obj. cbn [heap].
  rewrite app_nth1 by now rewrite list_set_length.
  now rewrite nth_list_set_same.
Qed.

Lemma links_come_from_content_witness :
  let s := snd (Rpyx.init "/proj/A.rpyx"
                  (Updater.initial Scenario.one_link "/proj" 0)) in
  exists content body,
    content_of (absPath (obj s 0)) s = Some content /\
    fileContent (obj (snd (Rpyx.getLinkedRpyx 0 s)) 0) = Some content /\
    Str.contains (">" ++ body ++ "_rpy<")%string content = true /\
    Str.contains (String Re.newline "") body = false /\
    "/proj/sub/X.rpyx"%string = Rpyx.matchToRpyx (">" ++ body ++ "_rpy<")%string.
Proof.
  apply (links_come_from_content 0
           (snd (Rpyx.init "/proj/A.rpyx"
                   (Updater.initial Scenario.one_link "/proj" 0)))
           [("/proj/sub/X.rpyx"%string, 1%nat)]).
  - vm_compute. lia.
  - vm_compute. reflexivity.
  - vm_compute. left. reflexivity.
Defined.

Lemma update_cons (fuel : nat) (path : string) (rest : list string) (s : state) :
  Updater.update fuel (path :: rest) s
  = match Updater.process_seed fuel path s with
    | (Ok _, s') => Updater.update fuel rest s'
    | (Raise e, s') => (Raise e, s')
    end.
Proof.
  unfold Updater.update, bind. cbn [for_each]. unfold bind.
  destruct (Updater.process_seed fuel path s) as [[[]|e] s']; reflexivity.
Qed.

Lemma process_seed_unfold (fuel : nat) (path : string) (s : state) :
  let p := OsPath.abspath (cwd s) path in
  let s2 := alloc p (emit (applying path) s) in
  Updater.process_seed fuel path s
  = if on_disk p s then Updater.searchLinks fuel (length (heap s)) (-1) s2
    else (Ok tt, logging_log WARNING (p ++ " does not exist")%string s2).
Proof.
  intros p s2. unfold Updater.process_seed, bind, lift.
  rewrite init_alloc. cbn [fst snd].
  change (cwd (logging_log INFO _ s)) with (cwd s). fold p.
  change (length (heap (logging_log INFO _ s))) with (length (heap s)).
  change (logging_log INFO _ s) with (emit (applying path) s). fold s2.
  assert (Hobj : obj s2 (length (heap s)) = mkRhpRpyx p (on_disk p s) [] [] None)
    by apply (obj_alloc_new p (emit (applying path) s)).
  rewrite Hobj. cbn [exists_ absPath]. now destruct (on_disk p s).
Qed.

Lemma getLinkedRpyx_unreadable (q : oid) (s : state) (nd : node) :
  dict_get (absPath (obj s q)) (fs s) = Some nd -> readable nd = false ->
  Rpyx.getLinkedRpyx q s
  = (Raise (IOError (absPath (obj s q))),
     logging_log ERROR ("Error reading file " ++ absPath (obj s q))%string s).
Proof. intros H1 H2. unfold Rpyx.getLinkedRpyx. now rewrite H1, H2. Qed.

Lemma getLinkedRpyx_no_reference (q : oid) (s : state) (nd : node) :
  dict_get (absPath (obj s q)) (fs s) = Some nd -> readable nd = true ->
  Str.contains "_rpy<" (data nd) = false ->
  Rpyx.getLinkedRpyx q s
  = (Ok [], emit (EvRead (absPath (obj s q)))
              (set_obj q (with_content (obj s q) (data nd)) s)).
Proof.
  intros H1 H2 H3. unfold Rpyx.getLinkedRpyx. rewrite H1, H2.
  unfold Re.findall. rewrite findall_from_none by assumption. reflexivity.
Qed.

Lemma list_set_last {A} (x y : A) (l : list A) :
  list_set (length l) x (l ++ [y]) = l ++ [x].
Proof. induction l as [|z l IH]; simpl; [reflexivity | now rewrite IH]. Qed.

Lemma tallied_nothing (st : RelativePathReplacementStrategy) (r : RhpRpyx) :
  linksDico r = [] -> replacementsDico r = [] -> tallied st r = st.
Proof.
  intros H1 H2. unfold tallied. rewrite H1, H2. cbn [length Z.of_nat Z.leb].
  destruct st. cbn. f_equal; lia.
Qed.

(** The step of the traversal on a file without reference. *)
Lemma discover_no_reference (q : oid) (s : state) (p : string) (on : bool)
  (nd : node) :
  (q < length (heap s))%nat ->
  obj s q = mkRhpRpyx p on [] [] None ->
  dict_get p (fs s) = Some nd -> readable nd = true ->
  Str.contains "_rpy<" (data nd) = false ->
  discover q s
  = (Ok [],
     mkState (fs s) (cwd s)
       (list_set q (mkRhpRpyx p on [] [] (Some (data nd))) (heap s))
       (indexByAbsPath s) (strategy s)
       (events s ++ [EvRead p; EvCount p; EvLog INFO ("Links of " ++ p)%string])).
Proof.
  intros Hq Hobj Hnd Hr Hc. unfold discover, bind, lift, ret.
  rewrite (getLinkedRpyx_no_reference q s nd); rewrite ?Hobj; try assumption.
  cbn [Updater.index_links absPath]. unfold with_content.
  cbn [absPath exists_ linksDico replacementsDico].
  set (r := mkRhpRpyx p on [] [] (Some (data nd))).
  set (s3 := emit _ _).
  assert (Hq3 : (q < length (heap s3))%nat).
  { unfold s3. cbn [heap emit set_obj set_heap]. now rewrite list_set_length. }
  assert (Hobj3 : obj s3 q = r).
  { unfold s3. rewrite obj_emit. now apply obj_set_obj_same. }
  rewrite trace_spec, prepareAndCountReplacements_spec by assumption.
  rewrite Hobj3.
  assert (Hprep : prepared (cwd s3) r = r) by reflexivity.
  rewrite Hprep. cbn [fs cwd heap indexByAbsPath strategy events].
  assert (Hobj4 : forall st, heap st = list_set q r (heap s3) -> obj st q = r).
  { intros st Hst. unfold obj. rewrite Hst. now apply nth_list_set_same. }
  unfold Rpyx.trace_lines.
  repeat match goal with
         | |- context [obj ?st q] =>
             lazymatch st with
             | s3 => fail
             | _ => rewrite (Hobj4 st eq_refl)
             end
         end.
  cbn [linksDico map absPath]. rewrite tallied_nothing by reflexivity.
  f_equal. f_equal.
  - unfold s3. cbn [heap emit set_obj set_heap]. apply list_set_twice.
  - unfold s3. cbn [events emit set_obj set_heap]. now rewrite <- !app_assoc.
Qed.

(** X9.  A path of [rpyxPathToProcessList] whose file has no reference (its
    content is without the text [_rpy<]): the file is read and tallied,
    nothing is indexed, the counts of the strategy stay as they were, and
    [update] goes on with the next path. *)
Theorem path_without_reference (fuel : nat) (path : string)
  (rest : list string) (s : state) (nd : node) :
  let p := OsPath.abspath (cwd s) path in
  dict_get p (fs s) = Some nd -> readable nd = true ->
  Str.contains "_rpy<" (data nd) = false ->
  Updater.update (S fuel) (path :: rest) s
  = Updater.update (S fuel) rest
      (mkState (fs s) (cwd s)
         (heap s ++ [mkRhpRpyx p true [] [] (Some (data nd))])
         (indexByAbsPath s) (strategy s)
         (events s ++ [applying path; EvRead p; EvCount p;
                       EvLog INFO ("Links of " ++ p)%string])).
Proof.
  intros p Hnd Hr Hc. rewrite update_cons, process_seed_unfold. fold p.
  unfold on_disk. rewrite Hnd.
  set (s2 := alloc p (emit (applying path) s)).
  set (q := length (heap s)).
  assert (Hobj : obj s2 q = mkRhpRpyx p true [] [] None).
  { unfold s2, q.
    change (length (heap s)) with (length (heap (emit (applying path) s))).
    rewrite obj_alloc_new. unfold on_disk. cbn [fs emit]. now rewrite Hnd. }
  assert (Hq : (q < length (heap s2))%nat).
  { unfold s2. rewrite heap_alloc_length. cbn [heap emit]. unfold q. lia. }
  rewrite searchLinks_unfold. unfold bind.
  rewrite (discover_no_reference q s2 p true nd Hq Hobj Hnd Hr Hc).
  cbn [Z.eqb for_each]. unfold ret. f_equal. f_equal.
  - unfold s2, q. cbn [heap alloc emit set_heap]. apply list_set_last.
  - unfold s2. cbn [events alloc emit set_heap]. now rewrite <- !app_assoc.
Qed.

Lemma path_without_reference_witness :
  Updater.update 3 ["sub/X.rpyx"; "A.rpyx"]%string
    (Updater.initial Scenario.one_link "/proj" 0)
  = Updater.update 3 ["A.rpyx"%string]
      (mkState Scenario.one_link "/proj"
         [mkRhpRpyx "/proj/sub/X.rpyx" true [] [] (Some Scenario.X_content)]
         [] (Strategy.init 0)
         [applying "sub/X.rpyx"; EvRead "/proj/sub/X.rpyx";
          EvCount "/proj/sub/X.rpyx";
          EvLog INFO "Links of /proj/sub/X.rpyx"]).
Proof.
  apply (path_without_reference 2 "sub/X.rpyx" ["A.rpyx"%string]
           (Updater.initial Scenario.one_link "/proj" 0)
           (plain Scenario.X_content)); reflexivity.
Defined.

(** X10.  A path of [rpyxPathToProcessList] that is not on disk is skipped:
    an object is built for it, one record at level [WARNING] is logged,
    nothing is read, indexed or counted, and [update] goes on with the
    next path. *)
Theorem missing_path_skipped (fuel : nat) (path : string)
  (rest : list string) (s : state) :
  let p := OsPath.abspath (cwd s) path in
  dict_get p (fs s) = None ->
  Updater.update fuel (path :: rest) s
  = Updater.update fuel rest
      (mkState (fs s) (cwd s) (heap s ++ [mkRhpRpyx p false [] [] None])
         (indexByAbsPath s) (strategy s)
         (events s ++ [applying path;
                       EvLog WARNING (p ++ " does not exist")%string])).
Proof.
  intros p Hnd. rewrite update_cons, process_seed_unfold. fold p.
  unfold on_disk. rewrite Hnd. f_equal.
  unfold logging_log, alloc, on_disk. cbn [fs emit]. rewrite Hnd.
  unfold emit, set_heap.
  cbn [fs cwd heap indexByAbsPath strategy events]. now rewrite <- !app_assoc.
Qed.

Lemma missing_path_skipped_witness :
  Updater.update 3 ["Z.rpyx"; "A.rpyx"]%string
    (Updater.initial Scenario.one_link "/proj" 0)
  = Updater.update 3 ["A.rpyx"%string]
      (mkState Scenario.one_link "/proj"
         [mkRhpRpyx "/proj/Z.rpyx" false [] [] None] [] (Strategy.init 0)
         [applying "Z.rpyx"; EvLog WARNING "/proj/Z.rpyx does not exist"]).
Proof.
  apply (missing_path_skipped 3 "Z.rpyx" ["A.rpyx"%string]
           (Updater.initial Scenario.one_link "/proj" 0)).
  reflexivity.
Defined.

(** X11.  A path of [rpyxPathToProcessList] that is on disk but cannot be
    read (a directory, a file without permission) stops the run: [update]
    raises the [IOError] of [open] after one record at level [ERROR]; the
    paths that follow are not processed and the second loop, which writes,
    is not run. *)
Theorem unreadable_path_aborts (fuel : nat) (path : string)
  (rest : list string) (s : state) (nd : node) :
  let p := OsPath.abspath (cwd s) path in
  dict_get p (fs s) = Some nd -> readable nd = false ->
  Updater.update (S fuel) (path :: rest) s
  = (Raise (IOError p),
     mkState (fs s) (cwd s) (heap s ++ [mkRhpRpyx p true [] [] None])
       (indexByAbsPath s) (strategy s)
       (events s ++ [applying path;
                     EvLog ERROR ("Error reading file " ++ p)%string])).
Proof.
  intros p Hnd Hr. rewrite update_cons, process_seed_unfold. fold p.
  unfold on_disk. rewrite Hnd.
  set (s2 := alloc p (emit (applying path) s)).
  set (q := length (heap s)).
  assert (Hobj : obj s2 q = mkRhpRpyx p true [] [] None).
  { unfold s2, q.
    change (length (heap s)) with (length (heap (emit (applying path) s))).
    rewrite obj_alloc_new. unfold on_disk. cbn [fs emit]. now rewrite Hnd. }
  rewrite searchLinks_unfold. unfold bind, discover, bind.
  rewrite (getLinkedRpyx_unreadable q s2 nd); rewrite ?Hobj; try assumption.
  cbn [absPath]. f_equal.
  unfold logging_log, s2, alloc, on_disk. cbn [fs emit]. rewrite Hnd.
  unfold emit, set_heap.
  cbn [fs cwd heap indexByAbsPath strategy events]. now rewrite <- !app_assoc.
Qed.

Lemma unreadable_path_aborts_witness :
  Updater.update 3 ["sub"; "A.rpyx"]%string
    (Updater.initial [("/proj/sub"%string, mkNode "" false false);
                      ("/proj/A.rpyx"%string, plain "")] "/proj" 1)
  = (Raise (IOError "/proj/sub"),
     mkState [("/proj/sub"%string, mkNode "" false false);
              ("/proj/A.rpyx"%string, plain "")] "/proj"
       [mkRhpRpyx "/proj/sub" true [] [] None] [] (Strategy.init 1)
       [applying "sub"; EvLog ERROR "Error reading file /proj/sub"]).
Proof.
  apply (unreadable_path_aborts 2 "sub" ["A.rpyx"%string]
           (Updater.initial [("/proj/sub"%string, mkNode "" false false);
                             ("/proj/A.rpyx"%string, plain "")] "/proj" 1)
           (mkNode "" false false)); reflexivity.
Defined.

(** ** Further invariants of the traversal *)

Section Along.

Variable disk : dict node.
Variable cwd_ : string.
Variable cap : Z.
Variable seeds : list string.

Lemma dinv_log (n : nat) (P : list oid) (level : Z) (msg : string) (s : state) :
  dinv disk cwd_ cap seeds n P s ->
  dinv disk cwd_ cap seeds n P (logging_log level msg s).
Proof.
  intros (A & HP & Hn). split; [now apply ainv_log|]. split; [|exact Hn].
  apply (pinv_frame seeds P s _ (a_w _ _ _ _ A)); try reflexivity;
    try assumption.
  simpl. rewrite reads_app. simpl. now rewrite app_nil_r.
Qed.

(** The object built for a path to process, once queued. *)
Lemma seed_queued (n : nat) (p : string) (s : state) :
  In (identity p) seeds ->
  dinv disk cwd_ cap seeds n [] s -> on_disk p s = true ->
  dinv disk cwd_ cap seeds n [length (heap s)] (alloc p s).
Proof.
  intros Hseed (A & HP & Hn) Hon.
  set (s2 := alloc p s). set (q := length (heap s)).
  assert (W2 : winv s2) by (apply winv_alloc, (a_w _ _ _ _ A)).
  assert (A2 : ainv disk cwd_ cap s2).
  { destruct A as [W F C K U]. now constructor. }
  assert (Hobj2 : obj s2 q = mkRhpRpyx p (on_disk p s) [] [] None)
    by apply obj_alloc_new.
  assert (HP2 : pinv seeds [] s2).
  { apply (pinv_frame seeds [] s s2 (a_w _ _ _ _ A)); try reflexivity;
      try assumption.
    - intros o Ho. unfold s2. now rewrite obj_alloc_old.
    - unfold s2. rewrite heap_alloc_length. lia. }
  split; [assumption|]. split; [|exact Hn].
  destruct HP2 as [P1 P2 P3 P4]. constructor.
  - intros o [<-|[]]. rewrite Hobj2. cbn [fileContent exists_].
    assert (Hl2 : length (heap s2) = Datatypes.S q) by apply heap_alloc_length.
    split; [lia|]. split; [reflexivity | assumption].
  - repeat constructor. intros [].
  - intros o [<-|[]]. left. rewrite Hobj2. exact Hseed.
  - intros k Hk. specialize (P4 k Hk).
    destruct (dict_get k (indexByAbsPath s2)) as [o|] eqn:E; [|assumption].
    simpl. destruct (Nat.eq_dec q o) as [<-|_]; [|assumption].
    exfalso. apply (w_index s (a_w _ _ _ _ A)) in E. unfold q in E. lia.
Qed.

Variable J : state -> Prop.
(** What holds in the state in which the traversal was left by an
    exception. *)
Variable Jr : state -> Prop.

Hypothesis J_applying : forall path s, J s -> J (emit (applying path) s).
Hypothesis J_missing : forall p s,
  on_disk p s = false -> J s ->
  J (logging_log WARNING (p ++ " does not exist")%string s).
Hypothesis J_error : forall msg s, J s -> Jr (logging_log ERROR msg s).
Hypothesis J_alloc : forall path s,
  ainv disk cwd_ cap s -> J s -> J (alloc (OsPath.abspath cwd_ path) s).
Hypothesis J_discover : forall n q P s queue s',
  dinv disk cwd_ cap seeds n (q :: P) s -> J s ->
  discover q s = (Ok queue, s') -> J s'.

Lemma searchLinks_along (n fuel : nat) (q : oid) (P : list oid)
  (maxDepth : Z) (s : state) :
  (maxDepth < 0)%Z -> dinv disk cwd_ cap seeds n (q :: P) s -> J s ->
  along J Jr (Updater.searchLinks fuel q maxDepth s).
Proof.
  intros Hd HI HJ.
  pose proof (searchLinks_rule
                (fun P s => dinv disk cwd_ cap seeds n P s /\ J s)
                (fun e s => e = OutOfFuel \/ Jr s)) as Hrule.
  assert (Hpost : post (fun P s => dinv disk cwd_ cap seeds n P s /\ J s)
                       (fun e s => e = OutOfFuel \/ Jr s) P
                       (Updater.searchLinks fuel q maxDepth s)).
  { apply Hrule; [| | |assumption|now split].
    - intros q' P' s' queue s'' (HI' & HJ') Hdisc. split.
      + eapply dinv_step_ok; eassumption.
      + eapply J_discover; eassumption.
    - intros q' P' s' e s'' (HI' & HJ') Hdisc. apply discover_raise in Hdisc.
      destruct Hdisc as (_ & -> & _). right. now apply J_error.
    - intros q' P' s' (_ & HJ'). now left. }
  unfold along.
  destruct (Updater.searchLinks fuel q maxDepth s) as [[[]|e] s']; simpl in *;
    [exact (proj2 Hpost) | exact Hpost].
Qed.

Lemma process_seed_along (n fuel : nat) (path : string) (s : state) :
  In (identity (OsPath.abspath cwd_ path)) seeds ->
  dinv disk cwd_ cap seeds n [] s -> J s ->
  along J Jr (Updater.process_seed fuel path s).
Proof.
  intros Hseed HI HJ. rewrite process_seed_unfold.
  assert (Hcwd : cwd s = cwd_) by apply (a_cwd _ _ _ _ (proj1 HI)).
  rewrite Hcwd. set (p := OsPath.abspath cwd_ path) in *.
  set (s1 := emit (applying path) s).
  assert (HI1 : dinv disk cwd_ cap seeds n [] s1) by now apply dinv_log.
  assert (HJ2 : J (alloc p s1)).
  { apply J_alloc; [exact (proj1 HI1) | now apply J_applying]. }
  destruct (on_disk p s) eqn:Hon.
  - apply (searchLinks_along n fuel (length (heap s1)) []); [lia | | assumption].
    now apply seed_queued.
  - cbn [along]. now apply J_missing.
Qed.

Lemma for_each_seeds_along (n fuel : nat) (paths : list string) :
  incl (seed_identities cwd_ paths) seeds ->
  (length disk < fuel)%nat ->
  forall s, dinv disk cwd_ cap seeds n [] s -> J s ->
            along J Jr (for_each paths (Updater.process_seed fuel) s).
Proof.
  intros Hincl Hfuel. induction paths as [|path paths IH]; intros s HI HJ;
    [assumption|].
  cbn [for_each]. unfold bind.
  assert (Hseed : In (identity (OsPath.abspath cwd_ path)) seeds)
    by (apply Hincl; now left).
  pose proof (process_seed_dinv disk cwd_ cap seeds n fuel path s Hseed HI Hfuel)
    as Hp.
  pose proof (process_seed_along n fuel path s Hseed HI HJ) as HJ1.
  destruct (Updater.process_seed fuel path s) as [[[]|e] s1]; simpl in *.
  - apply IH; [|assumption|assumption]. intros k Hk. apply Hincl. now right.
  - assumption.
Qed.

End Along.

(** A run is a traversal followed by the second loop of [update]. *)
Lemma main_split (disk : dict node) (cwd_ : string) (cap : Z)
  (paths : list string) :
  Updater.main disk cwd_ cap paths
  = match for_each paths (Updater.process_seed (Updater.enough disk))
            (Updater.initial disk cwd_ cap) with
    | (Ok _, sd) => Updater.apply_all sd
    | (Raise e, sd) => (Raise e, sd)
    end.
Proof.
  unfold Updater.main, Updater.update, bind.
  destruct (for_each paths _ _) as [[[]|e] sd]; reflexivity.
Qed.

(** What holds when the traversal of a run ends, and when it raises. *)
Lemma traversal_post (disk : dict node) (cwd_ : string) (cap : Z)
  (paths : list string) (J Jr : state -> Prop) :
  (forall path s, J s -> J (emit (applying path) s)) ->
  (forall p s, on_disk p s = false -> J s ->
               J (logging_log WARNING (p ++ " does not exist")%string s)) ->
  (forall msg s, J s -> Jr (logging_log ERROR msg s)) ->
  (forall path s, ainv disk cwd_ cap s -> J s ->
                  J (alloc (OsPath.abspath cwd_ path) s)) ->
  (forall n q P s queue s',
     dinv disk cwd_ cap (seed_identities cwd_ paths) n (q :: P) s -> J s ->
     discover q s = (Ok queue, s') -> J s') ->
  J (Updater.initial disk cwd_ cap) ->
  let rs := for_each paths (Updater.process_seed (Updater.enough disk))
              (Updater.initial disk cwd_ cap) in
  match rs with
  | (Ok _, sd) => J sd
  | (Raise _, sd) => Jr sd
  end /\ ainv disk cwd_ cap (snd rs).
Proof.
  intros Hlog Hmiss Herr Halloc Hdisc H0 rs.
  pose proof (for_each_seeds_along disk cwd_ cap (seed_identities cwd_ paths)
                J Jr Hlog Hmiss Herr Halloc Hdisc (length disk)
                (Updater.enough disk)
                paths (fun k Hk => Hk) ltac:(unfold Updater.enough; lia)
                (Updater.initial disk cwd_ cap)
                (initial_dinv disk cwd_ cap _) H0) as Halong.
  pose proof (for_each_seeds disk cwd_ cap (seed_identities cwd_ paths)
                (length disk) (Updater.enough disk) paths
                (fun k Hk => Hk) ltac:(unfold Updater.enough; lia)
                (Updater.initial disk cwd_ cap)
                (initial_dinv disk cwd_ cap _)) as Hseeds.
  fold rs in Halong, Hseeds. destruct rs as [[[]|e] sd]; simpl in *.
  - split; [assumption | exact (proj1 Hseeds)].
  - destruct Hseeds as (A & p & nd & -> & _). split; [|assumption].
    destruct Halong as [?|?]; [discriminate | assumption].
Qed.

(** The same for what holds whether or not the traversal raised. *)
Lemma traversal_along (disk : dict node) (cwd_ : string) (cap : Z)
  (paths : list string) (J : state -> Prop) :
  (forall level msg s, J s -> J (logging_log level msg s)) ->
  (forall path s, ainv disk cwd_ cap s -> J s ->
                  J (alloc (OsPath.abspath cwd_ path) s)) ->
  (forall n q P s queue s',
     dinv disk cwd_ cap (seed_identities cwd_ paths) n (q :: P) s -> J s ->
     discover q s = (Ok queue, s') -> J s') ->
  J (Updater.initial disk cwd_ cap) ->
  let rs := for_each paths (Updater.process_seed (Updater.enough disk))
              (Updater.initial disk cwd_ cap) in
  J (snd rs) /\ ainv disk cwd_ cap (snd rs).
Proof.
  intros Hlog Halloc Hdisc H0 rs.
  destruct (traversal_post disk cwd_ cap paths J J) as (H & A); auto.
  { intros path s. apply Hlog. }
  fold rs in H, A. split; [|assumption].
  now destruct rs as [[[]|e] sd].
Qed.

(** ** The paths of the objects *)

Lemma discover_reads (q : oid) (s : state) (queue : list oid) (s' : state) :
  (q < length (heap s))%nat -> discover q s = (Ok queue, s') ->
  reads (events s') = reads (events s) ++ [absPath (obj s q)].
Proof.
  intros Hq Hdisc.
  destruct (discover_ok _ _ _ _ Hdisc Hq) as (nd & L' & news & _ & Hs3 & _).
  rewrite Hs3 at 1. cbn [events]. rewrite reads_app. f_equal. cbn [reads flat_map].
  rewrite flat_map_app. cbn [flat_map].
  change (flat_map _ (map adding news)) with (reads (map adding news)).
  change (flat_map _ (map log_line ?l)) with (reads (map log_line l)).
  rewrite (reads_only_logs (map adding news)) by apply only_logs_adding.
  rewrite reads_only_logs by apply only_logs_lines. reflexivity.
Qed.

Lemma paths_normal_discover (disk : dict node) (cwd_ : string) (cap : Z)
  (seeds : list string) (n : nat) (q : oid) (P : list oid) (s : state)
  (queue : list oid) (s' : state) :
  OsPath.isabs cwd_ = true ->
  dinv disk cwd_ cap seeds n (q :: P) s -> paths_normal s ->
  discover q s = (Ok queue, s') -> paths_normal s'.
Proof.
  intros Hcwd (A & HP & _) HJ Hdisc.
  destruct (p_fresh _ _ _ HP q (or_introl eq_refl)) as (Hq & _).
  destruct (discover_ok _ _ _ _ Hdisc Hq)
    as (nd & L' & news & _ & _ & _ & _ & _ & _ & _ & Hlen & Hold & Hnew & Hself).
  intros o Ho. destruct (Nat.lt_ge_cases o (length (heap s))) as [Holder|Hnewer].
  - destruct (Nat.eq_dec o q) as [->|Hne].
    + rewrite Hself. now apply HJ.
    + rewrite Hold by assumption. now apply HJ.
  - destruct (Hnew o (conj Hnewer Ho)) as (tok & _ & ->).
    unfold candidate, target_path. cbn [absPath].
    rewrite (a_cwd _ _ _ _ A). now apply abspath_normal.
Qed.

(** X2.  In a run started from an absolute working directory, every object
    has an absolute path in normal form, so that [Path(absPath).absolute()]
    is [absPath] itself, and its [exists] flag tells whether that path was
    on disk when the run began. *)
Theorem run_paths_normal (disk : dict node) (cwd_ : string) (cap : Z)
  (paths : list string) (o : oid) :
  let s := snd (Updater.main disk cwd_ cap paths) in
  OsPath.isabs cwd_ = true ->
  (o < length (heap s))%nat ->
  OsPath.isabs (absPath (obj s o)) = true /\
  OsPath.normpath (absPath (obj s o)) = absPath (obj s o) /\
  OsPath.abspath cwd_ (absPath (obj s o)) = absPath (obj s o) /\
  (exists_ (obj s o) = true <-> dict_get (absPath (obj s o)) disk <> None).
Proof.
  intros s Hcwd Ho.
  destruct (traversal_along disk cwd_ cap paths paths_normal) as (HJ & A).
  - intros level msg s0 H. exact H.
  - intros path s0 A0 H o' Ho'. rewrite heap_alloc_length in Ho'.
    destruct (Nat.eq_dec o' (length (heap s0))) as [->|Hne].
    + rewrite obj_alloc_new. cbn [absPath]. now apply abspath_normal.
    + rewrite obj_alloc_old by lia. apply H. lia.
  - intros n q P s0 queue s' HI H Hdisc.
    eapply paths_normal_discover; eassumption.
  - intros o' Ho'. simpl in Ho'. lia.
  - assert (Hheap : heap s = heap (snd (for_each paths
                       (Updater.process_seed (Updater.enough disk))
                       (Updater.initial disk cwd_ cap)))).
    { unfold s. rewrite main_split.
      destruct (for_each paths _ _) as [[[]|e] sd]; [|reflexivity].
      cbn [snd] in *. destruct (apply_all_applied sd (a_w _ _ _ _ A))
        as (l & Ap & _). exact (ap_heap _ _ _ Ap). }
    set (sd := snd (for_each paths _ _)) in *.
    assert (Hobj : obj s o = obj sd o) by (unfold obj; now rewrite Hheap).
    rewrite Hheap in Ho. rewrite Hobj. destruct (HJ o Ho) as (Habs & Hnorm).
    split; [assumption|]. split; [assumption|]. split.
    + now rewrite abspath_abs.
    + rewrite (w_exists sd (a_w _ _ _ _ A) o Ho). unfold on_disk.
      rewrite (a_fs _ _ _ _ A).
      destruct (dict_get (absPath (obj sd o)) disk); split; congruence.
Qed.

Lemma run_paths_normal_witness :
  let s := snd (Updater.main Scenario.relative_seed "/proj" 1 Scenario.seeds) in
  OsPath.isabs (absPath (obj s 1)) = true /\
  OsPath.normpath (absPath (obj s 1)) = absPath (obj s 1) /\
  OsPath.abspath "/proj" (absPath (obj s 1)) = absPath (obj s 1) /\
  (exists_ (obj s 1) = true
   <-> dict_get (absPath (obj s 1)) Scenario.relative_seed <> None).
Proof.
  apply (run_paths_normal Scenario.relative_seed "/proj" 1 Scenario.seeds 1).
  - reflexivity.
  - vm_compute. lia.
Defined.

(** ** The count of the files with replacements *)

Lemma counted_discover (disk : dict node) (cwd_ : string) (cap : Z)
  (seeds : list string) (n : nat) (q : oid) (P : list oid) (s : state)
  (queue : list oid) (s' : state) :
  dinv disk cwd_ cap seeds n (q :: P) s -> counted s ->
  discover q s = (Ok queue, s') -> counted s'.
Proof.
  intros (A & HP & _) (HJ1 & HJ2) Hdisc.
  destruct (p_fresh _ _ _ HP q (or_introl eq_refl)) as (Hq & Hnone & _).
  destruct (w_blank s (a_w _ _ _ _ A) q Hq Hnone) as (_ & Hr0).
  pose proof (discover_reads q s queue s' Hq Hdisc) as Hreads.
  destruct (discover_ok _ _ _ _ Hdisc Hq)
    as (nd & L' & news & _ & Hs3 & _).
  set (self3 := prepared (cwd s)
                  (with_links (with_content (obj s q) (data nd)) L')) in *.
  assert (Hcount : fileUpdatedCount (strategy s')
                   = (fileUpdatedCount (strategy s)
                      + Z.of_nat (holds_replacements self3))%Z).
  { rewrite Hs3. cbn [strategy tallied fileUpdatedCount].
    unfold holds_replacements. destruct (replacementsDico self3) as [|e l].
    - cbn. lia.
    - destruct (Z.leb_spec 1 (Z.of_nat (length (e :: l)))) as [_|Hlt];
        [reflexivity | cbn [length] in Hlt; lia]. }
  assert (Hsum : files_with_replacements s'
                 = (files_with_replacements s + holds_replacements self3)%nat).
  { rewrite Hs3. unfold files_with_replacements. cbn [heap].
    unfold after_read. cbn [heap].
    rewrite list_set_app by now rewrite list_set_length.
    rewrite list_set_twice, sum_over_app.
    rewrite (sum_over_zero _ (map _ _)).
    2:{ intros r Hr'. apply in_map_iff in Hr'.
        now destruct Hr' as (tok & <- & _). }
    pose proof (sum_over_list_set holds_replacements q self3 (heap s) Hq) as H.
    fold (obj s q) in H. unfold holds_replacements at 2 in H.
    rewrite Hr0 in H. lia. }
  split.
  - rewrite Hcount, Hsum, HJ1. lia.
  - rewrite Hcount, Hreads, length_app. cbn [length].
    assert (holds_replacements self3 <= 1)%nat
      by (unfold holds_replacements; destruct (replacementsDico self3); lia).
    lia.
Qed.

Lemma build_replacements_length (c : string) (self : RhpRpyx)
  (links : list string) :
  forall acc,
    (length (Rpyx.build_replacements c self links acc)
     <= length acc + length links)%nat.
Proof.
  induction links as [|l links IH]; intros acc; simpl; [lia|].
  destruct (OsPath.isabs l).
  - etransitivity; [apply IH|].
    assert (length (dict_keys (dict_set (Rpyx.rpyxToMatch l)
               (Rpyx.rpyxToMatch (OsPath.relpath c l (absPath self))) acc))
            <= S (length acc))%nat.
    { rewrite dict_keys_set. destruct (dict_get _ acc);
        unfold dict_keys; rewrite ?length_app, !length_map; simpl; lia. }
    unfold dict_keys in H. rewrite length_map in H. lia.
  - etransitivity; [apply IH|]. lia.
Qed.

Lemma sum_over_le (f g : RhpRpyx -> nat) (h : list RhpRpyx) :
  (forall r, In r h -> (f r <= g r)%nat) -> (sum_over f h <= sum_over g h)%nat.
Proof.
  induction h as [|r h IH]; intros H; simpl; [lia|].
  pose proof (H r (or_introl eq_refl)).
  assert (sum_over f h <= sum_over g h)%nat
    by (apply IH; intros r' Hr'; apply H; now right).
  lia.
Qed.

(** The state in which a run ends, from the one in which its traversal
    ends. *)
Lemma main_applied (disk : dict node) (cwd_ : string) (cap : Z)
  (paths : list string) :
  let sd := snd (for_each paths (Updater.process_seed (Updater.enough disk))
                   (Updater.initial disk cwd_ cap)) in
  winv sd -> exists l, applied sd l (snd (Updater.main disk cwd_ cap paths)).
Proof.
  intros sd W. rewrite main_split. unfold sd in *.
  destruct (for_each paths _ _) as [[[]|e] sd']; cbn [snd] in *.
  - destruct (apply_all_applied sd' W) as (l & Ap & _). now exists l.
  - exists []. apply applied_refl.
Qed.

(** X14.  [fileUpdatedCount], which the script logs as the number of updated
    files, is the number of objects for which at least one replacement was
    prepared, whether or not their files were written: it is the same
    under every cap; it is at most [replacementCount], which is at most
    [linkCount]; and it is at most the number of files read. *)
Theorem fileUpdatedCount_counts_prepared (disk : dict node) (cwd_ : string)
  (cap : Z) (paths : list string) :
  let s := snd (Updater.main disk cwd_ cap paths) in
  fileUpdatedCount (strategy s) = Z.of_nat (files_with_replacements s) /\
  (fileUpdatedCount (strategy s) <= replacementCount (strategy s))%Z /\
  (replacementCount (strategy s) <= linkCount (strategy s))%Z /\
  (fileUpdatedCount (strategy s) <= Z.of_nat (length (reads (events s))))%Z /\
  (forall cap',
     fileUpdatedCount (strategy (snd (Updater.main disk cwd_ cap' paths)))
     = fileUpdatedCount (strategy s)).
Proof.
  intros s.
  destruct (traversal_along disk cwd_ cap paths counted) as ((HJ1 & HJ2) & A).
  - intros level msg s0 (H1 & H2). split; [exact H1|].
    cbn [events logging_log emit strategy]. rewrite reads_app.
    cbn [reads flat_map]. now rewrite app_nil_r.
  - intros path s0 A0 (H1 & H2). split; [|exact H2].
    cbn [strategy alloc set_heap]. rewrite H1.
    unfold files_with_replacements. cbn [heap alloc set_heap].
    rewrite sum_over_app. cbn. lia.
  - intros n q P s0 queue s' HI H Hdisc. eapply counted_discover; eassumption.
  - split; reflexivity.
  - set (sd := snd (for_each paths _ _)) in *.
    pose proof (a_w _ _ _ _ A) as W.
    destruct (main_applied disk cwd_ cap paths W) as (l & Ap). fold s sd in Ap.
    assert (Hfw : files_with_replacements s = files_with_replacements sd).
    { unfold files_with_replacements. now rewrite (ap_heap _ _ _ Ap). }
    assert (Hreads : reads (events s) = reads (events sd)).
    { rewrite (ap_events _ _ _ Ap), reads_app.
      now rewrite (reads_kinds l (ap_kinds _ _ _ Ap)), app_nil_r. }
    rewrite (ap_fileUpdatedCount _ _ _ Ap), (ap_replacementCount _ _ _ Ap),
      (ap_linkCount _ _ _ Ap), Hfw, Hreads.
    split; [assumption|]. split; [|split; [|split; [assumption|]]].
    + rewrite HJ1, (w_replacementCount sd W). apply inj_le.
      apply sum_over_le. intros r _. unfold holds_replacements.
      destruct (replacementsDico r); simpl; lia.
    + rewrite (w_replacementCount sd W), (w_linkCount sd W). apply inj_le.
      apply sum_over_le. intros r Hr. apply (In_nth _ _ dummy_rpyx) in Hr.
      destruct Hr as (o & Ho & <-). fold (obj sd o).
      destruct (fileContent (obj sd o)) as [c|] eqn:Hc.
      * destruct (w_read sd W o c Ho Hc) as (_ & _ & ->).
        etransitivity; [apply build_replacements_length|].
        unfold dict_keys. rewrite length_map. simpl. lia.
      * destruct (w_blank sd W o Ho Hc) as (-> & ->). simpl. lia.
    + intros cap'.
      destruct (totals_of_traversal disk cwd_ cap paths) as (_ & _ & H1 & _).
      destruct (totals_of_traversal disk cwd_ cap' paths) as (_ & _ & H2 & _).
      cbv zeta in H1, H2. fold s in H1.
      rewrite <- (ap_fileUpdatedCount _ _ _ Ap). congruence.
Qed.

(** ** Where the entries of the index come from *)

Lemma index_linked_discover (disk : dict node) (cwd_ : string) (cap : Z)
  (seeds : list string) (n : nat) (q : oid) (P : list oid) (s : state)
  (queue : list oid) (s' : state) :
  dinv disk cwd_ cap seeds n (q :: P) s -> index_linked s ->
  discover q s = (Ok queue, s') -> index_linked s'.
Proof.
  intros (A & HP & _) HJ Hdisc.
  destruct (p_fresh _ _ _ HP q (or_introl eq_refl)) as (Hq & Hnone & _).
  destruct (w_blank s (a_w _ _ _ _ A) q Hq Hnone) as (Hl0 & _).
  destruct (discover_ok _ _ _ _ Hdisc Hq)
    as (nd & L' & news & _ & Hs3 & _ & Hnews & Hnodup & Hl & Hk & Hlen & Hold
        & Hnew & Hself).
  assert (Hcwd : cwd s' = cwd s) by (rewrite Hs3; reflexivity).
  assert (Hidx : indexByAbsPath s' = indexByAbsPath s ++ news)
    by (rewrite Hs3; reflexivity).
  intros k o Hg. rewrite Hidx, dict_get_app in Hg.
  destruct (dict_get k (indexByAbsPath s)) as [o'|] eqn:E.
  - injection Hg as <-. destruct (HJ k o' E) as (f & tok & Hf & Hlink & Hid).
    assert (Hne : f <> q) by (intros ->; rewrite Hl0 in Hlink; discriminate).
    exists f, tok. rewrite Hcwd, Hold by assumption.
    split; [lia | now split].
  - pose proof (dict_get_In _ _ _ Hg) as Hin.
    destruct (Hnews k o Hin) as (_ & Hkey & Hrange).
    destruct (Hnew o Hrange) as (tok & Htok & Hcand).
    assert (Hkt : k = identity (target_path (cwd s) (obj s q) tok)).
    { rewrite Hkey, Hcand. reflexivity. }
    assert (HinL : In tok (dict_keys L')) by (apply Hk; now right).
    apply dict_get_keys in HinL.
    destruct (dict_get tok L') as [t|] eqn:Et; [|congruence].
    destruct (Hl tok t Et) as [Habs|(_ & Hi)];
      [rewrite Hl0 in Habs; discriminate|].
    rewrite <- Hkt, dict_get_app, E, Hg in Hi. injection Hi as <-.
    exists q, tok. rewrite Hcwd, Hself. split; [lia|]. split.
    + exact Et.
    + rewrite Hkt. apply f_equal. now apply target_path_absPath.
Qed.

Lemma index_linked_run (disk : dict node) (cwd_ : string) (cap : Z)
  (paths : list string) :
  let sd := snd (for_each paths (Updater.process_seed (Updater.enough disk))
                   (Updater.initial disk cwd_ cap)) in
  index_linked sd /\ ainv disk cwd_ cap sd.
Proof.
  apply (traversal_along disk cwd_ cap paths index_linked).
  - intros level msg s0 H. exact H.
  - intros path s0 A0 H k o Hg. destruct (H k o Hg) as (f & tok & Hf & Hl & Hi).
    exists f, tok. rewrite heap_alloc_length, obj_alloc_old by assumption.
    split; [lia | now split].
  - intros n q P s0 queue s' HI H Hdisc.
    eapply index_linked_discover; eassumption.
  - intros k o Hg. discriminate.
Qed.

(** X6.  At the end of a run the index holds an object under an identity
    exactly when a link of some object of the run points to that object and
    the target path of the link has that identity.  The paths of
    [rpyxPathToProcessList] are not indexed as such, only as targets of
    links. *)
Theorem index_holds_link_targets (disk : dict node) (cwd_ : string) (cap : Z)
  (paths : list string) (k : string) (o : oid) :
  let s := snd (Updater.main disk cwd_ cap paths) in
  dict_get k (indexByAbsPath s) = Some o <->
  exists f tok,
    (f < length (heap s))%nat /\
    dict_get tok (linksDico (obj s f)) = Some o /\
    identity (target_path cwd_ (obj s f) tok) = k.
Proof.
  intros s. destruct (index_linked_run disk cwd_ cap paths) as (HJ & A).
  set (sd := snd (for_each paths _ _)) in *.
  pose proof (a_w _ _ _ _ A) as W.
  destruct (main_applied disk cwd_ cap paths W) as (l & Ap). fold s sd in Ap.
  assert (Hobj : forall x, obj s x = obj sd x)
    by (intros x; unfold obj; now rewrite (ap_heap _ _ _ Ap)).
  rewrite (ap_index _ _ _ Ap), (ap_heap _ _ _ Ap).
  rewrite <- (a_cwd _ _ _ _ A). split.
  - intros Hg. destruct (HJ k o Hg) as (f & tok & H). exists f, tok.
    now rewrite Hobj.
  - intros (f & tok & Hf & Hl & <-). rewrite Hobj in *.
    now apply (w_links sd W).
Qed.

(** ** The files that the second loop writes *)

Lemma write_events_app (l1 l2 : list event) :
  filter is_write (l1 ++ l2) = filter is_write l1 ++ filter is_write l2.
Proof. apply filter_app. Qed.

Lemma content_of_set (p q c : string) (r w : bool) (s : state) :
  content_of q (set_fs (dict_set p (mkNode c r w) (fs s)) s)
  = if String.eqb p q then Some c else content_of q s.
Proof.
  unfold content_of. cbn [fs set_fs]. rewrite dict_get_set.
  now destruct (String.eqb p q).
Qed.

(** One turn of the second loop. *)
Lemma doReplacements_step (o : oid) (t : state) :
  let r := obj t o in
  let u := updatedFileCount (strategy t) in
  let cap := maxFileToUpdate (strategy t) in
  let rs := Strategy.doReplacements o t in
  heap (snd rs) = heap t /\ indexByAbsPath (snd rs) = indexByAbsPath t /\
  maxFileToUpdate (strategy (snd rs)) = cap /\
  match fst rs with
  | Ok _ =>
      filter is_write (events (snd rs))
      = filter is_write (events t)
        ++ (if eligible r && (u <? cap)%Z then [rewrite_of r] else []) /\
      updatedFileCount (strategy (snd rs))
      = (u + if eligible r then 1 else 0)%Z /\
      (forall p, content_of p (snd rs)
                 = if eligible r && (u <? cap)%Z && String.eqb (absPath r) p
                   then Some (new_content r) else content_of p t)
  | Raise _ =>
      filter is_write (events (snd rs)) = filter is_write (events t) /\
      fs (snd rs) = fs t
  end.
Proof.
  intros r u cap rs. unfold rs, Strategy.doReplacements. fold r.
  unfold eligible.
  destruct (exists_ r) eqn:Hex; cbn [negb andb fst snd].
  2:{ cbn [heap indexByAbsPath strategy events logging_log emit].
      rewrite write_events_app, app_nil_r. cbn [filter is_write].
      rewrite app_nil_r. repeat split; fold u; lia. }
  destruct (length (replacementsDico r) =? 0)%nat eqn:Hlen; cbn [negb andb].
  { cbn [heap indexByAbsPath strategy events logging_log emit fst snd].
    rewrite write_events_app. cbn [filter is_write]. rewrite !app_nil_r.
    repeat split; fold u; lia. }
  unfold bind, lift, ret. fold u cap.
  destruct (u <? cap)%Z eqn:Hcap; cbn [andb].
  2:{ cbn [fst snd heap indexByAbsPath strategy events logging_log emit
           Strategy.bump_updatedFileCount set_strategy maxFileToUpdate
           updatedFileCount].
      rewrite write_events_app. cbn [filter is_write]. rewrite app_nil_r.
      repeat split. }
  unfold Rpyx.doReplacements. fold r.
  destruct (fileContent r) as [content|] eqn:Hc.
  2:{ cbn [fst snd]. repeat split. }
  unfold rewrite_of, new_content. rewrite Hc.
  set (newContent := Rpyx.substitute content (replacementsDico r)).
  unfold Rpyx.write_file.
  destruct (dict_get (absPath r) (fs t)) as [nd|].
  - destruct (writable nd).
    + cbn [fst snd]. split; [reflexivity|]. split; [reflexivity|].
      split; [reflexivity|]. split; [|split; [reflexivity|]].
      * cbn [events logging_log emit Strategy.bump_updatedFileCount
               set_strategy set_fs].
        rewrite !write_events_app. cbn [filter is_write].
        now rewrite app_nil_r.
      * intros p. apply content_of_set.
    + cbn [fst snd heap indexByAbsPath strategy events logging_log emit].
      rewrite write_events_app. cbn [filter is_write]. rewrite app_nil_r.
      repeat split.
  - cbn [fst snd]. split; [reflexivity|]. split; [reflexivity|].
    split; [reflexivity|]. split; [|split; [reflexivity|]].
    * cbn [events logging_log emit Strategy.bump_updatedFileCount
             set_strategy set_fs].
      rewrite !write_events_app. cbn [filter is_write]. now rewrite app_nil_r.
    * intros p. apply content_of_set.
Qed.

Lemma map_obj_heap (t t' : state) (os : list oid) :
  heap t' = heap t -> map (obj t') os = map (obj t) os.
Proof. intros H. apply map_ext. intros o. unfold obj. now rewrite H. Qed.

Lemma firstn_incl {A} (n : nat) (l : list A) (x : A) :
  In x (firstn n l) -> In x l.
Proof.
  revert l. induction n as [|n IH]; intros [|y l]; cbn; try tauto.
  intros [H|H]; [now left | right; now apply IH].
Qed.

(** The second loop on the objects [os]: it rewrites the eligible ones, in
    order, until the cap is reached, and counts all of them. *)
Lemma apply_loop (os : list oid) :
  forall t,
    let cap := maxFileToUpdate (strategy t) in
    let u := updatedFileCount (strategy t) in
    let todo := filter eligible (map (obj t) os) in
    let rs := for_each os Strategy.doReplacements t in
    heap (snd rs) = heap t /\ indexByAbsPath (snd rs) = indexByAbsPath t /\
    exists n,
      (n <= Z.to_nat (cap - u))%nat /\
      filter is_write (events (snd rs))
      = filter is_write (events t) ++ map rewrite_of (firstn n todo) /\
      (forall p, ~ In p (map absPath (firstn n todo)) ->
                 content_of p (snd rs) = content_of p t) /\
      (NoDup (map absPath todo) ->
       forall x, In x (firstn n todo) ->
                 content_of (absPath x) (snd rs) = Some (new_content x)) /\
      (fst rs = Ok tt ->
       firstn n todo = firstn (Z.to_nat (cap - u)) todo /\
       updatedFileCount (strategy (snd rs)) = (u + Z.of_nat (length todo))%Z).
Proof.
  induction os as [|o os IH]; intros t cap u todo rs.
  - cbn. split; [reflexivity|]. split; [reflexivity|]. exists 0%nat.
    rewrite firstn_nil, app_nil_r. repeat split; try lia; try tauto.
    + intros _ x [].
    + now rewrite firstn_nil.
  - unfold rs. cbn [for_each]. unfold bind.
    pose proof (doReplacements_step o t) as Hstep. cbv zeta in Hstep.
    fold u cap in Hstep.
    destruct (Strategy.doReplacements o t) as [[[]|e] t1]; cbn [fst snd] in *.
    + destruct Hstep as (Hheap & Hidx & Hcap & Hw & Hu & Hfs).
      specialize (IH t1). cbv zeta in IH.
      rewrite Hheap, Hidx, Hcap, Hu, (map_obj_heap t t1 os Hheap) in IH.
      destruct IH as (Hheap' & Hidx' & n & Hn & Hw' & Hkeep & Hnew & Hok).
      split; [assumption|]. split; [assumption|].
      unfold todo. cbn [map filter].
      set (rest := filter eligible (map (obj t) os)) in *.
      destruct (eligible (obj t o)) eqn:Hel; cbn [andb] in *.
      * destruct (Z.ltb_spec u cap) as [Hlt|Hge].
        -- (* the file is written *)
           exists (S n). cbn [firstn map].
           split; [lia|]. split; [|split; [|split]].
           ++ rewrite Hw', Hw, <- app_assoc. reflexivity.
           ++ intros p Hp. rewrite Hkeep by (intros H; apply Hp; now right).
              rewrite Hfs. destruct (String.eqb_spec (absPath (obj t o)) p)
                as [Heq|_]; [|reflexivity].
              exfalso. apply Hp. now left.
           ++ intros Hnd x Hx. apply NoDup_cons_iff in Hnd.
              destruct Hnd as (Hfresh & Hnd). destruct Hx as [<-|Hx].
              ** rewrite Hkeep.
                 --- rewrite Hfs. now rewrite String.eqb_refl.
                 --- intros Hin. apply Hfresh. apply in_map_iff in Hin.
                     destruct Hin as (y & Hy & Hin). apply firstn_incl in Hin.
                     rewrite <- Hy. now apply in_map.
              ** now apply Hnew.
           ++ intros Hr. destruct (Hok Hr) as (Hfirst & Hu').
              replace (Z.to_nat (cap - u))
                with (S (Z.to_nat (cap - (u + 1)))) by lia.
              cbn [firstn length]. rewrite Hfirst. split; [reflexivity | lia].
        -- (* the cap is reached *)
           assert (n = 0%nat) by lia. subst n. exists 0%nat.
           cbn [firstn map] in *. rewrite app_nil_r in *.
           split; [lia|]. split; [|split; [|split]].
           ++ now rewrite Hw', Hw.
           ++ intros p _. rewrite Hkeep by tauto. apply Hfs.
           ++ intros _ x [].
           ++ intros Hr. destruct (Hok Hr) as (_ & Hu').
              replace (Z.to_nat (cap - u)) with 0%nat by lia.
              cbn [firstn length]. split; [reflexivity | lia].
      * exists n. rewrite Z.add_0_r, app_nil_r in *.
        split; [assumption|]. split; [|split; [|split]].
        -- now rewrite Hw', Hw.
        -- intros p Hp. rewrite Hkeep by assumption. apply Hfs.
        -- assumption.
        -- assumption.
    + destruct Hstep as (Hheap & Hidx & _ & Hw & Hfs).
      split; [assumption|]. split; [assumption|].
      exists 0%nat. cbn [firstn map]. rewrite app_nil_r.
      split; [lia|]. split; [assumption|]. split; [|split].
      * intros p _. unfold content_of. now rewrite Hfs.
      * intros _ x [].
      * discriminate.
Qed.

Lemma write_events_strip (l : list event) :
  filter is_write (strip_logs l) = filter is_write l.
Proof.
  unfold strip_logs. induction l as [|e l IH]; [reflexivity|].
  destruct e; cbn; rewrite ?IH; reflexivity.
Qed.

Lemma write_events_none (s : state) : winv s -> filter is_write (events s) = [].
Proof.
  intros W. rewrite <- write_events_strip, (w_events s W).
  induction (reads (events s)) as [|p ps IH]; [reflexivity | exact IH].
Qed.

Lemma traversal_ainv (disk : dict node) (cwd_ : string) (cap : Z)
  (paths : list string) :
  ainv disk cwd_ cap
    (snd (for_each paths (Updater.process_seed (Updater.enough disk))
            (Updater.initial disk cwd_ cap))).
Proof.
  apply (traversal_along disk cwd_ cap paths (fun _ => True)); auto.
Qed.

Lemma paths_filter_nodup (keep : RhpRpyx -> bool) (l : list RhpRpyx) :
  NoDup (map absPath l) -> NoDup (map absPath (filter keep l)).
Proof.
  induction l as [|r l IH]; cbn; intros H; [constructor|].
  apply NoDup_cons_iff in H. destruct H as (Hfresh & H).
  destruct (keep r); cbn; [|now apply IH].
  apply NoDup_cons_iff. split; [|now apply IH].
  intros Hin. apply Hfresh. apply in_map_iff in Hin.
  destruct Hin as (y & <- & Hy). apply filter_In in Hy. apply in_map, Hy.
Qed.

(** The objects of the index have pairwise distinct paths. *)
Lemma index_paths_nodup (s : state) :
  winv s ->
  NoDup (map absPath (map (obj s) (dict_values (indexByAbsPath s)))).
Proof.
  intros W. pose proof (w_index_nodup s W) as Hnd.
  assert (Hkeys : dict_keys (indexByAbsPath s)
                  = map identity
                      (map absPath (map (obj s) (dict_values (indexByAbsPath s))))).
  { unfold dict_keys, dict_values. rewrite !map_map. apply map_ext_in.
    intros [k o] Hin. cbn. apply dict_In_get in Hin; [|assumption].
    now apply (w_index s W) in Hin. }
  rewrite Hkeys in Hnd. now apply NoDup_map_inv in Hnd.
Qed.

(** The writes of a run. *)
Lemma run_writes (disk : dict node) (cwd_ : string) (cap : Z)
  (paths : list string) :
  let r := fst (Updater.main disk cwd_ cap paths) in
  let s := snd (Updater.main disk cwd_ cap paths) in
  let todo := filter eligible (map (obj s) (dict_values (indexByAbsPath s))) in
  exists n,
    (n <= Z.to_nat cap)%nat /\
    filter is_write (events s) = map rewrite_of (firstn n todo) /\
    (forall x, In x (firstn n todo) ->
       fileContent x <> None /\
       content_of (absPath x) s = Some (new_content x)) /\
    (forall p, ~ In p (map absPath (firstn n todo)) ->
               content_of p s = option_map data (dict_get p disk)) /\
    (r = Ok tt ->
     firstn n todo = firstn (Z.to_nat cap) todo /\
     updatedFileCount (strategy s) = Z.of_nat (length todo)).
Proof.
  cbv zeta.
  pose proof (traversal_ainv disk cwd_ cap paths) as A.
  rewrite main_split.
  destruct (for_each paths _ _) as [[[]|e] sd]; cbn [fst snd] in *.
  - pose proof (a_w _ _ _ _ A) as W.
    pose proof (apply_loop (dict_values (indexByAbsPath sd)) sd) as H.
    cbv zeta in H. rewrite (a_cap _ _ _ _ A), (a_upd _ _ _ _ A) in H.
    rewrite (write_events_none sd W), Z.sub_0_r in H.
    unfold Updater.apply_all.
    destruct H as (Hheap & Hidx & n & Hn & Hw & Hkeep & Hnew & Hok).
    rewrite Hidx, (map_obj_heap sd _ _ Hheap).
    set (todo := filter eligible (map (obj sd) (dict_values (indexByAbsPath sd))))
      in *.
    exists n. split; [assumption|]. split; [assumption|].
    split; [|split].
    + intros x Hx. split.
      * apply firstn_incl in Hx. apply filter_In in Hx.
        destruct Hx as (Hx & Hel). apply in_map_iff in Hx.
        destruct Hx as (o & <- & Ho). unfold dict_values in Ho.
        apply in_map_iff in Ho. destruct Ho as ([k o'] & Hk & Hko).
        cbn in Hk. subst o'.
        apply dict_In_get in Hko; [|exact (w_index_nodup sd W)].
        destruct (w_index sd W k o Hko) as (Hlt & _).
        intros Hnone. destruct (w_blank sd W o Hlt Hnone) as (_ & Hr).
        unfold eligible in Hel. rewrite Hr in Hel. cbn in Hel.
        now rewrite andb_false_r in Hel.
      * apply Hnew; [|assumption].
        apply paths_filter_nodup. now apply index_paths_nodup.
    + intros p Hp. rewrite Hkeep by assumption. unfold content_of.
      now rewrite (a_fs _ _ _ _ A).
    + intros Hr. rewrite Z.add_0_l in Hok. now apply Hok.
  - exists 0%nat. cbn [firstn map].
    rewrite (write_events_none sd (a_w _ _ _ _ A)).
    split; [lia|]. split; [reflexivity|]. split; [intros x []|].
    split; [|discriminate].
    intros p _. unfold content_of. now rewrite (a_fs _ _ _ _ A).
Qed.

(** X15.  The second loop of [update] goes through the objects of the index
    in the order of the index; those that exist and hold replacements are
    rewritten, until [maxFileToUpdate] files were written.  Every file
    written ends with the content that was read from it in which the
    replacements of its object were substituted, and every other path
    keeps what it held.  A run that ends without error writes exactly the
    first [maxFileToUpdate] of these objects, and [updatedFileCount] ends
    as the number of all of them, written or not; a run that fails wrote
    some of the first ones. *)
Theorem writes_follow_index (disk : dict node) (cwd_ : string) (cap : Z)
  (paths : list string) :
  let r := fst (Updater.main disk cwd_ cap paths) in
  let s := snd (Updater.main disk cwd_ cap paths) in
  let todo := filter eligible (map (obj s) (dict_values (indexByAbsPath s))) in
  exists n,
    (n <= Z.to_nat cap)%nat /\
    filter is_write (events s) = map rewrite_of (firstn n todo) /\
    (forall x, In x (firstn n todo) ->
       fileContent x <> None /\
       content_of (absPath x) s = Some (new_content x)) /\
    (forall p, ~ In p (map absPath (firstn n todo)) ->
               content_of p s = option_map data (dict_get p disk)) /\
    (r = Ok tt ->
     firstn n todo = firstn (Z.to_nat cap) todo /\
     updatedFileCount (strategy s) = Z.of_nat (length todo)).
Proof. exact (run_writes disk cwd_ cap paths). Qed.

Lemma writes_write_events (p : string) (l : list event) :
  In p (writes l) -> exists c, In (EvWrite p c) (filter is_write l).
Proof.
  induction l as [|e l IH]; [intros []|].
  destruct e as [?|p' c| |]; cbn; try exact IH.
  intros [<-|H].
  - exists c. now left.
  - destruct (IH H) as (c' & Hc'). exists c'. now right.
Qed.

(** X16.  A file is written only as the target of a link: for every path
    written by a run there is a link, in an object of the run, to an object
    of that path which exists and holds replacements, and which the index
    holds under the identity of the path.  So the file of a path of
    [rpyxPathToProcessList] is rewritten only if a file of the run refers
    to it. *)
Theorem only_link_targets_written (disk : dict node) (cwd_ : string)
  (cap : Z) (paths : list string) (p : string) :
  let s := snd (Updater.main disk cwd_ cap paths) in
  In p (writes (events s)) ->
  exists f tok o,
    (f < length (heap s))%nat /\
    dict_get tok (linksDico (obj s f)) = Some o /\
    identity (target_path cwd_ (obj s f) tok) = identity p /\
    dict_get (identity p) (indexByAbsPath s) = Some o /\
    absPath (obj s o) = p /\ eligible (obj s o) = true.
Proof.
  intros s Hp. apply writes_write_events in Hp. destruct Hp as (c & Hc).
  destruct (run_writes disk cwd_ cap paths) as (n & _ & Hw & _).
  fold s in Hw. rewrite Hw in Hc. apply in_map_iff in Hc.
  destruct Hc as (r & Hr & Hin). apply firstn_incl in Hin.
  apply filter_In in Hin. destruct Hin as (Hin & Hel).
  apply in_map_iff in Hin. destruct Hin as (o & <- & Ho).
  unfold dict_values in Ho. apply in_map_iff in Ho.
  destruct Ho as ([k o'] & Hk & Hko). cbn in Hk. subst o'.
  injection Hr as Hpath _.
  destruct (index_linked_run disk cwd_ cap paths) as (HJ & A).
  set (sd := snd (for_each paths _ _)) in *.
  pose proof (a_w _ _ _ _ A) as W.
  destruct (main_applied disk cwd_ cap paths W) as (l & Ap). fold s sd in Ap.
  assert (Hobj : forall x, obj s x = obj sd x)
    by (intros x; unfold obj; now rewrite (ap_heap _ _ _ Ap)).
  rewrite (ap_index _ _ _ Ap) in *. rewrite (ap_heap _ _ _ Ap).
  apply dict_In_get in Hko; [|exact (w_index_nodup sd W)].
  destruct (w_index sd W k o Hko) as (_ & Hkey).
  destruct (HJ k o Hko) as (f & tok & Hf & Hl & Hid).
  rewrite (a_cwd _ _ _ _ A) in Hid.
  assert (Hkp : k = identity p) by (rewrite Hkey, <- Hobj, Hpath; reflexivity).
  exists f, tok, o. rewrite !Hobj in *. subst k.
  rewrite Hkp in Hid, Hko. repeat split; assumption.
Qed.

Lemma only_link_targets_written_witness :
  let s := snd (Updater.main Scenario.relative_seed "/proj" 1 Scenario.seeds) in
  exists f tok o,
    (f < length (heap s))%nat /\
    dict_get tok (linksDico (obj s f)) = Some o /\
    identity (target_path "/proj" (obj s f) tok) = identity "/proj/B.rpyx" /\
    dict_get (identity "/proj/B.rpyx") (indexByAbsPath s) = Some o /\
    absPath (obj s o) = "/proj/B.rpyx"%string /\ eligible (obj s o) = true.
Proof.
  apply (only_link_targets_written Scenario.relative_seed "/proj" 1
           Scenario.seeds "/proj/B.rpyx").
  vm_compute. left. reflexivity.
Defined.

(** ** How a run can fail *)

(** X12.  The [IOError] of a run is the failure of [open] on a file that is
    there: when [update] raises [IOError] for a path, that path is on disk
    and cannot be read or cannot be written.  A path that is not on disk
    never does it, [open] being reached only for objects whose file
    exists; and when every file on disk can be read and written, no
    [IOError] is raised.  Nothing is said of the exceptions that these
    disks leave out (see [getLinkedRpyx]). *)
Theorem ioerror_on_disk (disk : dict node) (cwd_ : string) (cap : Z)
  (paths : list string) :
  let r := fst (Updater.main disk cwd_ cap paths) in
  (forall p, r = Raise (IOError p) ->
     exists nd, dict_get p disk = Some nd /\
                (readable nd = false \/ writable nd = false)) /\
  ((forall p nd, In (p, nd) disk -> readable nd = true /\ writable nd = true) ->
   forall p, r <> Raise (IOError p)).
Proof.
  intros r. destruct (main_run disk cwd_ cap paths) as (sd & l & _ & _ & H).
  fold r in H.
  assert (Hio : forall p, r = Raise (IOError p) ->
            exists nd, dict_get p disk = Some nd /\
                       (readable nd = false \/ writable nd = false)).
  { intros p Hr. rewrite Hr in H. destruct H as (p' & nd & [= ->] & Hnd & Hperm).
    now exists nd. }
  split; [assumption|]. intros Hall p Hr.
  destruct (Hio p Hr) as (nd & Hnd & Hperm).
  apply dict_get_In in Hnd. destruct (Hall p nd Hnd) as (Hrd & Hwr).
  destruct Hperm; congruence.
Qed.

(** ** The depth of the traversal *)

Lemma for_each_ext {A} (f g : A -> M unit) (l : list A) :
  (forall x s, f x s = g x s) -> forall s, for_each l f s = for_each l g s.
Proof.
  intros H. induction l as [|x l IH]; intros s; [reflexivity|].
  cbn [for_each]. unfold bind. rewrite H.
  destruct (g x s) as [[[]|e] s1]; [apply IH | reflexivity].
Qed.

Lemma searchLinks_more_fuel (fuel : nat) :
  forall d q s, (0 <= d)%Z -> (Z.to_nat d < fuel)%nat ->
    Updater.searchLinks (S fuel) q d s = Updater.searchLinks fuel q d s.
Proof.
  induction fuel as [|fuel IH]; intros d q s Hd Hf; [lia|].
  rewrite !searchLinks_unfold. unfold bind.
  destruct (discover q s) as [[queue|e] s1]; [|reflexivity].
  destruct (Z.eqb_spec d 0) as [_|Hne]; [reflexivity|].
  apply for_each_ext. intros x s'. apply IH; lia.
Qed.

Lemma for_each_fueled {A} (f : A -> M unit) (l : list A) :
  (forall x s, fst (f x s) <> Raise OutOfFuel) ->
  forall s, fst (for_each l f s) <> Raise OutOfFuel.
Proof.
  intros H. induction l as [|x l IH]; intros s; [discriminate|].
  cbn [for_each]. unfold bind. specialize (H x s).
  destruct (f x s) as [[[]|e] s1]; [apply IH | exact H].
Qed.

Lemma searchLinks_fueled (fuel : nat) :
  forall d q s, (0 <= d)%Z -> (Z.to_nat d < fuel)%nat ->
    fst (Updater.searchLinks fuel q d s) <> Raise OutOfFuel.
Proof.
  induction fuel as [|fuel IH]; intros d q s Hd Hf; [lia|].
  rewrite searchLinks_unfold. unfold bind.
  destruct (discover q s) as [[queue|e] s1] eqn:Hdisc.
  - destruct (Z.eqb_spec d 0) as [_|Hne]; [discriminate|].
    apply for_each_fueled. intros x s'. apply IH; lia.
  - apply discover_raise in Hdisc. destruct Hdisc as (-> & _). discriminate.
Qed.

(** X13.  With a depth [maxDepth] that is not negative, [searchLinks] nests
    at most [maxDepth + 1] calls, whatever the files: the traversal ends
    within that many nested calls and more room for the recursion does
    not change its result. *)
Theorem searchLinks_depth (maxDepth : Z) (fuel : nat) (q : oid) (s : state) :
  (0 <= maxDepth)%Z -> (Z.to_nat maxDepth < fuel)%nat ->
  fst (Updater.searchLinks fuel q maxDepth s) <> Raise OutOfFuel /\
  Updater.searchLinks fuel q maxDepth s
  = Updater.searchLinks (S (Z.to_nat maxDepth)) q maxDepth s.
Proof.
  intros Hd Hf. split; [now apply searchLinks_fueled|].
  induction fuel as [|fuel IH]; [lia|].
  destruct (Nat.eq_dec fuel (Z.to_nat maxDepth)) as [->|Hne]; [reflexivity|].
  rewrite searchLinks_more_fuel by lia. apply IH. lia.
Qed.

Lemma searchLinks_depth_witness :
  let s := snd (Rpyx.init "/proj/A.rpyx"
                  (Updater.initial Scenario.cycle "/proj" 0)) in
  fst (Updater.searchLinks 7 0 1 s) <> Raise OutOfFuel /\
  Updater.searchLinks 7 0 1 s = Updater.searchLinks 2 0 1 s.
Proof.
  apply (searchLinks_depth 1 7 0
           (snd (Rpyx.init "/proj/A.rpyx"
                   (Updater.initial Scenario.cycle "/proj" 0)))).
  - lia.
  - vm_compute. lia.
Defined.

(** ** The token written for a link *)

Lemma matchToRpyx_rpyxToMatch (id : string) :
  plain_id id ->
  Rpyx.matchToRpyx (Rpyx.rpyxToMatch (id ++ ".rpyx")) = (id ++ ".rpyx")%string.
Proof.
  intros (Hgt & _ & Hrpy & Hx).
  rewrite rpyxToMatch_rpyx by assumption. now apply matchToRpyx_token.
Qed.

(** X4.  The token that [prepareReplacements] writes in place of the token
    of an absolute link is read back, by [matchToRpyx], as the relative
    path computed for the link, when that path is a plain identifier
    followed by [.rpyx]; the link read back is relative, so that it is not
    replaced again, and, resolved from the file, it has the target of the
    link that was replaced. *)
Theorem new_token_resolves (cwd_ : string) (self : RhpRpyx)
  (rhpLink id : string) :
  single_root rhpLink = true ->
  single_root (absPath self) = true ->
  OsPath.normpath (absPath self) = absPath self ->
  plain_id id ->
  OsPath.relpath cwd_ rhpLink (absPath self) = (id ++ ".rpyx")%string ->
  let newStr :=
    Rpyx.rpyxToMatch (OsPath.relpath cwd_ rhpLink (absPath self)) in
  newStr = token id /\
  Rpyx.matchToRpyx newStr = OsPath.relpath cwd_ rhpLink (absPath self) /\
  OsPath.isabs (Rpyx.matchToRpyx newStr) = false /\
  target_path cwd_ self (Rpyx.matchToRpyx newStr)
  = target_path cwd_ self rhpLink.
Proof.
  intros Ht Ha Hfix Hid Hrel newStr.
  destruct (relative_link_resolves cwd_ self rhpLink Ht Ha Hfix)
    as (Hna & _ & Htarget).
  assert (Hback : Rpyx.matchToRpyx newStr
                  = OsPath.relpath cwd_ rhpLink (absPath self)).
  { unfold newStr. rewrite Hrel. now apply matchToRpyx_rpyxToMatch. }
  split.
  - unfold newStr. rewrite Hrel. apply rpyxToMatch_rpyx. apply Hid.
  - rewrite Hback. auto.
Qed.

Lemma new_token_resolves_witness :
  let self := mkRhpRpyx "/proj/B.rpyx" true [] [] None in
  let newStr :=
    Rpyx.rpyxToMatch (OsPath.relpath "/proj" "/proj/sub/X.rpyx" (absPath self)) in
  newStr = token "../sub/X" /\
  Rpyx.matchToRpyx newStr
  = OsPath.relpath "/proj" "/proj/sub/X.rpyx" (absPath self) /\
  OsPath.isabs (Rpyx.matchToRpyx newStr) = false /\
  target_path "/proj" self (Rpyx.matchToRpyx newStr)
  = target_path "/proj" self "/proj/sub/X.rpyx".
Proof.
  apply (new_token_resolves "/proj" (mkRhpRpyx "/proj/B.rpyx" true [] [] None)
           "/proj/sub/X.rpyx" "../sub/X"); try reflexivity.
  repeat split; reflexivity.
Defined.

(** ** The links of the files read *)

Lemma links_kept_discover (disk : dict node) (cwd_ : string) (cap : Z)
  (seeds : list string) (n : nat) (q : oid) (P : list oid) (s : state)
  (queue : list oid) (s' : state) :
  dinv disk cwd_ cap seeds n (q :: P) s -> links_kept s ->
  discover q s = (Ok queue, s') -> links_kept s'.
Proof.
  intros (A & HP & _) HJ Hdisc.
  destruct (p_fresh _ _ _ HP q (or_introl eq_refl)) as (Hq & _).
  destruct (discover_ok _ _ _ _ Hdisc Hq)
    as (nd & L' & news & _ & _ & _ & _ & _ & _ & Hk & Hlen & Hold & Hnew
        & Hself).
  intros o c tok Ho Hc Htok.
  destruct (Nat.lt_ge_cases o (length (heap s))) as [Holder|Hnewer].
  - destruct (Nat.eq_dec o q) as [->|Hne].
    + rewrite Hself in *. cbn in Hc. injection Hc as <-.
      cbn. apply Hk. now right.
    + rewrite Hold in * by assumption. now apply (HJ o c).
  - destruct (Hnew o (conj Hnewer Ho)) as (tok' & _ & Hcand).
    rewrite Hcand in Hc. discriminate.
Qed.

(** X8.  For every object that a run has read: [fileContent] is the content
    that the file had when the run began; the keys of [linksDico] are the
    link strings found in that content, all of them; [replacementsDico] is
    what [prepareReplacements] computes from these keys; and [trace] has
    logged a record for every link. *)
Theorem links_recorded (disk : dict node) (cwd_ : string) (cap : Z)
  (paths : list string) (o : oid) (c : string) :
  let s := snd (Updater.main disk cwd_ cap paths) in
  (o < length (heap s))%nat ->
  fileContent (obj s o) = Some c ->
  option_map data (dict_get (absPath (obj s o)) disk) = Some c /\
  (forall tok, In tok (dict_keys (linksDico (obj s o))) <-> In tok (links_of c)) /\
  replacementsDico (obj s o)
  = Rpyx.build_replacements cwd_ (obj s o) (dict_keys (linksDico (obj s o))) [] /\
  (forall tok t, dict_get tok (linksDico (obj s o)) = Some t ->
     In (log_line (Rpyx.trace_line s (obj s o) tok t)) (events s)).
Proof.
  intros s Ho Hc.
  destruct (traversal_along disk cwd_ cap paths links_kept) as (HJ & A).
  - intros level msg s0 H. exact H.
  - intros path s0 A0 H o' c' tok Ho' Hc' Htok.
    rewrite heap_alloc_length in Ho'.
    destruct (Nat.eq_dec o' (length (heap s0))) as [->|Hne].
    + rewrite obj_alloc_new in Hc'. discriminate.
    + rewrite obj_alloc_old in * by lia. apply (H o' c'); [lia | auto..].
  - intros n q P s0 queue s' HI H Hdisc.
    eapply links_kept_discover; eassumption.
  - intros o' c' tok Ho'. simpl in Ho'. lia.
  - set (sd := snd (for_each paths _ _)) in *.
    pose proof (a_w _ _ _ _ A) as W.
    destruct (main_applied disk cwd_ cap paths W) as (l & Ap). fold s sd in Ap.
    assert (Hobj : forall x, obj s x = obj sd x)
      by (intros x; unfold obj; now rewrite (ap_heap _ _ _ Ap)).
    rewrite (ap_heap _ _ _ Ap) in Ho. rewrite !Hobj in *.
    destruct (w_read sd W o c Ho Hc) as (Hcont & Hkeys & Hrepl).
    unfold content_of in Hcont. rewrite (a_fs _ _ _ _ A) in Hcont.
    rewrite (a_cwd _ _ _ _ A) in Hrepl.
    split; [assumption|]. split; [|split; [assumption|]].
    + intros tok. split; [apply Hkeys | now apply (HJ o c)].
    + intros tok t Hl. rewrite (ap_events _ _ _ Ap). apply in_or_app. left.
      rewrite (trace_line_frame sd s) by now rewrite Hobj.
      now apply (w_traced sd W).
Qed.

Lemma links_recorded_witness :
  let s := snd (Updater.main Scenario.shared "/proj" 0 Scenario.seeds) in
  let c := ("<ref>/proj/B_rpy</ref>" ++ Scenario.nl
            ++ "<ref>/proj/X_rpy</ref>")%string in
  option_map data (dict_get (absPath (obj s 0)) Scenario.shared) = Some c /\
  (forall tok, In tok (dict_keys (linksDico (obj s 0))) <-> In tok (links_of c)) /\
  replacementsDico (obj s 0)
  = Rpyx.build_replacements "/proj" (obj s 0)
      (dict_keys (linksDico (obj s 0))) [] /\
  (forall tok t, dict_get tok (linksDico (obj s 0)) = Some t ->
     In (log_line (Rpyx.trace_line s (obj s 0) tok t)) (events s)).
Proof.
  apply (links_recorded Scenario.shared "/proj" 0 Scenario.seeds 0).
  - vm_compute. lia.
  - vm_compute. reflexivity.
Defined.

Lemma ioerror_on_disk_witness :
  exists nd,
    dict_get "/proj/sub"
      [("/proj/sub"%string, mkNode "" false false);
       ("/proj/A.rpyx"%string, plain "")] = Some nd /\
    (readable nd = false \/ writable nd = false).
Proof.
  destruct (ioerror_on_disk [("/proj/sub"%string, mkNode "" false false);
                             ("/proj/A.rpyx"%string, plain "")]
              "/proj" 1 ["sub"; "A.rpyx"]%string) as (H & _).
  apply (H "/proj/sub"%string). vm_compute. reflexivity.
Defined.

(** ** The records at level [ERROR] *)

Lemma no_error_app (l1 l2 : list event) :
  no_error l1 -> no_error l2 -> no_error (l1 ++ l2).
Proof.
  intros H1 H2 msg Hin. apply in_app_or in Hin.
  destruct Hin; [now apply (H1 msg) | now apply (H2 msg)].
Qed.

Lemma no_error_log (level : Z) (msg : string) :
  level <> ERROR -> no_error [EvLog level msg].
Proof. intros Hne m [[= H _]|[]]. now apply Hne. Qed.

Lemma no_error_adding (news : dict oid) : no_error (map adding news).
Proof.
  intros m Hin. apply in_map_iff in Hin. destruct Hin as (kv & H & _).
  discriminate H.
Qed.

Lemma no_error_trace (s : state) (q : oid) :
  no_error (map log_line (Rpyx.trace_lines s q)).
Proof.
  intros m Hin. apply in_map_iff in Hin. destruct Hin as (line & H & Hin).
  unfold Rpyx.trace_lines in Hin. apply in_map_iff in Hin.
  destruct Hin as (lr & <- & _). unfold log_line, Rpyx.trace_line in H.
  cbn [fst snd] in H. injection H as H _.
  destruct (negb _); [discriminate H|].
  destruct (dict_get _ _); discriminate H.
Qed.

Lemma no_error_discover (q : oid) (s : state) (queue : list oid) (s' : state) :
  (q < length (heap s))%nat -> no_error (events s) ->
  discover q s = (Ok queue, s') -> no_error (events s').
Proof.
  intros Hq HJ Hdisc.
  destruct (discover_ok _ _ _ _ Hdisc Hq) as (nd & L' & news & _ & Hs3 & _).
  rewrite Hs3 at 1. cbn [events].
  apply no_error_app; [assumption|].
  change (EvRead ?p :: ?l) with ([EvRead p] ++ l).
  apply no_error_app; [intros m [H|[]]; discriminate H|].
  apply no_error_app; [apply no_error_adding|].
  change (EvCount ?p :: ?x :: ?l) with ([EvCount p] ++ [x] ++ l).
  apply no_error_app; [intros m [H|[]]; discriminate H|].
  apply no_error_app; [apply no_error_log; discriminate | apply no_error_trace].
Qed.

(** One turn of the second loop, seen in the log. *)
Lemma doReplacements_log (o : oid) (t : state) :
  (eligible (obj t o) = true -> fileContent (obj t o) <> None) ->
  heap (snd (Strategy.doReplacements o t)) = heap t /\
  match Strategy.doReplacements o t with
  | (Ok _, t') => exists l, events t' = events t ++ l /\ no_error l
  | (Raise _, t') => exists msg, events t' = events t ++ [EvLog ERROR msg]
  end.
Proof.
  intros Hread. unfold Strategy.doReplacements, eligible in *.
  destruct (exists_ (obj t o)); cbn [negb andb] in *.
  2:{ split; [reflexivity|]. eexists. split; [reflexivity|].
      apply no_error_log. discriminate. }
  destruct (length (replacementsDico (obj t o)) =? 0)%nat; cbn [negb] in *.
  { split; [reflexivity|]. eexists. split; [reflexivity|].
    apply no_error_log. discriminate. }
  unfold bind, lift, ret.
  destruct (updatedFileCount (strategy t) <? maxFileToUpdate (strategy t))%Z.
  2:{ split; [reflexivity|]. eexists. split; [reflexivity|].
      apply no_error_log. discriminate. }
  unfold Rpyx.doReplacements.
  destruct (fileContent (obj t o)) as [content|]; [|now destruct Hread].
  unfold Rpyx.write_file.
  destruct (dict_get (absPath (obj t o)) (fs t)) as [nd|].
  - destruct (writable nd).
    + split; [reflexivity|]. eexists. split.
      * cbn [events logging_log emit Strategy.bump_updatedFileCount
               set_strategy set_fs]. rewrite <- app_assoc. reflexivity.
      * apply no_error_app; [intros m [H|[]]; discriminate H|].
        apply no_error_log. discriminate.
    + split; [reflexivity|]. eexists. reflexivity.
  - split; [reflexivity|]. eexists. split.
    * cbn [events logging_log emit Strategy.bump_updatedFileCount
             set_strategy set_fs]. rewrite <- app_assoc. reflexivity.
    * apply no_error_app; [intros m [H|[]]; discriminate H|].
      apply no_error_log. discriminate.
Qed.

Lemma apply_loop_log (os : list oid) :
  forall t,
    (forall o, In o os -> eligible (obj t o) = true ->
               fileContent (obj t o) <> None) ->
    match for_each os Strategy.doReplacements t with
    | (Ok _, t') => exists l, events t' = events t ++ l /\ no_error l
    | (Raise _, t') =>
        exists l msg, events t' = events t ++ l ++ [EvLog ERROR msg] /\
                      no_error l
    end.
Proof.
  induction os as [|o os IH]; intros t Hread.
  - exists []. split; [now rewrite app_nil_r | intros m []].
  - cbn [for_each]. unfold bind.
    destruct (doReplacements_log o t (Hread o (or_introl eq_refl)))
      as (Hheap & Hstep).
    destruct (Strategy.doReplacements o t) as [[[]|e] t1]; cbn [snd] in *.
    + destruct Hstep as (l1 & Hev1 & Hl1).
      assert (Hread1 : forall o', In o' os -> eligible (obj t1 o') = true ->
                                  fileContent (obj t1 o') <> None).
      { intros o' Ho'. unfold obj. rewrite Hheap. apply Hread. now right. }
      specialize (IH t1 Hread1).
      destruct (for_each os Strategy.doReplacements t1) as [[[]|e] t2].
      * destruct IH as (l2 & Hev2 & Hl2). exists (l1 ++ l2).
        split; [now rewrite Hev2, Hev1, app_assoc | now apply no_error_app].
      * destruct IH as (l2 & msg & Hev2 & Hl2). exists (l1 ++ l2), msg.
        split; [now rewrite Hev2, Hev1, !app_assoc | now apply no_error_app].
    + destruct Hstep as (msg & Hev). exists [], msg.
      split; [assumption | intros m []].
Qed.

(** X17.  Records at level [ERROR] and [IOError] go together: a run that
    ends without exception has logged no such record; a run that raises
    [IOError] has logged exactly one, which is its last event; and a log
    that holds such a record is the log of a run that raised [IOError].
    Nothing is said of the exceptions that these disks leave out (see
    [getLinkedRpyx]), for which the script logs no record. *)
Theorem error_records (disk : dict node) (cwd_ : string) (cap : Z)
  (paths : list string) :
  let r := fst (Updater.main disk cwd_ cap paths) in
  let s := snd (Updater.main disk cwd_ cap paths) in
  (r = Ok tt -> no_error (events s)) /\
  (forall p, r = Raise (IOError p) -> ends_in_error (events s)) /\
  (forall msg, In (EvLog ERROR msg) (events s) ->
     exists p, r = Raise (IOError p) /\ ends_in_error (events s)).
Proof.
  intros r s.
  assert (H : match r with
              | Ok _ => no_error (events s)
              | Raise _ => ends_in_error (events s)
              end); [unfold r, s; clear r s|].
  2:{ split; [|split].
      - intros Hr. now rewrite Hr in H.
      - intros p Hr. now rewrite Hr in H.
      - intros msg Hin.
        pose proof (update_ends disk cwd_ cap paths) as Hend. fold r in Hend.
        destruct r as [[]|e].
        + now apply H in Hin.
        + destruct Hend as (p & nd & -> & _). now exists p. }
  destruct (traversal_post disk cwd_ cap paths
              (fun s => no_error (events s))
              (fun s => ends_in_error (events s))) as (H & A).
  - intros path s H. cbn [events emit].
    apply no_error_app; [assumption | apply no_error_log; discriminate].
  - intros p s _ H. cbn [events logging_log emit].
    apply no_error_app; [assumption | apply no_error_log; discriminate].
  - intros msg s H. exists (events s), msg. now split.
  - intros path s _ H. exact H.
  - intros n q P s queue s' (_ & HP & _) H Hdisc.
    destruct (p_fresh _ _ _ HP q (or_introl eq_refl)) as (Hq & _).
    eapply no_error_discover; eassumption.
  - intros m [].
  - rewrite main_split.
    destruct (for_each paths _ _) as [[[]|e] sd]; cbn [fst snd] in *;
      [|assumption].
    pose proof (a_w _ _ _ _ A) as W.
    pose proof (apply_loop_log (dict_values (indexByAbsPath sd)) sd) as Hloop.
    unfold Updater.apply_all.
    destruct (for_each (dict_values (indexByAbsPath sd)) Strategy.doReplacements
                sd) as [[[]|e] s]; cbn [fst snd].
    + destruct Hloop as (l & -> & Hl); [|now apply no_error_app].
      intros o Ho Hel Hnone. unfold dict_values in Ho. apply in_map_iff in Ho.
      destruct Ho as ([k o'] & Hk & Hko). cbn in Hk. subst o'.
      apply dict_In_get in Hko; [|exact (w_index_nodup sd W)].
      destruct (w_index sd W k o Hko) as (Hlt & _).
      destruct (w_blank sd W o Hlt Hnone) as (_ & Hr).
      unfold eligible in Hel. rewrite Hr in Hel. cbn in Hel.
      now rewrite andb_false_r in Hel.
    + destruct Hloop as (l & msg & -> & Hl).
      * intros o Ho Hel Hnone. unfold dict_values in Ho. apply in_map_iff in Ho.
        destruct Ho as ([k o'] & Hk & Hko). cbn in Hk. subst o'.
        apply dict_In_get in Hko; [|exact (w_index_nodup sd W)].
        destruct (w_index sd W k o Hko) as (Hlt & _).
        destruct (w_blank sd W o Hlt Hnone) as (_ & Hr).
        unfold eligible in Hel. rewrite Hr in Hel. cbn in Hel.
        now rewrite andb_false_r in Hel.
      * exists (events sd ++ l), msg. split; [now rewrite app_assoc|].
        now apply no_error_app.
Qed.

Lemma error_records_witness :
  exists p,
    fst (Updater.main [("/proj/sub"%string, mkNode "" false false)]
           "/proj" 1 ["sub"%string]) = Raise (IOError p) /\
    ends_in_error
      (events (snd (Updater.main [("/proj/sub"%string, mkNode "" false false)]
                      "/proj" 1 ["sub"%string]))).
Proof.
  destruct (error_records [("/proj/sub"%string, mkNode "" false false)]
              "/proj" 1 ["sub"%string]) as (_ & _ & H).
  apply (H "Error reading file /proj/sub"%string).
  vm_compute. right. left. reflexivity.
Defined.

(** ** The paths of the disk *)

(** X18.  [update] creates no file and changes no permission: [open] for
    writing is only reached for paths that are on disk, so that a path is
    on disk after the run exactly when it was before, with the same
    permissions.  The file of the log, which [logging] writes by itself, is
    not a file of this disk. *)
Theorem update_keeps_paths (disk : dict node) (cwd_ : string) (cap : Z)
  (paths : list string) (p : string) :
  let s := snd (Updater.main disk cwd_ cap paths) in
  (dict_get p (fs s) = None <-> dict_get p disk = None) /\
  option_map (fun n => (readable n, writable n)) (dict_get p (fs s))
  = option_map (fun n => (readable n, writable n)) (dict_get p disk).
Proof.
  intros s. destruct (main_run disk cwd_ cap paths) as (sd & l & A & Ap & _).
  fold s in Ap. pose proof (ap_nodes _ _ _ Ap p) as H.
  rewrite (a_fs _ _ _ _ A) in H. split; [|assumption].
  destruct (dict_get p (fs s)), (dict_get p disk); cbn in H;
    split; congruence.
Qed.

(** ** The records at level [WARNING] *)

Lemma addIndexedRhpyx_heap (c : oid) (s : state) :
  heap (Index.addIndexedRhpyx c s) = heap s.
Proof.
  unfold Index.addIndexedRhpyx. now destruct (dict_get _ (indexByAbsPath s)).
Qed.

Lemma index_links_nodup (q : oid) (items : dict oid) :
  forall queue0 s,
    (q < length (heap s))%nat ->
    NoDup (dict_keys (linksDico (obj s q))) ->
    NoDup (dict_keys (linksDico
                        (obj (snd (Updater.index_links q items queue0 s)) q))).
Proof.
  induction items as [|[tok c] items IH]; intros queue0 s Hq Hnd; [assumption|].
  cbn [Updater.index_links].
  assert (Hlink : forall x,
            (q < length (heap (Rpyx.linkRpyx q tok x s)))%nat /\
            NoDup (dict_keys (linksDico (obj (Rpyx.linkRpyx q tok x s) q)))).
  { intros x. rewrite linkRpyx_spec. cbn [heap set_heap].
    rewrite list_set_length. split; [assumption|].
    unfold obj. cbn [heap set_heap]. rewrite nth_list_set_same by assumption.
    cbn [linksDico with_links]. now apply dict_set_NoDup. }
  destruct (Index.getIndexedRhpyx (absPath (obj s c)) s) as [indexed|].
  - destruct (Hlink indexed). now apply IH.
  - destruct (Hlink c) as (Hq1 & Hnd1). apply IH.
    + now rewrite addIndexedRhpyx_heap.
    + unfold obj. now rewrite addIndexedRhpyx_heap.
Qed.

Lemma discover_links_nodup (q : oid) (s : state) (queue : list oid)
  (s' : state) :
  (q < length (heap s))%nat ->
  NoDup (dict_keys (linksDico (obj s q))) ->
  discover q s = (Ok queue, s') ->
  NoDup (dict_keys (linksDico (obj s' q))).
Proof.
  intros Hq Hnd Hdisc. unfold discover, bind, lift, ret in Hdisc.
  destruct (Rpyx.getLinkedRpyx q s) as [[d|e] s1] eqn:Hg; [|discriminate].
  pose proof (index_links_nodup q d [] s1) as Hidx.
  destruct (getLinkedRpyx_ok q s d s1 Hg Hq) as (nd & _ & _ & Hs1 & _).
  cbv zeta in Hs1.
  assert (Hq1 : (q < length (heap s1))%nat).
  { rewrite Hs1. cbn [heap]. rewrite length_app, list_set_length. lia. }
  assert (Hoq1 : linksDico (obj s1 q) = linksDico (obj s q)).
  { rewrite Hs1. unfold obj. cbn [heap].
    rewrite app_nth1 by now rewrite list_set_length.
    now rewrite nth_list_set_same. }
  rewrite Hoq1 in Hidx. specialize (Hidx Hq1 Hnd).
  pose proof (index_links_spec q d [] s1) as Hspec.
  destruct (Updater.index_links q d [] s1) as [l s2] eqn:Hi.
  destruct (Hspec l s2 eq_refl Hq1) as (L' & news & Hs2 & _).
  cbn [snd] in Hidx. injection Hdisc as _ <-.
  assert (Hq2 : (q < length (heap s2))%nat).
  { rewrite Hs2. cbn [heap]. now rewrite list_set_length. }
  rewrite trace_spec, prepareAndCountReplacements_spec by assumption.
  unfold obj. cbn [heap]. rewrite nth_list_set_same by assumption.
  exact Hidx.
Qed.








(** ** The totals, read by read *)

Lemma over_reads_app (count : string -> nat) (disk : dict node)
  (ps qs : list string) :
  over_reads count disk (ps ++ qs)
  = (over_reads count disk ps + over_reads count disk qs)%nat.
Proof.
  induction ps as [|p ps IH]; cbn; [reflexivity|].
  fold (over_reads count disk (ps ++ qs)). fold (over_reads count disk ps).
  rewrite IH. lia.
Qed.

Lemma length_nodup_same (l l' : list string) :
  NoDup l -> (forall x, In x l <-> In x l') ->
  length l = length (nodup string_dec l').
Proof.
  intros Hnd Hsame. apply Nat.le_antisymm.
  - apply NoDup_incl_length; [assumption|].
    intros x Hx. apply nodup_In. now apply Hsame.
  - apply NoDup_incl_length; [apply NoDup_nodup|].
    intros x Hx. apply nodup_In in Hx. now apply Hsame.
Qed.

Lemma build_replacements_NoDup (c : string) (self : RhpRpyx)
  (links : list string) :
  forall acc, NoDup (dict_keys acc) ->
              NoDup (dict_keys (Rpyx.build_replacements c self links acc)).
Proof.
  induction links as [|l links IH]; intros acc Hacc; simpl; [assumption|].
  destruct (OsPath.isabs l); apply IH; [now apply dict_set_NoDup | assumption].
Qed.

Lemma tallied_by_read_log (disk : dict node) (level : Z) (msg : string)
  (s : state) :
  tallied_by_read disk s -> tallied_by_read disk (logging_log level msg s).
Proof.
  unfold tallied_by_read. cbn [strategy logging_log emit events].
  rewrite reads_app. cbn [reads flat_map]. now rewrite !app_nil_r.
Qed.

Lemma tallied_by_read_discover (disk : dict node) (cwd_ : string) (cap : Z)
  (seeds : list string) (n : nat) (q : oid) (P : list oid) (s : state)
  (queue : list oid) (s' : state) :
  dinv disk cwd_ cap seeds n (q :: P) s -> tallied_by_read disk s ->
  discover q s = (Ok queue, s') -> tallied_by_read disk s'.
Proof.
  intros (A & HP & _) (HL & HR) Hdisc.
  destruct (p_fresh _ _ _ HP q (or_introl eq_refl)) as (Hq & Hnone & _).
  destruct (w_blank s (a_w _ _ _ _ A) q Hq Hnone) as (Hlinks & _).
  assert (Hnd : NoDup (dict_keys (linksDico (obj s' q)))).
  { apply (discover_links_nodup q s queue s' Hq); [|assumption].
    rewrite Hlinks. constructor. }
  pose proof (discover_reads q s queue s' Hq Hdisc) as Hreads.
  destruct (discover_ok _ _ _ _ Hdisc Hq)
    as (nd & L' & news & (Hget & _) & Hs3 & _ & _ & _ & _ & Hk & _ & _ & _
        & Hself).
  rewrite (a_fs _ _ _ _ A) in Hget.
  rewrite Hself in Hnd. cbn [linksDico prepared with_replacements with_links] in Hnd.
  assert (Hkeys : forall tok, In tok (dict_keys L') <->
                              In tok (links_of (data nd))).
  { intros tok. rewrite Hk, Hlinks. cbn. tauto. }
  assert (E1 : length L' = links_in (data nd)).
  { unfold links_in.
    rewrite <- (length_nodup_same (dict_keys L') (links_of (data nd)) Hnd Hkeys).
    symmetry. apply length_map. }
  assert (E2 : length (Rpyx.build_replacements (cwd s)
                         (with_links (with_content (obj s q) (data nd)) L')
                         (dict_keys L') [])
               = replacements_in (data nd)).
  { unfold replacements_in.
    rewrite <- (length_nodup_same
                  (dict_keys (Rpyx.build_replacements (cwd s)
                     (with_links (with_content (obj s q) (data nd)) L')
                     (dict_keys L') []))).
    - symmetry. apply length_map.
    - apply build_replacements_NoDup. constructor.
    - intros old. rewrite build_replacements_keys, in_map_iff. split.
      + intros [[]|(l & Hl & Ha & ->)]. exists l. split; [reflexivity|].
        apply filter_In. split; [now apply Hkeys | assumption].
      + intros (l & <- & Hl). apply filter_In in Hl. destruct Hl as (Hl & Ha).
        right. exists l. repeat split; [now apply Hkeys | assumption]. }
  unfold tallied_by_read. rewrite Hreads, !over_reads_app.
  cbn [over_reads fold_right]. rewrite Hget.
  pose proof (f_equal strategy Hs3) as Hst. cbn [strategy] in Hst. rewrite Hst.
  cbn [tallied linkCount replacementCount linksDico replacementsDico prepared
       with_replacements with_links with_content].
  rewrite HL, HR, E1, E2. split; lia.
Qed.

(** X20.  In every run, whatever its outcome and whatever the cap,
    [linkCount] is the number of links of the files read and
    [replacementCount] the number of replacements that their absolute links
    give, as the disk had them when the run began; a file counts once for
    every time that it was read. *)
Theorem tallies_by_read (disk : dict node) (cwd_ : string) (cap : Z)
  (paths : list string) :
  tallied_by_read disk (snd (Updater.main disk cwd_ cap paths)).
Proof.
  destruct (totals_of_traversal disk cwd_ cap paths) as (H1 & H2 & _ & H3).
  cbv zeta in H1, H2, H3. unfold tallied_by_read. rewrite H1, H2, H3.
  destruct (traversal_post disk cwd_ 0 paths (tallied_by_read disk)
              (tallied_by_read disk)) as (HJ & _).
  - intros path s. apply tallied_by_read_log.
  - intros p s _. apply tallied_by_read_log.
  - intros msg s. apply tallied_by_read_log.
  - intros path s _ H. exact H.
  - intros n q P s queue s'. apply tallied_by_read_discover.
  - split; reflexivity.
  - destruct (for_each paths _ _) as [[[]|e] sd]; exact HJ.
Qed.
